(** * SimGrid: the cooperative actor/kernel runtime

    A shallow embedding of the synchronisation layer of SimGrid:
    - the kernel futures ([simgrid::kernel::Future], [Promise], their shared
      [FutureState]) and the promise helpers of [simgrid::xbt];
    - the generic simcalls and the wrappers [kernelImmediate], [kernelSync];
    - the s4u primitives [sleep_for], [sleep_until] and
      [ConditionVariable::wait_for];
    - the Boost execution contexts ([BoostContextFactory::run_all],
      [SerialBoostContext::suspend], [BoostContext::wrapper], [stop]);
    - the rounds of the Java context factory, the decision functions of the
      collective selector modelled on Open MPI's, and the keys and task
      categories of the tracing layer.

    C++ control flow is rendered with an outcome type (normal return, thrown
    exception, fatal termination) threaded through explicit state. *)

From Stdlib Require Import ZArith List Lia Bool String.
From Stdlib Require Import Ascii.
From Stdlib Require Import Floats.SpecFloat.
From stdpp Require Import gmap list.
From stdpp Require Import strings pretty.

Set Implicit Arguments.
Local Open Scope Z_scope.

(** ** Exceptions, fatal errors, outcomes *)

(** [std::future_errc] *)
Inductive future_errc :=
| broken_promise
| future_already_retrieved
| promise_already_satisfied
| no_state.

(** The categories of [xbt_ex]; only [timeout_error] is named by the code
    embedded here, the others are kept apart by a number. *)
Inductive xbt_errcat :=
| timeout_error
| other_category (c : nat).

Inductive exception :=
| future_error (c : future_errc)      (* std::future_error *)
| xbt_ex (category : xbt_errcat)      (* xbt_ex with its category *)
| StopRequest                         (* the stop marker of the contexts *)
| logic_error                         (* std::logic_error *)
| user_exception (tag : nat).         (* anything else user code throws *)

(** Ways the whole program ends. *)
Inductive fatal :=
| xbt_die (msg : string)              (* xbt_die("...") *)
| xbt_assert_failure                  (* a failed xbt_assert *)
| terminate.                          (* std::terminate() *)

Inductive Outcome (A : Type) :=
| Ret (a : A)
| Throw (e : exception)
| Die (f : fatal).
Arguments Ret {A} a.
Arguments Throw {A} e.
Arguments Die {A} f.

(** ** A state-and-outcome monad

    [M S A] is a C++ computation over a mutable state [S]: it ends by
    returning, by throwing, or by killing the program, and in each case
    leaves a state behind. *)

Definition M (S A : Type) : Type := S -> Outcome A * S.

Definition ret {S A} (a : A) : M S A := fun s => (Ret a, s).
Definition throw {S A} (e : exception) : M S A := fun s => (Throw e, s).
Definition die {S A} (f : fatal) : M S A := fun s => (Die f, s).

Definition bind {S A B} (m : M S A) (k : A -> M S B) : M S B :=
  fun s =>
    match m s with
    | (Ret a, s1) => k a s1
    | (Throw e, s1) => (Throw e, s1)
    | (Die f, s1) => (Die f, s1)
    end.

(** [try { m } catch (...) { h e }] *)
Definition try_catch {S A} (m : M S A) (h : exception -> M S A) : M S A :=
  fun s =>
    match m s with
    | (Throw e, s1) => h e s1
    | r => r
    end.

(** [try { m } catch (E const&) { h e }] for the exceptions [E] singled out
    by [caught]; any other exception goes through. *)
Definition try_catch_only {S A} (caught : exception -> bool) (m : M S A)
  (h : exception -> M S A) : M S A :=
  fun s =>
    match m s with
    | (Throw e, s1) => if caught e then h e s1 else (Throw e, s1)
    | r => r
    end.

Definition gets {S A} (f : S -> A) : M S A := fun s => (Ret (f s), s).
Definition modify {S} (f : S -> S) : M S unit := fun s => (Ret tt, f s).

(** Run a computation on a component of the state. *)
Definition zoom {S T A} (get : S -> T) (put : T -> S -> S) (m : M T A) : M S A :=
  fun s => let (o, t) := m (get s) in (o, put t s).

Declare Scope cxx_scope.
Delimit Scope cxx_scope with cxx.
Notation "'let!' x := m 'in' k" := (bind m (fun x => k))
  (at level 10, x name, m at level 100, k at level 200, only parsing) : cxx_scope.
Notation "m ;; k" := (bind m (fun _ => k))
  (at level 100, k at level 200, right associativity, only parsing) : cxx_scope.
Local Open Scope cxx_scope.

(** ** s4u: sleeping and condition variables *)

Module S4U.

(** Simulated time is a C++ [double]: an IEEE-754 binary64 value. *)
Definition double := spec_float.
Definition zero : double := S754_zero false.
Definition dsub : double -> double -> double := SFsub 53 1024.
(** [a < b] on doubles (false as soon as one side is NaN) *)
Definition dlt (a b : double) : bool := SFltb a b.
Definition dle (a b : double) : bool := SFleb a b.

(** The timed-wait simcall reads the timeout -1 as: wait without timeout. *)
Definition NO_TIMEOUT : double := S754_finite true 4503599627370496 (-52).

Definition smx_cond_t := nat.
Definition smx_mutex_t := nat.

(** The legacy typed simcalls used by this layer. *)
Inductive Simcall :=
| process_sleep (duration : double)
| cond_wait_timeout (cond : smx_cond_t) (mutex : smx_mutex_t) (timeout : double)
| mutex_lock (mutex : smx_mutex_t).

(** What an actor sees of the simulation: the clock and the simcalls it has
    issued so far, oldest first. *)
Record Simix := { clock : double; issued : list Simcall }.

Inductive cv_status := no_timeout | timeout.

Record Mutex := { mutex_ : smx_mutex_t }.
Record unique_lock := { mutex : Mutex }.
Record ConditionVariable := { cond_ : smx_cond_t }.

Section Simcalls.

(** The kernel side of the legacy simcalls is not part of this layer: it is
    a parameter that, for a simcall issued in a given state, says how the
    simcall ends for the actor and what the clock is when it resumes. *)
Variable handler : Simcall -> Simix -> Outcome unit * double.

Definition simcall (c : Simcall) : M Simix unit :=
  fun s =>
    let (o, now) := handler c s in
    (o, {| clock := now; issued := issued s ++ [c] |}).

Definition simcall_process_sleep (duration : double) : M Simix unit :=
  simcall (process_sleep duration).
Definition simcall_cond_wait_timeout (c : smx_cond_t) (m : smx_mutex_t)
  (t : double) : M Simix unit :=
  simcall (cond_wait_timeout c m t).
Definition simcall_mutex_lock (m : smx_mutex_t) : M Simix unit :=
  simcall (mutex_lock m).

Definition SIMIX_get_clock : M Simix double := gets clock.

(** [void sleep_for(double duration)] *)
Definition sleep_for (duration : double) : M Simix unit :=
  if dlt zero duration then simcall_process_sleep duration else ret tt.

(** [void sleep_until(double timeout)] *)
Definition sleep_until (timeout : double) : M Simix unit :=
  let! now := SIMIX_get_clock in
  if dlt now timeout then simcall_process_sleep (dsub timeout now) else ret tt.

(** [void Mutex::lock()] *)
Definition Mutex_lock (this : Mutex) : M Simix unit :=
  simcall_mutex_lock (mutex_ this).

(** The value of [timeout] after the first statement of [wait_for]. *)
Definition clamp_timeout (timeout : double) : double :=
  if dlt timeout zero then zero else timeout.

(** [std::cv_status ConditionVariable::wait_for(std::unique_lock<Mutex>&, double)] *)
Definition wait_for (this : ConditionVariable) (lock : unique_lock)
  (timeout : double) : M Simix cv_status :=
  let timeout := clamp_timeout timeout in
  fun s =>
    match
      (simcall_cond_wait_timeout (cond_ this) (mutex_ (mutex lock)) timeout ;;
       ret no_timeout) s
    with
    | (Throw (xbt_ex category), s1) =>
        match category with
        | timeout_error =>
            try_catch
              (Mutex_lock (mutex lock) ;; ret S4U.timeout)
              (fun _ => die terminate) s1
        | _ => (Die terminate, s1)
        end
    | (Throw _, s1) => (Die terminate, s1)
    | r => r
    end.

End Simcalls.

End S4U.

(** ** Kernel futures and promises *)

Module Kernel.

(** Address of a shared [FutureState] (what a [std::shared_ptr] points to). *)
Definition loc := nat.
(** Actors ([smx_process_t]) are named by a number. *)
Definition actor := nat.
(** A reference [&result] to the [simgrid::xbt::Result] local of a wrapper:
    the actor in whose frame the local lives. *)
Definition result_ref := nat.

Inductive FutureStatus := not_ready | ready | done.

Definition status_is_ready (s : FutureStatus) : bool :=
  match s with ready => true | _ => false end.

(** [simgrid::kernel::Future<T>]: a handle on a shared state, or none. *)
Record Future := { state_ : option loc }.

(** [simgrid::kernel::Promise<T>] *)
Record Promise := { p_state_ : option loc; future_get_ : bool }.

Section Futures.

(** The value type [T] of the futures. *)
Variable V : Type.
(** The user continuations given to [then]; they are stored in shared states,
    so they are kept as closures-as-data and run by [run_user] below. *)
Variable Cont : Type.

(** What [then_] may bind to a state: a user continuation, or the closure
    [[&result, self](Future<T> value) { setPromise(result, value); unblock(self); }]
    of [kernelSync]. *)
Inductive Continuation :=
| user_cont (c : Cont)
| wake_actor (result : result_ref) (self : actor).

(** [simgrid::xbt::Task<void()>] as built by [makeTask]: a function object
    with its bound arguments. *)
Inductive Task :=
| then_task (promise : Promise) (state : loc) (continuation : Cont)
    (* the closure of thenNoUnwrap, bound to (promise, state, continuation) *)
| bound_task (continuation : Continuation) (state : loc).
    (* makeTask(continuation, state) of then_ *)

(** [FutureStateBase] and [FutureState<T>] *)
Record FutureState := {
  status_ : FutureStatus;
  exception_ : option exception;       (* std::exception_ptr, None is null *)
  continuation_ : option Task;
  value_ : option V                    (* boost::optional<T> *)
}.

Definition set_status (x : FutureStatus) (st : FutureState) : FutureState :=
  {| status_ := x; exception_ := exception_ st;
     continuation_ := continuation_ st; value_ := value_ st |}.
Definition set_exception_ (x : option exception) (st : FutureState) : FutureState :=
  {| status_ := status_ st; exception_ := x;
     continuation_ := continuation_ st; value_ := value_ st |}.
Definition set_continuation_ (x : option Task) (st : FutureState) : FutureState :=
  {| status_ := status_ st; exception_ := exception_ st;
     continuation_ := x; value_ := value_ st |}.
Definition set_value_ (x : option V) (st : FutureState) : FutureState :=
  {| status_ := status_ st; exception_ := exception_ st;
     continuation_ := continuation_ st; value_ := x |}.

(** The state owned by the maestro that the futures live in. *)
Record Kernel := {
  heap : gmap loc FutureState;   (* the shared states *)
  ready_list : list Task;        (* scheduled jobs, oldest first *)
  process_to_run : list actor    (* actors unblocked for the next round *)
}.

Definition set_heap (h : gmap loc FutureState) (k : Kernel) : Kernel :=
  {| heap := h; ready_list := ready_list k; process_to_run := process_to_run k |}.
Definition set_ready_list (l : list Task) (k : Kernel) : Kernel :=
  {| heap := heap k; ready_list := l; process_to_run := process_to_run k |}.
Definition set_process_to_run (l : list actor) (k : Kernel) : Kernel :=
  {| heap := heap k; ready_list := ready_list k; process_to_run := l |}.

(** A method of the shared state at [l], run on the heap.  A [shared_ptr]
    keeps its state alive, so the lookup fails only in a heap that no run
    produces; that case is a fatal error. *)
Definition at_state {A} (l : loc) (m : M FutureState A) : M Kernel A :=
  fun k =>
    match heap k !! l with
    | Some st => let (o, st') := m st in (o, set_heap (<[l := st']> (heap k)) k)
    | None => (Die (xbt_die "dangling shared state"), k)
    end.

(** A method of an object [this : C] that also touches the kernel runs on
    the pair; [on_kernel] runs kernel code from inside such a method and
    [call] runs a method on a local object, giving back the object. *)
Definition on_kernel {C A} (m : M Kernel A) : M (C * Kernel) A :=
  zoom snd (fun k s => (fst s, k)) m.
Definition on_this {C A} (m : M C A) : M (C * Kernel) A :=
  zoom fst (fun c s => (c, snd s)) m.
Definition call {C A} (this : C) (m : M (C * Kernel) A) : M Kernel (A * C) :=
  fun k =>
    match m (this, k) with
    | (Ret a, (this', k')) => (Ret (a, this'), k')
    | (Throw e, (_, k')) => (Throw e, k')
    | (Die f, (_, k')) => (Die f, k')
    end.

Definition deadlock_message : string := "Deadlock: this future is not ready".

(** [T simgrid::kernel::SharedState<T>::get()] *)
Definition FutureState_get : M FutureState V :=
  let! status := gets status_ in
  if negb (status_is_ready status) then
    die (xbt_die deadlock_message)
  else
    modify (set_status done) ;;
    let! exception := gets exception_ in
    match exception with
    | Some e =>
        modify (set_exception_ None) ;;      (* std::move(exception_) *)
        throw e                              (* std::rethrow_exception *)
    | None =>
        let! value := gets value_ in
        match value with
        | None => die xbt_assert_failure     (* xbt_assert(this->value_) *)
        | Some result =>
            modify (set_value_ None) ;;      (* value_ = boost::optional<T>() *)
            ret result
        end
    end.

(** [std::move(state_)]: the member is left null. *)
Definition move_state_ : M Future unit :=
  modify (fun _ => {| state_ := None |}).

(** [T simgrid::kernel::Future<T>::get()] *)
Definition Future_get : M (Future * Kernel) V :=
  let! s := on_this (gets state_) in
  match s with
  | None => throw (future_error no_state)
  | Some state =>
      on_this move_state_ ;;
      on_kernel (at_state state FutureState_get)
  end.

(** Modelled from the spec: [valid()], declared but not defined in the
    sources, is the inspection that tells whether the handle has a shared
    state (the spec's no_state is the error of a handle without one). *)
Definition valid (this : Future) : bool :=
  match state_ this with Some _ => true | None => false end.

(** Modelled from the spec: [FutureStateBase::schedule], declared but not
    defined in the sources: the job is enqueued into the ready list owned by
    the kernel, which the scheduler drains; it is never called inline. *)
Definition schedule (job : Task) : M Kernel unit :=
  modify (fun k => set_ready_list (ready_list k ++ [job]) k).

(** Modelled from the spec: [FutureStateBase::set_continuation], declared
    but not defined in the sources.  A state has at most one continuation;
    attached to a state that is not ready it is stored, attached to a ready
    state it is scheduled (not called).  The spec gives no behaviour for a
    state already consumed ([done]), which no handle reaches; it is a fatal
    error here. *)
Definition set_continuation (l : loc) (continuation : Task) : M Kernel unit :=
  let! old := at_state l (gets continuation_) in
  match old with
  | Some _ => die xbt_assert_failure
  | None =>
      let! status := at_state l (gets status_) in
      match status with
      | done => die (xbt_die "Set continuation on finished future")
      | ready => schedule continuation
      | not_ready => at_state l (modify (set_continuation_ (Some continuation)))
      end
  end.

(** Modelled from the spec: what satisfying a promise does to the state once
    the value or exception is stored: the status becomes ready and the
    attached continuation, if any, leaves the state for the ready list. *)
Definition set_ready (l : loc) : M Kernel unit :=
  at_state l (modify (set_status ready)) ;;
  let! c := at_state l (gets continuation_) in
  match c with
  | Some job => at_state l (modify (set_continuation_ None)) ;; schedule job
  | None => ret tt
  end.

(** The state a satisfied promise leaves behind, and the job it releases. *)
Definition satisfied (value : option V) (e : option exception) : FutureState :=
  {| status_ := ready; exception_ := e; continuation_ := None; value_ := value |}.
Definition pending_job (st : FutureState) : list Task :=
  match continuation_ st with Some job => [job] | None => [] end.

(** Modelled from the spec: [FutureState<T>::set_value], declared but not
    defined in the sources: a second satisfaction fails with
    already_satisfied. *)
Definition FutureState_set_value (l : loc) (value : V) : M Kernel unit :=
  let! status := at_state l (gets status_) in
  match status with
  | not_ready => at_state l (modify (set_value_ (Some value))) ;; set_ready l
  | _ => throw (future_error promise_already_satisfied)
  end.

(** Modelled from the spec: [FutureStateBase::set_exception], as
    [set_value]. *)
Definition FutureState_set_exception (l : loc) (e : exception) : M Kernel unit :=
  let! status := at_state l (gets status_) in
  match status with
  | not_ready => at_state l (modify (set_exception_ (Some e))) ;; set_ready l
  | _ => throw (future_error promise_already_satisfied)
  end.

Definition fresh_state : FutureState :=
  {| status_ := not_ready; exception_ := None; continuation_ := None;
     value_ := None |}.

(** Modelled from the spec: the default constructor of [Promise], not in
    the sources: a promise is born with a new shared state. *)
Definition Promise_new : M Kernel Promise :=
  fun k =>
    let l := fresh (dom (heap k)) in
    (Ret {| p_state_ := Some l; future_get_ := false |},
     set_heap (<[l := fresh_state]> (heap k)) k).


(** Modelled from the spec: [Promise::get_future], not in the sources:
    callable at most once per promise; the future shares the state. *)
Definition Promise_get_future : M (Promise * Kernel) Future :=
  let! this := on_this (gets (fun p => p)) in
  match p_state_ this with
  | None => throw (future_error no_state)
  | Some l =>
      if future_get_ this then throw (future_error future_already_retrieved)
      else
        on_this (modify (fun p => {| p_state_ := p_state_ p; future_get_ := true |})) ;;
        ret {| state_ := Some l |}
  end.

(** Modelled from the spec: [Promise::set_value] and [set_exception], not
    in the sources: they act on the shared state; without one they fail with
    no_state. *)
Definition Promise_set_value (this : Promise) (value : V) : M Kernel unit :=
  match p_state_ this with
  | None => throw (future_error no_state)
  | Some l => FutureState_set_value l value
  end.
Definition Promise_set_exception (this : Promise) (e : exception) : M Kernel unit :=
  match p_state_ this with
  | None => throw (future_error no_state)
  | Some l => FutureState_set_exception l e
  end.

(** What [fulfillPromise] asks of its first argument: the kernel [Promise]
    and the [Result] holder both provide it. *)
Class PromiseLike (P S : Type) := {
  promise_set_value : P -> V -> M S unit;
  promise_set_exception : P -> exception -> M S unit
}.

Instance Promise_PromiseLike : PromiseLike Promise Kernel :=
  {| promise_set_value := Promise_set_value;
     promise_set_exception := Promise_set_exception |}.

(** [fulfillPromise(R& promise, F&& code)] *)
Definition fulfillPromise {P S} `{PromiseLike P S} (promise : P) (code : M S V)
  : M S unit :=
  try_catch
    (let! v := code in promise_set_value promise v)
    (fun e => promise_set_exception promise e).

(** [setPromise(P& promise, F&& future)]; [lift] says how kernel code runs
    in the state the promise lives in. *)
Definition setPromise {P S} `{PromiseLike P S}
  (lift : M Kernel V -> M S V) (promise : P) (future : Future) : M S unit :=
  fulfillPromise promise
    (lift (let! r := call future Future_get in ret (fst r))).

(** The user continuations: called with the future, in the kernel. *)
Variable run_user : Cont -> Future -> M Kernel V.

(** The closure that [thenNoUnwrap] binds to (promise, state, continuation). *)
Definition then_closure (promise : Promise) (state : loc) (continuation : Cont)
  : M Kernel unit :=
  let future := {| state_ := Some state |} in
  fulfillPromise promise (run_user continuation future).

(** [Future<T>::thenNoUnwrap(F continuation)] *)
Definition thenNoUnwrap (continuation : Cont) : M (Future * Kernel) Future :=
  let! s := on_this (gets state_) in
  match s with
  | None => throw (future_error no_state)
  | Some state =>
      on_this move_state_ ;;
      let! promise := on_kernel Promise_new in
      let! fp := on_kernel (call promise Promise_get_future) in
      let (future, promise) := fp in
      on_kernel (set_continuation state (then_task promise state continuation)) ;;
      ret future
  end.

(** [Future<T>::then_(F continuation)] *)
Definition then_ (continuation : Continuation) : M (Future * Kernel) unit :=
  let! s := on_this (gets state_) in
  match s with
  | None => throw (future_error no_state)
  | Some state =>
      on_this move_state_ ;;
      on_kernel (set_continuation state (bound_task continuation state))
  end.

(** Modelled from the spec: [simgrid::simix::unblock], not in the sources:
    the actor is put back on the to-run list. *)
Definition unblock (self : actor) : M Kernel unit :=
  modify (fun k => set_process_to_run (process_to_run k ++ [self]) k).

End Futures.

End Kernel.

(** ** The generic simcalls and their wrappers *)

Module Simix.
Import Kernel.

(** [simgrid::xbt::Result<T>]: a status and a union of a value and an
    exception. *)
Inductive Result (V : Type) :=
| invalid
| value (v : V)
| exception_ptr (e : exception).
Arguments invalid {V}.
Arguments value {V} v.
Arguments exception_ptr {V} e.

(** The two generic simcalls. *)
Inductive Simcall := run_kernel | run_blocking.

Section Simcalls.

Variable V : Type.
Variable Cont : Type.
Variable run_user : Cont -> Future -> M (Kernel V Cont) V.

(** The simulation as the wrappers see it. *)
Record World := {
  kernel : Kernel V Cont;
  results : gmap result_ref (Result V);  (* the Result locals of the actors' frames *)
  simcalls : list (actor * Simcall);     (* simcalls issued so far, with issuer *)
  running : option actor                 (* current context; None is maestro *)
}.

Definition set_kernel (k : Kernel V Cont) (w : World) : World :=
  {| kernel := k; results := results w; simcalls := simcalls w;
     running := running w |}.
Definition set_results (r : gmap result_ref (Result V)) (w : World) : World :=
  {| kernel := kernel w; results := r; simcalls := simcalls w;
     running := running w |}.
Definition set_simcalls (l : list (actor * Simcall)) (w : World) : World :=
  {| kernel := kernel w; results := results w; simcalls := l;
     running := running w |}.
Definition set_running (c : option actor) (w : World) : World :=
  {| kernel := kernel w; results := results w; simcalls := simcalls w;
     running := c |}.

(** Kernel code run in the world. *)
Definition in_kernel {A} (m : M (Kernel V Cont) A) : M World A :=
  zoom kernel set_kernel m.

(** Modelled from the spec: [SIMIX_is_maestro], not in the sources: whether
    the current context is the maestro context. *)
Definition SIMIX_is_maestro : M World bool :=
  gets (fun w => match running w with None => true | Some _ => false end).

(** Modelled from the spec: [SIMIX_process_self], not in the sources: the
    actor of the current context.  The wrappers ask for it only after they
    have excluded the maestro context. *)
Definition SIMIX_process_self : M World actor :=
  fun w =>
    match running w with
    | Some self => (Ret self, w)
    | None => (Die (xbt_die "no actor is running"), w)
    end.

(** [simgrid::xbt::Result<T> result;]: the local is in the frame of the
    running actor and starts invalid. *)
Definition Result_new : M World result_ref :=
  let! self := SIMIX_process_self in
  modify (fun w => set_results (<[self := invalid]> (results w)) w) ;;
  ret self.

(** Modelled from the spec: the methods of [Result], declared but not
    defined in the sources: one slot for a value or an exception, set by the
    kernel and consumed by [get], which returns the value or rethrows the
    exception.  Reading an empty slot throws. *)
Definition Result_set_value (result : result_ref) (v : V) : M World unit :=
  modify (fun w => set_results (<[result := value v]> (results w)) w).
Definition Result_set_exception (result : result_ref) (e : exception)
  : M World unit :=
  modify (fun w => set_results (<[result := exception_ptr e]> (results w)) w).
Definition Result_get (result : result_ref) : M World V :=
  let! r := gets (fun w => results w !! result) in
  match r with
  | Some (value v) =>
      modify (fun w => set_results (<[result := invalid]> (results w)) w) ;;
      ret v
  | Some (exception_ptr e) =>
      modify (fun w => set_results (<[result := invalid]> (results w)) w) ;;
      throw e
  | Some invalid | None => throw logic_error
  end.

Instance Result_PromiseLike : PromiseLike V result_ref World :=
  {| promise_set_value := Result_set_value;
     promise_set_exception := Result_set_exception |}.

Definition log_simcall (self : actor) (c : Simcall) : M World unit :=
  modify (fun w => set_simcalls (simcalls w ++ [(self, c)]) w).

(** The two context switches of a simcall: the actor yields to maestro, and
    maestro later resumes the actor. *)
Definition yield_to_maestro : M World unit := modify (set_running None).
Definition resume (self : actor) : M World unit :=
  modify (set_running (Some self)).

(** Modelled from the spec: the immediate generic simcall, whose body is not
    in the sources: the actor traps into the kernel, which runs the closure
    in maestro context; the actor is runnable again at once. *)
Definition simcall_run_kernel (code : M World unit) : M World unit :=
  let! self := SIMIX_process_self in
  log_simcall self run_kernel ;;
  yield_to_maestro ;;
  code ;;
  resume self.

Definition is_unblocked (self : actor) : M World bool :=
  gets (fun w => bool_decide (self ∈ process_to_run (kernel w))).

(** Maestro takes an unblocked actor off the to-run list and resumes it. *)
Definition run_unblocked (self : actor) : M World unit :=
  in_kernel (modify (fun k =>
    set_process_to_run (filter (fun a => a <> self) (process_to_run k)) k)) ;;
  resume self.

(** Modelled from the spec: the blocking generic simcall, whose body is not
    in the sources: the actor traps into the kernel, which runs the closure
    in maestro context, and the actor stays parked until [unblock] has put
    it on the to-run list.  [sched] is what the kernel does while the actor
    is parked (events, continuations, other actors); when that ends with the
    actor still blocked, the simulation is deadlocked. *)
Definition simcall_run_blocking (code : M World unit) (sched : M World unit)
  : M World unit :=
  let! self := SIMIX_process_self in
  log_simcall self run_blocking ;;
  yield_to_maestro ;;
  code ;;
  let! now := is_unblocked self in
  if now then run_unblocked self
  else
    sched ;;
    let! later := is_unblocked self in
    if later then run_unblocked self
    else die (xbt_die "Deadlock: every actor is blocked").

(** [kernelImmediate(F&& code)] *)
Definition kernelImmediate (code : M (Kernel V Cont) V) : M World V :=
  let! maestro := SIMIX_is_maestro in
  if maestro then in_kernel code
  else
    let! result := Result_new in
    simcall_run_kernel
      (let! maestro := SIMIX_is_maestro in
       if negb maestro then die xbt_assert_failure
       else fulfillPromise result (in_kernel code)) ;;
    Result_get result.

(** The continuation that [kernelSync] gives to [then_]:
    [[&result, self](Future<T> value) { setPromise(result, value); unblock(self); }] *)
Definition wake (result : result_ref) (self : actor) (value : Future)
  : M World unit :=
  setPromise in_kernel result value ;;
  in_kernel (unblock self).

(** The closure that [kernelSync] passes to [simcall_run_blocking]. *)
Definition kernelSync_closure (result : result_ref) (self : actor)
  (code : M (Kernel V Cont) Future) : M World unit :=
  try_catch
    (let! future := in_kernel code in
     let! r := in_kernel (call future (then_ (wake_actor Cont result self))) in
     ret tt)
    (fun e =>
       Result_set_exception result e ;;
       in_kernel (unblock self)).

(** [kernelSync(F code)] *)
Definition kernelSync (code : M (Kernel V Cont) Future) (sched : M World unit)
  : M World V :=
  let! maestro := SIMIX_is_maestro in
  if maestro then die (xbt_die "Can't execute blocking call in kernel mode")
  else
    let! self := SIMIX_process_self in
    let! result := Result_new in
    simcall_run_blocking (kernelSync_closure result self code) sched ;;
    Result_get result.

(** The world in which the kernel runs the closure of a [kernelSync] issued
    by [self]: the result holder is declared, the blocking simcall is logged
    and maestro is running. *)
Definition parked (self : actor) (w : World) : World :=
  set_running None
    (set_simcalls (simcalls w ++ [(self, run_blocking)])
       (set_results (<[self := invalid]> (results w)) w)).

(** The closure of [kernelSync] fails at once, with [e], when [code] throws
    [e], and also when [code] returns a future without shared state, on
    which [then_] throws [no_state]. *)
Definition fails_at_once (o : Outcome Future) (e : exception) : Prop :=
  o = Throw e \/ (o = Ret {| state_ := None |} /\ e = future_error no_state).

(** Code that issues no simcall. *)
Definition keeps_simcalls {A} (m : M World A) : Prop :=
  forall w, simcalls (snd (m w)) = simcalls w.

(** Calling a task: the function object applied to its bound arguments. *)
Definition run_task (job : Task Cont) : M World unit :=
  match job with
  | then_task promise state continuation =>
      in_kernel (then_closure run_user promise state continuation)
  | bound_task (user_cont c) state =>
      in_kernel (run_user c {| state_ := Some state |}) ;; ret tt
  | bound_task (wake_actor _ result self) state =>
      wake result self {| state_ := Some state |}
  end.

(** Modelled from the spec: the scheduler drains the ready list, running
    every scheduled continuation, until the list is empty; running one may
    schedule more.  [fuel] bounds the number of jobs run. *)
Fixpoint drain_ready_list (fuel : nat) : M World unit :=
  match fuel with
  | O => ret tt
  | S n =>
      let! jobs := gets (fun w => ready_list (kernel w)) in
      match jobs with
      | [] => ret tt
      | job :: rest =>
          in_kernel (modify (set_ready_list rest)) ;;
          run_task job ;;
          drain_ready_list n
      end
  end.

End Simcalls.

End Simix.

(** ** The Boost contexts *)

Module ContextBoost.

(** A [BoostContext*]. *)
Definition context_ptr := nat.

(** What the contexts use of an actor ([smx_actor_t]). *)
Record smx_actor := { pid : nat; context : context_ptr }.

(** [unsigned long] arithmetic wraps around. *)
Definition ULONG_MODULUS : Z := 2 ^ 64.
Definition ulong (z : Z) : Z := z mod ULONG_MODULUS.

(** [simix_global] and the static members of [BoostContext], with a log of
    the stack switches and of the contexts whose stop path has run. *)
Record Simix := {
  process_to_run : list smx_actor;          (* simix_global->process_to_run *)
  process_index_ : Z;                       (* BoostContext::process_index_ *)
  maestro_context_ : context_ptr;           (* BoostContext::maestro_context_ *)
  current : context_ptr;                    (* SIMIX_context_set_current *)
  switches : list (context_ptr * context_ptr);  (* swap(from, to), oldest first *)
  stopped : list context_ptr                (* Context::stop() calls, oldest first *)
}.

Definition set_process_index_ (i : Z) (s : Simix) : Simix :=
  {| process_to_run := process_to_run s; process_index_ := i;
     maestro_context_ := maestro_context_ s; current := current s;
     switches := switches s; stopped := stopped s |}.
Definition set_current (c : context_ptr) (s : Simix) : Simix :=
  {| process_to_run := process_to_run s; process_index_ := process_index_ s;
     maestro_context_ := maestro_context_ s; current := c;
     switches := switches s; stopped := stopped s |}.
Definition set_switches (l : list (context_ptr * context_ptr)) (s : Simix) : Simix :=
  {| process_to_run := process_to_run s; process_index_ := process_index_ s;
     maestro_context_ := maestro_context_ s; current := current s;
     switches := l; stopped := stopped s |}.
Definition set_stopped (l : list context_ptr) (s : Simix) : Simix :=
  {| process_to_run := process_to_run s; process_index_ := process_index_ s;
     maestro_context_ := maestro_context_ s; current := current s;
     switches := switches s; stopped := l |}.

(** The contexts control was given to, oldest first. *)
Definition resumed (s : Simix) : list context_ptr := map snd (switches s).

Definition SIMIX_context_set_current (c : context_ptr) : M Simix unit :=
  modify (set_current c).

(** [BoostContext::swap(from, to)]: control leaves [from] for [to]. *)
Definition swap (from to : context_ptr) : M Simix unit :=
  modify (fun s => set_switches (switches s ++ [(from, to)]) s).

(** [void SerialBoostContext::suspend()] *)
Definition suspend (this : context_ptr) : M Simix unit :=
  let! i := gets process_index_ in
  modify (set_process_index_ (ulong (i + 1))) ;;
  let! to_run := gets process_to_run in
  let! next_context :=
    (if i <? Z.of_nat (length to_run) then
       match to_run !! Z.to_nat i with
       | Some process => ret (context process)
       | None => die (xbt_die "process_to_run: index out of range")
       end
     else gets maestro_context_) in
  SIMIX_context_set_current next_context ;;
  swap this next_context.

(** [void SerialBoostContext::resume()] *)
Definition resume (this : context_ptr) : M Simix unit :=
  SIMIX_context_set_current this ;;
  let! maestro := gets maestro_context_ in
  swap maestro this.

(** [void BoostContextFactory::run_all()], the serial case ([parallel_] is
    false). *)
Definition run_all : M Simix unit :=
  let! to_run := gets process_to_run in
  match to_run with
  | [] => ret tt
  | first_process :: _ =>
      modify (set_process_index_ 1) ;;
      resume (context first_process)
  end.

(** The running context reaches its next simcall, or its end, and suspends. *)
Definition yield : M Simix unit :=
  let! self := gets current in
  suspend self.

Fixpoint yields (n : nat) : M Simix unit :=
  match n with
  | O => ret tt
  | S k => yield ;; yields k
  end.

(** Modelled from the spec: [Context::stop], the stop path of the base
    class, not in the sources: the context is marked as terminated (its
    cleanup hook has run); it does not throw. *)
Definition Context_stop (this : context_ptr) : M Simix unit :=
  modify (fun s => set_stopped (stopped s ++ [this]) s).

(** [void BoostContext::stop()] *)
Definition stop (this : context_ptr) : M Simix unit :=
  Context_stop this ;;
  throw StopRequest.

Definition is_StopRequest (e : exception) : bool :=
  match e with StopRequest => true | _ => false end.

(** [void BoostContext::wrapper(arg)]: the entry function of the context
    [context], whose user code is [code]. *)
Definition wrapper (context : context_ptr) (code : M Simix unit) : M Simix unit :=
  try_catch_only is_StopRequest
    (code ;; Context_stop context)
    (fun _ => ret tt) ;;
  suspend context.

(** An exception that leaves [wrapper] finds no handler on the stack of the
    context: the C++ runtime calls [std::terminate]. *)
Definition context_entry (context : context_ptr) (code : M Simix unit)
  : M Simix unit :=
  try_catch (wrapper context code) (fun _ => die terminate).

End ContextBoost.

(** ** s4u: waiting for a predicate *)

Module S4U_wait.
Import S4U.

(** [SIMIX_get_clock() + duration] on doubles *)
Definition dadd : double -> double -> double := SFadd 53 1024.

(** A loop either ends, with an outcome and a state, or runs out of the
    iterations it was given. *)
Definition Loop (A : Type) : Type := option (Outcome A * Simix).

Section Waits.

(** The kernel side of the untimed wait on a condition variable is not in
    the sources: it is a parameter. *)
Variable simcall_cond_wait : smx_cond_t -> smx_mutex_t -> M Simix unit.

(** [wait_until(std::unique_lock<Mutex>&, double)] is declared in the
    sources and not defined there: it is a parameter. *)
Variable wait_until :
  ConditionVariable -> unique_lock -> double -> M Simix cv_status.

(** [void ConditionVariable::wait(std::unique_lock<Mutex>& lock)] *)
Definition wait (this : ConditionVariable) (lock : unique_lock) : M Simix unit :=
  simcall_cond_wait (cond_ this) (mutex_ (mutex lock)).

(** [void ConditionVariable::wait(std::unique_lock<Mutex>& lock, P pred)]:
    [while (!pred()) wait(lock);], for at most [fuel] evaluations of
    [pred]. *)
Fixpoint wait_pred (fuel : nat) (this : ConditionVariable) (lock : unique_lock)
  (pred : M Simix bool) (s : Simix) : Loop unit :=
  match fuel with
  | O => None
  | S n =>
      match pred s with
      | (Ret true, s1) => Some (Ret tt, s1)
      | (Ret false, s1) =>
          match wait this lock s1 with
          | (Ret _, s2) => wait_pred n this lock pred s2
          | (Throw e, s2) => Some (Throw e, s2)
          | (Die f, s2) => Some (Die f, s2)
          end
      | (Throw e, s1) => Some (Throw e, s1)
      | (Die f, s1) => Some (Die f, s1)
      end
  end.

(** [bool ConditionVariable::wait_until(std::unique_lock<Mutex>& lock,
    double timeout_time, P pred)]:
    [while (!pred()) if (wait_until(lock, timeout_time) == timeout) return pred();
     return true;] *)
Fixpoint wait_until_pred (fuel : nat) (this : ConditionVariable)
  (lock : unique_lock) (timeout_time : double) (pred : M Simix bool)
  (s : Simix) : Loop bool :=
  match fuel with
  | O => None
  | S n =>
      match pred s with
      | (Ret true, s1) => Some (Ret true, s1)
      | (Ret false, s1) =>
          match wait_until this lock timeout_time s1 with
          | (Ret timeout, s2) => Some (pred s2)
          | (Ret no_timeout, s2) =>
              wait_until_pred n this lock timeout_time pred s2
          | (Throw e, s2) => Some (Throw e, s2)
          | (Die f, s2) => Some (Die f, s2)
          end
      | (Throw e, s1) => Some (Throw e, s1)
      | (Die f, s1) => Some (Die f, s1)
      end
  end.

(** [bool ConditionVariable::wait_for(std::unique_lock<Mutex>& lock,
    double duration, P pred)] *)
Definition wait_for_pred (fuel : nat) (this : ConditionVariable)
  (lock : unique_lock) (duration : double) (pred : M Simix bool)
  (s : Simix) : Loop bool :=
  wait_until_pred fuel this lock (dadd (clock s) duration) pred s.

End Waits.

End S4U_wait.

(** ** The actor-side future *)

Module ActorFuture.
Import Kernel Simix.

(** [simgrid::simix::Future<T>]: it wraps a kernel future. *)
Record SimixFuture := { future_ : Future }.

Section ActorFutures.

Variable V : Type.
Variable Cont : Type.

(** World code run from a method of the actor future. *)
Definition on_world {A} (m : M (World V Cont) A)
  : M (SimixFuture * World V Cont) A :=
  zoom snd (fun w s => (fst s, w)) m.

(** [this->future_.method()]: a method of the wrapped kernel future, run on
    the member and on the kernel of the world. *)
Definition on_future_ {A} (m : M (Future * Kernel V Cont) A)
  : M (SimixFuture * World V Cont) A :=
  fun s =>
    let (o, fk) := m (future_ (fst s), kernel (snd s)) in
    (o, ({| future_ := fst fk |}, set_kernel (snd fk) (snd s))).

(** [bool valid() const { return future_.valid(); }] *)
Definition valid (this : SimixFuture) : bool := Kernel.valid (future_ this).

(** The blocking simcall of [Simix.simcall_run_blocking], cut at the point
    where the kernel runs the closure: what comes before it (the trap into
    the kernel) and what comes after it (the wait for [unblock]). *)
Definition blocking_trap : M (World V Cont) actor :=
  let! self := SIMIX_process_self (V:=V) (Cont:=Cont) in
  log_simcall self run_blocking ;;
  yield_to_maestro (V:=V) (Cont:=Cont) ;;
  ret self.
Definition blocking_wait (self : actor) (sched : M (World V Cont) unit)
  : M (World V Cont) unit :=
  let! now := is_unblocked self in
  if now then run_unblocked self
  else
    sched ;;
    let! later := is_unblocked self in
    if later then run_unblocked self
    else die (xbt_die "Deadlock: every actor is blocked").

(** [T simgrid::simix::Future<T>::get()]; the closure given to
    [simcall_run_blocking] acts on [this->future_], so it runs on the pair
    of the object and the world. *)
Definition get (sched : M (World V Cont) unit)
  : M (SimixFuture * World V Cont) V :=
  let! ok := gets (fun s => valid (fst s)) in
  if negb ok then throw (future_error no_state)
  else
    let! self := on_world (SIMIX_process_self (V:=V) (Cont:=Cont)) in
    let! result := on_world (Result_new (V:=V) (Cont:=Cont)) in
    let! issuer := on_world blocking_trap in
    try_catch
      (on_future_ (then_ (wake_actor Cont result self)))
      (fun e =>
         on_world (Result_set_exception result e ;; in_kernel (unblock self))) ;;
    on_world (blocking_wait issuer sched) ;;
    on_world (Result_get result).

End ActorFutures.

End ActorFuture.

(** ** Creating and destroying Boost contexts *)

Module BoostContextLifetime.
Import ContextBoost.

(** A stack, as handed out by [SIMIX_context_stack_new]. *)
Definition stack_t := nat.

(** The static [BoostContext::maestro_context_] (None is nullptr) and the
    stacks that are allocated. *)
Record Registry := {
  maestro_context_ : option context_ptr;
  stacks : gset stack_t
}.

Definition set_maestro_context_ (m : option context_ptr) (r : Registry) : Registry :=
  {| maestro_context_ := m; stacks := stacks r |}.
Definition set_stacks (x : gset stack_t) (r : Registry) : Registry :=
  {| maestro_context_ := maestro_context_ r; stacks := x |}.

(** Modelled from the spec: [SIMIX_context_stack_new] and
    [SIMIX_context_stack_delete], not in the sources: creating a context
    allocates a stack of its own; deleting no stack does nothing. *)
Definition SIMIX_context_stack_new : M Registry stack_t :=
  fun r => let st := fresh (stacks r) in (Ret st, set_stacks ({[ st ]} ∪ stacks r) r).
Definition SIMIX_context_stack_delete (stack : option stack_t) : M Registry unit :=
  match stack with
  | Some st => modify (fun r => set_stacks (stacks r ∖ {[ st ]}) r)
  | None => ret tt
  end.

(** [BoostContext::BoostContext(code, cleanup_func, process)] for the object
    at [this]; [has_code] tells whether the user provided a function.  The
    result is the member [stack_] (null for the context of maestro). *)
Definition BoostContext_new (this : context_ptr) (has_code : bool)
  : M Registry (option stack_t) :=
  if has_code then
    let! stack := SIMIX_context_stack_new in
    ret (Some stack)
  else
    let! maestro := gets maestro_context_ in
    match maestro with
    | None => modify (set_maestro_context_ (Some this)) ;; ret None
    | Some _ => ret None
    end.

(** [BoostContext::~BoostContext()] for the object at [this], whose member
    [stack_] is [stack]. *)
Definition BoostContext_delete (this : context_ptr) (stack : option stack_t)
  : M Registry unit :=
  let! maestro := gets maestro_context_ in
  (if bool_decide (maestro = Some this)
   then modify (set_maestro_context_ None)
   else ret tt) ;;
  SIMIX_context_stack_delete stack.

End BoostContextLifetime.

(** ** Continuations that use their future *)

Module Continuations.
Import Kernel.


End Continuations.

(** ** The collective selector modelled on Open MPI's

    [Coll_barrier_ompi::barrier] and [Coll_allgather_ompi::allgather]: the
    decision functions, which pick the algorithm a collective is run with.
    What is modelled is the decision: the result is the algorithm that the
    call is forwarded to. *)

Module CollSelectorOmpi.

(** [int] is a 32-bit two's complement integer and [size_t] a 64-bit
    unsigned one. *)
Definition wrap_int (z : Z) : Z := (z + 2 ^ 31) mod 2 ^ 32 - 2 ^ 31.
Definition to_size_t (z : Z) : Z := z mod 2 ^ 64.

Inductive barrier_algorithm :=
  | Coll_barrier_ompi_two_procs
  | Coll_barrier_ompi_bruck
  | Coll_barrier_ompi_recursivedoubling.

(** The loop [for( ; communicator_size > 0; communicator_size >>= 1 )] of
    [barrier], with its local [has_one]; [None] when the bound on the
    number of iterations is reached. *)
Fixpoint barrier_loop (fuel : nat) (communicator_size : Z) (has_one : bool)
  : option barrier_algorithm :=
  if communicator_size >? 0 then
    match fuel with
    | O => None
    | S fuel' =>
        if negb (Z.land communicator_size 1 =? 0) then
          if has_one then Some Coll_barrier_ompi_bruck
          else barrier_loop fuel' (Z.shiftr communicator_size 1) true
        else barrier_loop fuel' (Z.shiftr communicator_size 1) has_one
    end
  else Some Coll_barrier_ompi_recursivedoubling.

(** [Coll_barrier_ompi::barrier(comm)], of the size of [comm]. *)
Definition barrier (fuel : nat) (communicator_size : Z)
  : option barrier_algorithm :=
  if 2 =? communicator_size then Some Coll_barrier_ompi_two_procs
  else barrier_loop fuel communicator_size false.

Inductive allgather_algorithm :=
  | Coll_allgather_pair
  | Coll_allgather_rdb
  | Coll_allgather_bruck
  | Coll_allgather_ring
  | Coll_allgather_ompi_neighborexchange.

(** [for (pow2_size = 1; pow2_size < communicator_size; pow2_size <<= 1);]
    started at [pow2_size]. *)
Fixpoint pow2_loop (fuel : nat) (pow2_size communicator_size : Z) : option Z :=
  if pow2_size <? communicator_size then
    match fuel with
    | O => None
    | S fuel' =>
        pow2_loop fuel' (wrap_int (Z.shiftl pow2_size 1)) communicator_size
    end
  else Some pow2_size.

(** [Coll_allgather_ompi::allgather], of the size of [comm], [scount] and
    the size [dsize] of [sdtype]. *)
Definition allgather (fuel : nat) (communicator_size scount dsize : Z)
  : option allgather_algorithm :=
  if communicator_size =? 2 then Some Coll_allgather_pair
  else
    let total_dsize :=
      to_size_t (to_size_t (to_size_t dsize * to_size_t scount)
                 * to_size_t communicator_size) in
    match pow2_loop fuel 1 communicator_size with
    | None => None
    | Some pow2_size =>
        if total_dsize <? 50000 then
          if pow2_size =? communicator_size then Some Coll_allgather_rdb
          else Some Coll_allgather_bruck
        else
          if negb (Z.rem communicator_size 2 =? 0) then Some Coll_allgather_ring
          else Some Coll_allgather_ompi_neighborexchange
    end.

(** The sizes for which the comments of the selector promise recursive
    doubling. *)
Definition power_of_two (n : Z) : Prop := exists k, 0 <= k /\ n = 2 ^ k.

End CollSelectorOmpi.

(** ** The keys of the SMPI point-to-point trace

    [TRACE_smpi_put_key] and [TRACE_smpi_get_key]: the static table [keys],
    from the name of a queue to the queue, and the static counter of
    [TRACE_smpi_put_key]. *)

Module InstrSmpi.

Record Keys := {
  keys : gmap string (list string);
  counter : Z
}.

(** [std::to_string] on an integer. *)
Definition to_string (z : Z) : string := pretty z.

(** [smpi_container(rank)] *)
Definition smpi_container (rank : Z) : string := "rank-" +:+ to_string rank.

(** The character [c] does not occur in [s]. *)
Fixpoint free_of (c : ascii) (s : string) : Prop :=
  match s with
  | EmptyString => True
  | String a s' => a <> c /\ free_of c s'
  end.

Definition ULLONG_MODULUS : Z := 2 ^ 64.

(** The name [aux] of the queue of a side. *)
Definition queue_name (src dst tag send : Z) : string :=
  to_string src +:+ "#" +:+ to_string dst +:+ "#" +:+ to_string tag +:+ "#"
  +:+ to_string send.

Definition TRACE_smpi_put_key (src dst tag send : Z) (st : Keys)
  : string * Keys :=
  let aux := queue_name src dst tag send in
  let d := match keys st !! aux with
           | None => []
           | Some d => d
           end in
  let counter' := (counter st + 1) mod ULLONG_MODULUS in
  let key := to_string src +:+ "_" +:+ to_string dst +:+ "_" +:+ to_string tag
             +:+ "_" +:+ to_string counter' in
  (key, {| keys := <[aux := d ++ [key]]> (keys st); counter := counter' |}).

(** [None] is the call of [front()] on an empty queue, whose behaviour is
    undefined. *)
Definition TRACE_smpi_get_key (src dst tag send : Z) (st : Keys)
  : option (string * Keys) :=
  let aux := queue_name src dst tag (if send =? 1 then 0 else 1) in
  match keys st !! aux with
  | None => Some (TRACE_smpi_put_key src dst tag send st)
  | Some [] => None
  | Some (key :: d) =>
      Some (key, {| keys := <[aux := d]> (keys st); counter := counter st |})
  end.

(** [n] calls of [TRACE_smpi_get_key] in a row for the same side of the
    same message, with the keys they return. *)
Fixpoint get_keys (n : nat) (src dst tag send : Z) (st : Keys)
  : option (list string * Keys) :=
  match n with
  | O => Some ([], st)
  | S n' =>
      match TRACE_smpi_get_key src dst tag send st with
      | None => None
      | Some (key, st1) =>
          match get_keys n' src dst tag send st1 with
          | None => None
          | Some (ks, st2) => Some (key :: ks, st2)
          end
      end
  end.

End InstrSmpi.

(** ** The colours of the SMPI states

    [instr_find_color] and its table [smpi_colors].  The strings are C
    strings. *)

Module InstrSmpiColors.

(** The array [smpi_colors]: names and colours alternate, and two null
    pointers end it. *)
Definition smpi_colors : list (option string) :=
  [ Some "recv";      Some "1 0 0";       Some "irecv";         Some "1 0.52 0.52";
    Some "send";      Some "0 0 1";
    Some "isend";     Some "0.52 0.52 1"; Some "sendrecv";      Some "0 1 1";
    Some "wait";      Some "1 1 0";
    Some "waitall";   Some "0.78 0.78 0"; Some "waitany";       Some "0.78 0.78 0.58";
    Some "test";      Some "0.52 0.52 0";

    Some "allgather"; Some "1 0 0";       Some "allgatherv";    Some "1 0.52 0.52";
    Some "allreduce"; Some "1 0 1";
    Some "alltoall";  Some "0.52 0 1";    Some "alltoallv";     Some "0.78 0.52 1";
    Some "barrier";   Some "0 0.78 0.78";
    Some "bcast";     Some "0 0.78 0.39"; Some "gather";        Some "1 1 0";
    Some "gatherv";   Some "1 1 0.52";
    Some "reduce";    Some "0 1 0";       Some "reducescatter"; Some "0.52 1 0.52";
    Some "scan";      Some "1 0.58 0.23";
    Some "exscan";    Some "1 0.54 0.25"; Some "scatterv";      Some "0.52 0 0.52";
    Some "scatter";   Some "1 0.74 0.54";

    Some "computing"; Some "0 1 1";       Some "sleeping";      Some "0 0.5 0.5";

    Some "init";      Some "0 1 0";       Some "finalize";      Some "0 1 0";

    Some "put";       Some "0.3 1 0";     Some "get";           Some "0 1 0.3";
    Some "accumulate"; Some "1 0.3 0";
    Some "win_fence"; Some "1 0 0.3";     Some "win_post";      Some "1 0 0.8";
    Some "win_wait";  Some "1 0.8 0";
    Some "win_start"; Some "0.8 0 1";     Some "win_complete";  Some "0.8 1 0";
    None;             None ]%string.

(** [boost::algorithm::to_lower], in the C locale: the letters A to Z. *)
Definition to_lower_char (c : ascii) : ascii :=
  let n := nat_of_ascii c in
  if ((65 <=? n) && (n <=? 90))%nat then ascii_of_nat (n + 32) else c.
Fixpoint to_lower (s : string) : string :=
  match s with
  | EmptyString => EmptyString
  | String c s' => String (to_lower_char c) (to_lower s')
  end.

(** [needle] is at the start of [haystack]. *)
Fixpoint starts_with (needle haystack : string) : bool :=
  match needle, haystack with
  | EmptyString, _ => true
  | String a needle', String b haystack' =>
      Ascii.eqb a b && starts_with needle' haystack'
  | String _ _, EmptyString => false
  end.

(** [strstr(haystack, needle) != 0] *)
Fixpoint strstr (haystack needle : string) : bool :=
  starts_with needle haystack ||
  match haystack with
  | EmptyString => false
  | String _ haystack' => strstr haystack' needle
  end.

(** The loop of [instr_find_color] from the entry at [colors] on: the
    colour of the first name that is the target or occurs in it; null when
    the end of the table is reached. *)
Fixpoint find_color_from (target : string) (colors : list (option string))
  : option string :=
  match colors with
  | Some current :: color :: rest =>
      if String.eqb target current || strstr target current then color
      else find_color_from target rest
  | _ => None
  end.

(** [instr_find_color(state)]; [None] is the null pointer. *)
Definition instr_find_color (state : string) : option string :=
  find_color_from (to_lower state) smpi_colors.

(** Every entry of the table that has the colour [color] comes after a name
    that occurs in its own name; [seen] are the names before [colors]. *)
Fixpoint shadowed (color : string) (seen : list string)
  (colors : list (option string)) : bool :=
  match colors with
  | Some current :: c :: rest =>
      (if bool_decide (c = Some color)
       then existsb (fun name => strstr current name) seen
       else true)
      && shadowed color (current :: seen) rest
  | _ => true
  end.

End InstrSmpiColors.

(** ** The Java context factory

    [smx_ctx_java_runall], [smx_ctx_java_resume] and [smx_ctx_java_self] on
    the static [my_current_context].  A context is a pointer, [None] being
    NULL. *)

Module ContextJava.

Definition smx_context_t := option nat.

Record smx_process := { context : smx_context_t }.

Section Java.

(** The Java side: the virtual machine and its threads. *)
Variable E : Type.

(** [scheduled] records the calls of [jprocess_schedule]: the context that
    is scheduled and what [smx_ctx_java_self] answers at that time. *)
Record State := {
  my_current_context : smx_context_t;
  scheduled : list (smx_context_t * smx_context_t);
  jvm : E
}.

(** What the thread of a context does until it is unscheduled: it may change
    the Java side and [my_current_context]. *)
Variable java_thread : smx_context_t -> smx_context_t * E -> smx_context_t * E.

(** Modelled from the spec: [jprocess_schedule], not in the sources: the
    thread of the context runs until it is unscheduled. *)
Definition jprocess_schedule (context : smx_context_t) (s : State) : State :=
  let r := java_thread context (my_current_context s, jvm s) in
  {| my_current_context := fst r;
     scheduled := scheduled s ++ [(context, my_current_context s)];
     jvm := snd r |}.

Definition smx_ctx_java_self (s : State) : smx_context_t :=
  my_current_context s.

Definition smx_ctx_java_resume (new_context : smx_context_t) : State -> State :=
  jprocess_schedule new_context.

Definition set_my_current_context (c : smx_context_t) (s : State) : State :=
  {| my_current_context := c; scheduled := scheduled s; jvm := jvm s |}.

(** [xbt_dynar_foreach(processes, cursor, process) { ... }] *)
Fixpoint smx_ctx_java_runall (processes : list smx_process) (s : State) : State :=
  match processes with
  | [] => s
  | process :: rest =>
      let old_context := my_current_context s in
      let s1 := set_my_current_context (context process) s in
      let s2 := smx_ctx_java_resume (my_current_context s1) s1 in
      let s3 := set_my_current_context old_context s2 in
      smx_ctx_java_runall rest s3
  end.

End Java.

End ContextJava.

(** ** The categories of MSG tasks in the trace *)

Module InstrMsgTask.

(** The fields of a task that the tracing functions use. *)
Record msg_task := {
  task_counter : Z;
  category : option string
}.

Definition ULLONG_MODULUS : Z := 2 ^ 64.
(** [long long] from [unsigned long long]. *)
Definition to_long_long (z : Z) : Z := (z + 2 ^ 63) mod 2 ^ 64 - 2 ^ 63.

(** [TRACE_msg_set_task_category(task, category)] *)
Definition TRACE_msg_set_task_category (category' : option string)
  : M msg_task unit :=
  let! current := gets category in
  match current with
  | Some _ => die xbt_assert_failure
  | None =>
      match category' with
      | None => modify (fun t => {| task_counter := task_counter t; category := None |})
      | Some c =>
          modify (fun t => {| task_counter := task_counter t; category := Some c |})
      end
  end.

(** [TRACE_msg_task_create(task)]; the state is the task and the static
    counter. *)
Definition TRACE_msg_task_create : M (msg_task * Z) unit :=
  modify (fun s =>
    ({| task_counter := to_long_long (snd s); category := None |},
     (snd s + 1) mod ULLONG_MODULUS)).

(** [TRACE_msg_task_destroy(task)] *)
Definition TRACE_msg_task_destroy : M msg_task unit :=
  modify (fun t => {| task_counter := task_counter t; category := None |}).

End InstrMsgTask.

(** ** Sample inputs

    Concrete handlers, states and programs on which the properties below are
    exercised. *)

Module Samples.

Import S4U.

(** -1.0 as a binary64 value *)
Definition minus_one : double := NO_TIMEOUT.
(** 2.0 as a binary64 value *)
Definition two : double := S754_finite false 4503599627370496 (-51).

(** A kernel in which every simcall returns normally and takes no time. *)
Definition quiet_handler (c : Simcall) (s : Simix) : Outcome unit * double :=
  (Ret tt, clock s).

(** A kernel in which every timed wait on a condition variable times out,
    and every other simcall returns normally. *)
Definition timing_out_handler (c : Simcall) (s : Simix) : Outcome unit * double :=
  match c with
  | cond_wait_timeout _ _ t => (Throw (xbt_ex timeout_error), clock s)
  | _ => (Ret tt, clock s)
  end.

Definition start : Simix := {| clock := zero; issued := [] |}.
Definition cv7 : ConditionVariable := {| cond_ := 7%nat |}.
Definition lock3 : unique_lock := {| mutex := {| mutex_ := 3%nat |} |}.

(** Kernel futures of integers; a user continuation [n] takes the value of
    the future it is given and adds [n] to it. *)
Import Kernel.

Definition add_to_result (n : Z) (future : Future) : M (Kernel Z Z) Z :=
  let! r := call future (Future_get (V:=Z) (Cont:=Z)) in
  ret (fst r + n).

Definition resolved (v : Z) : FutureState Z Z :=
  {| status_ := ready; exception_ := None; continuation_ := None;
     value_ := Some v |}.
Definition failed (e : exception) : FutureState Z Z :=
  {| status_ := ready; exception_ := Some e; continuation_ := None;
     value_ := None |}.
Definition pending : FutureState Z Z := fresh_state Z Z.

(** A kernel whose only shared state, at address 0, is [st]. *)
Definition kernel_with (st : FutureState Z Z) : Kernel Z Z :=
  {| heap := {[ 0%nat := st ]}; ready_list := []; process_to_run := [] |}.
Definition empty_kernel : Kernel Z Z :=
  {| heap := ∅; ready_list := []; process_to_run := [] |}.

Definition future0 : Future := {| state_ := Some 0%nat |}.
Definition no_future : Future := {| state_ := None |}.

(** Worlds with an empty kernel, seen from actor 1 and from maestro. *)
Definition actor_world : Simix.World Z Z :=
  {| Simix.kernel := empty_kernel; Simix.results := ∅; Simix.simcalls := [];
     Simix.running := Some 1%nat |}.
Definition maestro_world : Simix.World Z Z :=
  {| Simix.kernel := empty_kernel; Simix.results := ∅; Simix.simcalls := [];
     Simix.running := None |}.

(** Kernel code for [kernelSync]: a new promise, whose future is returned. *)
Definition new_future : M (Kernel Z Z) Future :=
  let! promise := Promise_new (V:=Z) (Cont:=Z) in
  let! fp := call promise (Promise_get_future (V:=Z) (Cont:=Z)) in
  ret (fst fp).
(** What the kernel does while actor 1 is parked: the promise made by
    [new_future] is satisfied with 42 and the ready list is drained. *)
Definition resolve_with_42 : M (Simix.World Z Z) unit :=
  Simix.in_kernel
    (Promise_set_value {| p_state_ := Some 0%nat; future_get_ := true |} 42) ;;
  Simix.drain_ready_list add_to_result 5.
(** Kernel code that returns a future without shared state. *)
Definition stateless_future : M (Kernel Z Z) Future := ret no_future.
Definition failing_code : M (Kernel Z Z) Future := throw (user_exception 7).

(** A round of three actors, with contexts 11, 12 and 13; maestro is 0. *)
Definition three_actors : ContextBoost.Simix :=
  {| ContextBoost.process_to_run :=
       [ {| ContextBoost.pid := 1; ContextBoost.context := 11 |};
         {| ContextBoost.pid := 2; ContextBoost.context := 12 |};
         {| ContextBoost.pid := 3; ContextBoost.context := 13 |} ]%nat;
     ContextBoost.process_index_ := 0;
     ContextBoost.maestro_context_ := 0%nat;
     ContextBoost.current := 0%nat;
     ContextBoost.switches := [];
     ContextBoost.stopped := [] |}.


(** The round of [three_actors] once the first actor runs. *)
Definition first_running : ContextBoost.Simix :=
  snd (ContextBoost.run_all three_actors).

End Samples.

(** Further sample inputs: waits, a registry of contexts and a world whose
    kernel holds a future that is already resolved. *)

Module MoreSamples.

Import S4U Samples.

(** The untimed wait, served by a kernel in which every simcall returns. *)
Definition quiet_cond_wait (c : smx_cond_t) (m : smx_mutex_t) : M Simix unit :=
  simcall quiet_handler (cond_wait_timeout c m NO_TIMEOUT).

(** A wait up to a time point that always times out. *)
Definition timing_out_wait (cv : ConditionVariable) (lock : unique_lock)
  (t : double) : M Simix cv_status :=
  wait_for timing_out_handler cv lock t.

(** A predicate on the state: two simcalls have been issued. *)
Definition two_issued (s : Simix) : bool := (2 <=? length (issued s))%nat.


Definition promise0 : Kernel.Promise :=
  {| Kernel.p_state_ := Some 0%nat; Kernel.future_get_ := true |}.

(** Actor 1 runs, and the only shared state is resolved with 42. *)
Definition resolved_world : Simix.World Z Z :=
  {| Simix.kernel := kernel_with (resolved 42); Simix.results := ∅;
     Simix.simcalls := []; Simix.running := Some 1%nat |}.
Definition pending_world : Simix.World Z Z :=
  {| Simix.kernel := kernel_with pending; Simix.results := ∅;
     Simix.simcalls := []; Simix.running := Some 1%nat |}.

Definition no_context : BoostContextLifetime.Registry :=
  {| BoostContextLifetime.maestro_context_ := None;
     BoostContextLifetime.stacks := ∅ |}.

(** The table of keys before any message is traced. *)
Definition no_keys : InstrSmpi.Keys :=
  {| InstrSmpi.keys := ∅; InstrSmpi.counter := 0 |}.

(** A task as [TRACE_msg_task_create] leaves it, and one with a category. *)
Definition new_task : InstrMsgTask.msg_task :=
  {| InstrMsgTask.task_counter := 0; InstrMsgTask.category := None |}.
Definition compute_task : InstrMsgTask.msg_task :=
  {| InstrMsgTask.task_counter := 0;
     InstrMsgTask.category := Some "compute"%string |}.

End MoreSamples.

(** * Properties *)

(** ** The monad *)

Lemma bind_Ret {S A B} {m : M S A} (k : A -> M S B) {s s1 : S} {a : A} :
  m s = (Ret a, s1) -> bind m k s = k a s1.
Proof. intros H. unfold bind. rewrite H. reflexivity. Qed.

(** ** s4u *)

Section S4U_properties.

Import S4U.

Variable handler : Simcall -> Simix -> Outcome unit * double.

Lemma compare_cont_Eq_swap (p q : positive) :
  Pos.compare_cont Eq q p = CompOpp (Pos.compare_cont Eq p q).
Proof. rewrite Pos.compare_cont_antisym. reflexivity. Qed.

Lemma SFcompare_swap (a b : double) :
  SFcompare b a = option_map CompOpp (SFcompare a b).
Proof.
  destruct a as [sa|sa| |sa ma ea], b as [sb|sb| |sb mb eb]; simpl;
    try reflexivity;
    try (destruct sa; reflexivity);
    try (destruct sb; reflexivity);
    try (destruct sa, sb; reflexivity).
  destruct sa, sb; simpl; try reflexivity;
    rewrite (Z.compare_antisym ea eb);
    destruct (ea ?= eb)%Z; simpl; try reflexivity;
    rewrite (compare_cont_Eq_swap ma mb);
    try rewrite CompOpp_involutive; reflexivity.
Qed.

Lemma dle_not_dlt (a b : double) : dle a b = true -> dlt b a = false.
Proof.
  unfold dle, dlt, SFleb, SFltb. rewrite (SFcompare_swap a b).
  destruct (SFcompare a b) as [[ | | ]|]; simpl; congruence.
Qed.

Lemma simcall_issued (c : Simcall) (s : Simix) :
  issued (snd (simcall handler c s)) = issued s ++ [c].
Proof. unfold simcall. destruct (handler c s); reflexivity. Qed.

Lemma simcall_fst (c : Simcall) (s : Simix) :
  fst (simcall handler c s) = fst (handler c s).
Proof. unfold simcall. destruct (handler c s); reflexivity. Qed.

Lemma sleep_for_positive (d : double) (s : Simix) :
  dlt zero d = true ->
  sleep_for handler d s = simcall handler (process_sleep d) s.
Proof. intros H. unfold sleep_for. rewrite H. reflexivity. Qed.

(** C8, as amended: for every duration [d <= 0], [sleep_for d] returns at
    once and leaves the simulation as it was: no simcall is issued, there is
    no round-trip through the scheduler; likewise [sleep_until t] for every
    time point [t] not after the clock. *)
Theorem sleep_nonpositive_is_skipped (s : Simix) :
  (forall d, dle d zero = true -> sleep_for handler d s = (Ret tt, s)) /\
  (forall t, dle t (clock s) = true -> sleep_until handler t s = (Ret tt, s)).
Proof.
  split.
  - intros d H. unfold sleep_for. rewrite (dle_not_dlt _ _ H). reflexivity.
  - intros t H. unfold sleep_until, bind, SIMIX_get_clock, gets.
    rewrite (dle_not_dlt _ _ H). reflexivity.
Qed.

(** The general form of the clamp: whatever the duration, the timeout handed
    to the simcall is not below zero. *)
Lemma clamp_timeout_not_negative (d : double) :
  dlt (clamp_timeout d) zero = false.
Proof.
  unfold clamp_timeout. destruct (dlt d zero) eqn:E; [reflexivity | exact E].
Qed.

Lemma wait_for_issues_first (cv : ConditionVariable) (lock : unique_lock)
  (d : double) (s : Simix) :
  exists rest,
    issued (snd (wait_for handler cv lock d s)) =
    issued s ++
      cond_wait_timeout (cond_ cv) (mutex_ (mutex lock)) (clamp_timeout d) :: rest.
Proof.
  unfold wait_for, bind, simcall_cond_wait_timeout, try_catch, Mutex_lock,
    simcall_mutex_lock, simcall, ret, die.
  destruct (handler _ s) as [[[]|e|f] now]; simpl.
  - exists []. reflexivity.
  - destruct e as [c|[|c]| | |]; simpl; try (exists []; reflexivity).
    destruct (handler (mutex_lock _) _) as [[[]|e'|f'] now']; simpl;
      rewrite <- app_assoc; eexists; reflexivity.
  - exists []. reflexivity.
Qed.

(** C10: for every negative duration [d], [wait_for] replaces the timeout by
    0 before it issues the timed-wait simcall: the simcall carries the
    timeout 0, which is not negative (so not the -1 that means no timeout),
    and the call behaves as [wait_for] with a zero timeout. *)
Theorem wait_for_negative_is_zero (cv : ConditionVariable) (lock : unique_lock)
  (d : double) (s : Simix) :
  dlt d zero = true ->
  clamp_timeout d = zero /\
  dlt (clamp_timeout d) zero = false /\
  clamp_timeout d <> NO_TIMEOUT /\
  wait_for handler cv lock d s = wait_for handler cv lock zero s /\
  exists rest,
    issued (snd (wait_for handler cv lock d s)) =
    issued s ++ cond_wait_timeout (cond_ cv) (mutex_ (mutex lock)) zero :: rest.
Proof.
  intros H.
  assert (Hc : clamp_timeout d = zero) by (unfold clamp_timeout; rewrite H; reflexivity).
  split; [exact Hc|].
  split; [apply clamp_timeout_not_negative|].
  split; [rewrite Hc; discriminate|].
  split.
  - unfold wait_for. rewrite Hc. reflexivity.
  - destruct (wait_for_issues_first cv lock d s) as [rest Hr].
    exists rest. rewrite Hr, Hc. reflexivity.
Qed.

(** C7: in [wait_for], when the timed simcall raises a timeout error the
    mutex is locked again and then [timeout] is returned; when locking fails
    the program terminates; when the simcall raises anything else the program
    terminates; when the simcall returns, the result is [no_timeout]. *)
Theorem wait_for_outcomes (cv : ConditionVariable) (lock : unique_lock)
  (d : double) (s : Simix) :
  let m := mutex_ (mutex lock) in
  let waiting := cond_wait_timeout (cond_ cv) m (clamp_timeout d) in
  let s1 := snd (simcall handler waiting s) in
  let s2 := snd (simcall handler (mutex_lock m) s1) in
  (fst (handler waiting s) = Ret tt ->
     wait_for handler cv lock d s = (Ret no_timeout, s1)) /\
  (fst (handler waiting s) = Throw (xbt_ex timeout_error) ->
     (fst (handler (mutex_lock m) s1) = Ret tt ->
        wait_for handler cv lock d s = (Ret timeout, s2) /\
        issued s2 = issued s ++ [waiting; mutex_lock m]) /\
     (forall e, fst (handler (mutex_lock m) s1) = Throw e ->
        wait_for handler cv lock d s = (Die terminate, s2))) /\
  (forall e, fst (handler waiting s) = Throw e ->
     e <> xbt_ex timeout_error ->
     wait_for handler cv lock d s = (Die terminate, s1)).
Proof.
  intros m waiting s1 s2. subst s2 s1 waiting m.
  unfold wait_for, bind, simcall_cond_wait_timeout, try_catch, Mutex_lock,
    simcall_mutex_lock, simcall, ret, die.
  destruct (handler _ s) as [[[]|e|f] now]; simpl.
  - repeat split; intros; try discriminate.
  - split; [discriminate|]. split.
    + intros He. injection He as ->.
      destruct (handler (mutex_lock _) _) as [[[]|e'|f'] now']; simpl.
      * split; [intros _|discriminate]. split; [reflexivity|].
        rewrite <- app_assoc. reflexivity.
      * split; [discriminate|]. intros e0 _. reflexivity.
      * split; [discriminate|]. intros e0 H0. discriminate.
    + intros e0 He Hne. injection He as ->.
      destruct e0 as [c|[|c]| | |]; simpl; try reflexivity.
      contradiction Hne. reflexivity.
  - repeat split; intros; discriminate.
Qed.

End S4U_properties.

Lemma sleep_nonpositive_is_skipped_witness :
  S4U.dle Samples.minus_one S4U.zero = true /\
  S4U.sleep_for Samples.quiet_handler Samples.minus_one Samples.start
    = (Ret tt, Samples.start) /\
  S4U.dle S4U.zero (S4U.clock Samples.start) = true /\
  S4U.sleep_until Samples.quiet_handler S4U.zero Samples.start
    = (Ret tt, Samples.start).
Proof.
  destruct (sleep_nonpositive_is_skipped Samples.quiet_handler Samples.start)
    as [Hfor Huntil].
  split; [reflexivity|].
  split; [apply Hfor; reflexivity|].
  split; [reflexivity|].
  apply Huntil; reflexivity.
Defined.

(** C8 as stated fails: [sleep_for 0] and [sleep_until now] issue no simcall
    at all, while a positive duration does. *)
Lemma sleep_for_zero_issues_no_simcall :
  S4U.dle S4U.zero S4U.zero = true /\
  S4U.issued (snd (S4U.sleep_for Samples.quiet_handler S4U.zero Samples.start)) = [] /\
  S4U.dle S4U.zero (S4U.clock Samples.start) = true /\
  S4U.issued (snd (S4U.sleep_until Samples.quiet_handler S4U.zero Samples.start)) = [] /\
  S4U.issued (snd (S4U.sleep_for Samples.quiet_handler Samples.two Samples.start))
    = [S4U.process_sleep Samples.two].
Proof. repeat split. Qed.

Lemma wait_for_negative_is_zero_witness :
  S4U.dlt Samples.minus_one S4U.zero = true /\
  S4U.issued
    (snd (S4U.wait_for Samples.timing_out_handler Samples.cv7 Samples.lock3
            Samples.minus_one Samples.start))
  = [S4U.cond_wait_timeout 7%nat 3%nat S4U.zero; S4U.mutex_lock 3%nat].
Proof.
  split; [reflexivity|].
  destruct (wait_for_negative_is_zero Samples.timing_out_handler Samples.cv7
              Samples.lock3 Samples.minus_one Samples.start eq_refl)
    as (_ & _ & _ & Heq & _).
  rewrite Heq. reflexivity.
Defined.

Lemma wait_for_outcomes_witness :
  S4U.wait_for Samples.timing_out_handler Samples.cv7 Samples.lock3
    Samples.two Samples.start
  = (Ret S4U.timeout,
     {| S4U.clock := S4U.zero;
        S4U.issued := [S4U.cond_wait_timeout 7%nat 3%nat Samples.two; S4U.mutex_lock 3%nat] |}) /\
  S4U.wait_for Samples.quiet_handler Samples.cv7 Samples.lock3
    Samples.two Samples.start
  = (Ret S4U.no_timeout,
     {| S4U.clock := S4U.zero;
        S4U.issued := [S4U.cond_wait_timeout 7%nat 3%nat Samples.two] |}).
Proof.
  split.
  - destruct (wait_for_outcomes Samples.timing_out_handler Samples.cv7
                Samples.lock3 Samples.two Samples.start)
      as (_ & Htimeout & _).
    destruct (Htimeout eq_refl) as [Hlock _].
    destruct (Hlock eq_refl) as [Heq _].
    rewrite Heq. reflexivity.
  - destruct (wait_for_outcomes Samples.quiet_handler Samples.cv7
                Samples.lock3 Samples.two Samples.start)
      as (Hnormal & _).
    rewrite (Hnormal eq_refl). reflexivity.
Defined.

(** ** Kernel futures *)

Section Kernel_properties.

Import Kernel.

Variable V : Type.
Variable Cont : Type.

Abbreviation FutureState := (FutureState V Cont).
Abbreviation Kernel := (Kernel V Cont).

(** A method run at [l] acts on the state found there and stores it back. *)
Lemma at_state_lookup {A} (l : loc) (m : M FutureState A) (k : Kernel)
  (st : FutureState) :
  heap k !! l = Some st ->
  at_state l m k = (fst (m st), set_heap (<[l := snd (m st)]> (heap k)) k).
Proof.
  intros H. unfold at_state. rewrite H. destruct (m st); reflexivity.
Qed.

Lemma FutureState_get_not_ready (st : FutureState) :
  status_ st <> ready ->
  FutureState_get st = (Die (xbt_die deadlock_message), st).
Proof.
  intros H. unfold FutureState_get, bind, gets.
  destruct (status_ st) eqn:E; simpl; try reflexivity. contradiction.
Qed.

Lemma FutureState_get_exception (st : FutureState) (e : exception) :
  status_ st = ready -> exception_ st = Some e ->
  FutureState_get st = (Throw e, set_exception_ None (set_status done st)).
Proof.
  intros Hs He. unfold FutureState_get, bind, gets, modify, throw.
  rewrite Hs. simpl. rewrite He. reflexivity.
Qed.

Lemma FutureState_get_value (st : FutureState) (v : V) :
  status_ st = ready -> exception_ st = None -> value_ st = Some v ->
  FutureState_get st = (Ret v, set_value_ None (set_status done st)).
Proof.
  intros Hs He Hv. unfold FutureState_get, bind, gets, modify, ret.
  rewrite Hs. simpl. rewrite He. simpl. rewrite Hv. reflexivity.
Qed.

Lemma FutureState_get_empty (st : FutureState) :
  status_ st = ready -> exception_ st = None -> value_ st = None ->
  FutureState_get st = (Die xbt_assert_failure, set_status done st).
Proof.
  intros Hs He Hv. unfold FutureState_get, bind, gets, modify, die.
  rewrite Hs. simpl. rewrite He. simpl. rewrite Hv. reflexivity.
Qed.

Lemma Future_get_valid (l : loc) (k : Kernel) (st : FutureState) :
  heap k !! l = Some st ->
  Future_get ({| state_ := Some l |}, k) =
  (fst (FutureState_get st),
   ({| state_ := None |},
    set_heap (<[l := snd (FutureState_get st)]> (heap k)) k)).
Proof.
  intros H. unfold Future_get, bind, on_this, on_kernel, zoom, gets,
    move_state_, modify. simpl.
  rewrite (at_state_lookup _ _ _ H). reflexivity.
Qed.

(** C1: [get] on a kernel future never blocks: it ends at once, in one of
    four ways.  Without shared state it throws [no_state]; with a state that
    is not ready it fails with the deadlock error; with a ready state it
    rethrows the stored exception, or else returns the stored value.  Run by
    the kernel, it issues no simcall and leaves the running context as it
    is. *)
Theorem Future_get_never_blocks (this : Future) (k : Kernel) :
  (state_ this = None ->
     Future_get (this, k) = (Throw (future_error no_state), (this, k))) /\
  (forall l st, state_ this = Some l -> heap k !! l = Some st ->
     (status_ st <> ready ->
        fst (Future_get (V:=V) (this, k)) = Die (xbt_die deadlock_message)) /\
     (forall e, status_ st = ready -> exception_ st = Some e ->
        fst (Future_get (V:=V) (this, k)) = Throw e) /\
     (forall v, status_ st = ready -> exception_ st = None ->
        value_ st = Some v ->
        fst (Future_get (this, k)) = Ret v)) /\
  (forall w : Simix.World V Cont,
     let w' := snd (Simix.in_kernel (call this (Future_get (V:=V) (Cont:=Cont))) w) in
     Simix.simcalls w' = Simix.simcalls w /\
     Simix.running w' = Simix.running w).
Proof.
  split; [|split].
  - intros H. unfold Future_get, bind, on_this, zoom, gets. simpl.
    rewrite H. reflexivity.
  - intros l st Hl Hst. destruct this as [s]. simpl in Hl. subst s.
    rewrite (Future_get_valid _ _ Hst). simpl.
    split; [|split].
    + intros H. rewrite (FutureState_get_not_ready _ H). reflexivity.
    + intros e Hs He. rewrite (FutureState_get_exception _ Hs He). reflexivity.
    + intros v Hs He Hv. rewrite (FutureState_get_value _ Hs He Hv). reflexivity.
  - intros w. unfold Simix.in_kernel, zoom.
    destruct (call this _ (Simix.kernel w)). split; reflexivity.
Qed.

(** C3: on a ready state, [get] leaves the status [done] and no stored
    exception; when it returns the value, the optional value is reset too;
    when it rethrows, the exception is the one that was stored, now moved
    out.  A second [get] on the state fails with the deadlock error: the
    result is not obtained twice. *)
Theorem FutureState_get_consumes (st : FutureState) :
  status_ st = ready ->
  let o := fst (FutureState_get st) in
  let st' := snd (FutureState_get st) in
  status_ st' = done /\
  exception_ st' = None /\
  (forall v, o = Ret v ->
     value_ st = Some v /\ value_ st' = None /\ exception_ st' = None) /\
  (forall e, o = Throw e ->
     exception_ st = Some e /\ exception_ st' = None /\ value_ st' = value_ st) /\
  FutureState_get st' = (Die (xbt_die deadlock_message), st').
Proof.
  intros Hs.
  destruct (exception_ st) as [e|] eqn:He.
  - rewrite (FutureState_get_exception _ Hs He). simpl.
    repeat split; try discriminate; try congruence.
  - destruct (value_ st) as [v|] eqn:Hv.
    + rewrite (FutureState_get_value _ Hs He Hv). simpl.
      repeat split; try discriminate; try congruence.
    + rewrite (FutureState_get_empty _ Hs He Hv). simpl.
      rewrite He. repeat split; try discriminate.
Qed.

(** *** Attaching continuations *)

Lemma set_heap_same (k : Kernel) : set_heap (heap k) k = k.
Proof. destruct k; reflexivity. Qed.

Lemma at_state_gets {A} (l : loc) (f : FutureState -> A) (k : Kernel)
  (st : FutureState) :
  heap k !! l = Some st -> at_state l (gets f) k = (Ret (f st), k).
Proof.
  intros H. rewrite (at_state_lookup _ _ _ H). unfold gets. simpl.
  rewrite (insert_id _ _ _ H). rewrite set_heap_same. reflexivity.
Qed.

Lemma at_state_modify (l : loc) (f : FutureState -> FutureState) (k : Kernel)
  (st : FutureState) :
  heap k !! l = Some st ->
  at_state l (modify f) k = (Ret tt, set_heap (<[l := f st]> (heap k)) k).
Proof. intros H. rewrite (at_state_lookup _ _ _ H). reflexivity. Qed.

Lemma set_continuation_not_ready (l : loc) (job : Task Cont) (k : Kernel)
  (st : FutureState) :
  heap k !! l = Some st -> continuation_ st = None -> status_ st = not_ready ->
  set_continuation l job k =
  (Ret tt, set_heap (<[l := set_continuation_ (Some job) st]> (heap k)) k).
Proof.
  intros H Hc Hs. unfold set_continuation, bind.
  rewrite (at_state_gets _ _ _ H), Hc.
  rewrite (at_state_gets _ _ _ H), Hs.
  apply (at_state_modify _ _ _ H).
Qed.

Lemma set_continuation_ready (l : loc) (job : Task Cont) (k : Kernel)
  (st : FutureState) :
  heap k !! l = Some st -> continuation_ st = None -> status_ st = ready ->
  set_continuation l job k = (Ret tt, set_ready_list (ready_list k ++ [job]) k).
Proof.
  intros H Hc Hs. unfold set_continuation, bind.
  rewrite (at_state_gets _ _ _ H), Hc.
  rewrite (at_state_gets _ _ _ H), Hs. reflexivity.
Qed.

Lemma set_ready_spec (l : loc) (k : Kernel) (st : FutureState) :
  heap k !! l = Some st ->
  set_ready l k =
  (Ret tt,
   set_ready_list (ready_list k ++ pending_job st)
     (set_heap (<[l := satisfied Cont (value_ st) (exception_ st)]> (heap k)) k)).
Proof.
  intros H. unfold set_ready, bind.
  rewrite (at_state_modify _ _ _ H).
  assert (H1 : heap (set_heap (<[l:=set_status ready st]> (heap k)) k) !! l
               = Some (set_status ready st))
    by (simpl; apply lookup_insert_eq).
  rewrite (at_state_gets _ _ _ H1). simpl. unfold pending_job.
  destruct (continuation_ st) as [job|] eqn:Hc.
  - rewrite (at_state_modify _ _ _ H1). unfold schedule, modify. simpl.
    rewrite insert_insert_eq. destruct k; reflexivity.
  - unfold ret. rewrite app_nil_r. unfold satisfied, set_status.
    rewrite Hc. destruct k; reflexivity.
Qed.

Lemma FutureState_set_value_not_ready (l : loc) (v : V) (k : Kernel)
  (st : FutureState) :
  heap k !! l = Some st -> status_ st = not_ready ->
  FutureState_set_value l v k =
  (Ret tt,
   set_ready_list (ready_list k ++ pending_job st)
     (set_heap (<[l := satisfied Cont (Some v) (exception_ st)]> (heap k)) k)).
Proof.
  intros H Hs. unfold FutureState_set_value, bind.
  rewrite (at_state_gets _ _ _ H), Hs.
  rewrite (at_state_modify _ _ _ H).
  assert (H1 : heap (set_heap (<[l:=set_value_ (Some v) st]> (heap k)) k) !! l
               = Some (set_value_ (Some v) st))
    by (simpl; apply lookup_insert_eq).
  rewrite (set_ready_spec _ _ H1). simpl.
  rewrite insert_insert_eq. reflexivity.
Qed.

Lemma FutureState_set_exception_not_ready (l : loc) (e : exception) (k : Kernel)
  (st : FutureState) :
  heap k !! l = Some st -> status_ st = not_ready ->
  FutureState_set_exception (V:=V) l e k =
  (Ret tt,
   set_ready_list (ready_list k ++ pending_job st)
     (set_heap (<[l := satisfied Cont (value_ st) (Some e)]> (heap k)) k)).
Proof.
  intros H Hs. unfold FutureState_set_exception, bind.
  rewrite (at_state_gets _ _ _ H), Hs.
  rewrite (at_state_modify _ _ _ H).
  assert (H1 : heap (set_heap (<[l:=set_exception_ (Some e) st]> (heap k)) k) !! l
               = Some (set_exception_ (Some e) st))
    by (simpl; apply lookup_insert_eq).
  rewrite (set_ready_spec _ _ H1). simpl.
  rewrite insert_insert_eq. reflexivity.
Qed.

Section Then.

Variable run_user : Cont -> Future -> M Kernel V.

Lemma thenNoUnwrap_invalid (c : Cont) (k : Kernel) :
  thenNoUnwrap (V:=V) c ({| state_ := None |}, k) =
  (Throw (future_error no_state), ({| state_ := None |}, k)).
Proof. reflexivity. Qed.

Lemma then__invalid (c : Continuation Cont) (k : Kernel) :
  then_ (V:=V) c ({| state_ := None |}, k) =
  (Throw (future_error no_state), ({| state_ := None |}, k)).
Proof. reflexivity. Qed.


Lemma then__valid (c : Continuation Cont) (l : loc) (k : Kernel) :
  then_ c ({| state_ := Some l |}, k) =
  (fst (set_continuation l (bound_task c l) k),
   ({| state_ := None |}, snd (set_continuation l (bound_task c l) k))).
Proof.
  unfold then_, bind, on_this, on_kernel, zoom, gets, modify, move_state_.
  cbn -[set_continuation].
  destruct (set_continuation _ _ _) as [o k']; reflexivity.
Qed.







End Then.

End Kernel_properties.

(** ** The generic simcalls *)

Section Simix_properties.

Import Kernel Simix.

Variable V : Type.
Variable Cont : Type.
Variable run_user : Cont -> Future -> M (Kernel V Cont) V.

Abbreviation Kernel := (Kernel V Cont).
Abbreviation World := (World V Cont).

(** Kernel code run in the world touches the kernel only. *)
Lemma in_kernel_frame {A} (m : M Kernel A) (w : World) :
  in_kernel m w = (fst (m (kernel w)), set_kernel (snd (m (kernel w))) w).
Proof. unfold in_kernel, zoom. destruct (m (kernel w)); reflexivity. Qed.

(** *** [kernelImmediate] *)

(** The world in which the kernel runs the closure of a [kernelImmediate]
    issued by [self], and the world the actor is back in (or, with [None],
    the world in which the program died) when [code] left the kernel [k']. *)
Lemma kernelImmediate_actor (code : M Kernel V) (w : World) (self : actor) :
  running w = Some self ->
  let back (c : option actor) : World :=
    {| kernel := snd (code (kernel w));
       results := <[self := invalid]> (results w);
       simcalls := simcalls w ++ [(self, run_kernel)]; running := c |} in
  kernelImmediate code w =
  match fst (code (kernel w)) with
  | Ret v => (Ret v, back (Some self))
  | Throw e => (Throw e, back (Some self))
  | Die f => (Die f, back None)
  end.
Proof.
  intros Hrun back. subst back.
  destruct w as [k rs sc run]. simpl in Hrun. subst run.
  unfold kernelImmediate, bind, SIMIX_is_maestro, gets, Result_new,
    simcall_run_kernel, bind, SIMIX_process_self, log_simcall,
    yield_to_maestro, resume, modify, ret, fulfillPromise, try_catch, bind,
    in_kernel, zoom.
  simpl. destruct (code k) as [[v|e|f] k']; simpl.
  - unfold Result_set_value, Result_get, modify, bind, gets, ret. simpl.
    rewrite lookup_insert_eq. simpl. unfold set_results. simpl.
    rewrite !insert_insert_eq. reflexivity.
  - unfold Result_set_exception, Result_get, modify, bind, gets, throw. simpl.
    rewrite lookup_insert_eq. simpl. unfold set_results. simpl.
    rewrite !insert_insert_eq. reflexivity.
  - reflexivity.
Qed.

Lemma kernelImmediate_marshals (code : M Kernel V) (w : World) (self : actor) :
  let trapped :=
    set_running None
      (set_simcalls (simcalls w ++ [(self, run_kernel)])
         (set_results (<[self := invalid]> (results w)) w)) in
  let inside := set_kernel (snd (code (kernel w))) trapped in
  fulfillPromise (H:=Result_PromiseLike V Cont) self (in_kernel code) trapped =
  match fst (code (kernel w)) with
  | Ret v => (Ret tt, set_results (<[self := value v]> (results inside)) inside)
  | Throw e =>
      (Ret tt, set_results (<[self := exception_ptr e]> (results inside)) inside)
  | Die f => (Die f, inside)
  end.
Proof.
  intros trapped inside. subst inside trapped.
  unfold fulfillPromise, try_catch, bind, in_kernel, zoom. simpl.
  destruct (code (kernel w)) as [[v|e|f] k']; reflexivity.
Qed.

(** C6: in maestro context [kernelImmediate code] is [code] run in place: no
    simcall is issued and the context does not change.  In the context of an
    actor it issues exactly one immediate simcall, through which the kernel
    runs [code]: the actor declares its result holder and traps into the
    kernel; there, with maestro running, the closure of the simcall runs
    [code] and puts its value or its exception into the holder; the actor is
    resumed and takes it out of the holder.  In both cases the call ends as
    [code] ends: it returns its value or rethrows its exception. *)
Theorem kernelImmediate_runs_code (code : M Kernel V) (w : World) :
  let r := code (kernel w) in
  let w' := snd (kernelImmediate code w) in
  (running w = None ->
     kernelImmediate code w = in_kernel code w /\
     simcalls w' = simcalls w /\ running w' = None /\ results w' = results w) /\
  (forall self, running w = Some self ->
     simcalls w' = simcalls w ++ [(self, run_kernel)]) /\
  fst (kernelImmediate code w) = fst r /\
  kernel w' = snd r /\
  (forall self, running w = Some self ->
     let trapped :=
       set_running None
         (set_simcalls (simcalls w ++ [(self, run_kernel)])
            (set_results (<[self := invalid]> (results w)) w)) in
     let marshalled :=
       fulfillPromise (H:=Result_PromiseLike V Cont) self (in_kernel code)
         trapped in
     let back (c : option actor) : World :=
       {| kernel := snd r; results := <[self := invalid]> (results w);
          simcalls := simcalls w ++ [(self, run_kernel)]; running := c |} in
     SIMIX_is_maestro trapped = (Ret true, trapped) /\
     kernel (snd marshalled) = snd r /\
     running (snd marshalled) = None /\
     (forall v, fst r = Ret v ->
        fst marshalled = Ret tt /\
        results (snd marshalled) !! self = Some (value v) /\
        kernelImmediate code w = (resume self ;; Result_get self) (snd marshalled) /\
        kernelImmediate code w = (Ret v, back (Some self))) /\
     (forall e, fst r = Throw e ->
        fst marshalled = Ret tt /\
        results (snd marshalled) !! self = Some (exception_ptr e) /\
        kernelImmediate code w = (resume self ;; Result_get self) (snd marshalled) /\
        kernelImmediate code w = (Throw e, back (Some self))) /\
     (forall f, fst r = Die f ->
        marshalled = (Die f, back None) /\
        kernelImmediate code w = (Die f, back None))).
Proof.
  intros r w'. subst r w'.
  split; [|split; [|split; [|split]]].
  - intros Hm. destruct w as [k rs sc run]. simpl in Hm. subst run.
    unfold kernelImmediate, bind, SIMIX_is_maestro, gets. simpl.
    rewrite in_kernel_frame. simpl. repeat split.
  - intros self Hrun. rewrite (kernelImmediate_actor code w Hrun).
    destruct (fst (code (kernel w))); reflexivity.
  - destruct (running w) as [self|] eqn:Hrun.
    + rewrite (kernelImmediate_actor code w Hrun).
      destruct (fst (code (kernel w))); reflexivity.
    + unfold kernelImmediate, bind, SIMIX_is_maestro, gets. simpl.
      rewrite Hrun, in_kernel_frame. reflexivity.
  - destruct (running w) as [self|] eqn:Hrun.
    + rewrite (kernelImmediate_actor code w Hrun).
      destruct (fst (code (kernel w))); reflexivity.
    + unfold kernelImmediate, bind, SIMIX_is_maestro, gets. simpl.
      rewrite Hrun, in_kernel_frame. reflexivity.
  - intros self Hrun trapped marshalled back.
    pose proof (kernelImmediate_marshals code w self) as Hin.
    cbv zeta in Hin. fold trapped in Hin. fold marshalled in Hin.
    pose proof (kernelImmediate_actor code w Hrun) as Hout.
    cbv zeta in Hout. fold back in Hout.
    split; [reflexivity|].
    split; [rewrite Hin; destruct (fst (code (kernel w))); reflexivity|].
    split; [rewrite Hin; destruct (fst (code (kernel w))); reflexivity|].
    split; [|split].
    + intros v Hv. rewrite Hv in Hin, Hout.
      split; [rewrite Hin; reflexivity|].
      split; [rewrite Hin; simpl; apply lookup_insert_eq|].
      split; [|exact Hout].
      rewrite Hout, Hin.
      unfold bind, resume, modify, Result_get, gets, ret, throw, trapped, back,
        set_results, set_running, set_simcalls, set_kernel.
      unfold bind, modify.
      cbn [fst snd results running kernel simcalls].
      rewrite lookup_insert_eq.
      cbn [fst snd results running kernel simcalls].
      rewrite !insert_insert_eq. reflexivity.
    + intros e He. rewrite He in Hin, Hout.
      split; [rewrite Hin; reflexivity|].
      split; [rewrite Hin; simpl; apply lookup_insert_eq|].
      split; [|exact Hout].
      rewrite Hout, Hin.
      unfold bind, resume, modify, Result_get, gets, ret, throw, trapped, back,
        set_results, set_running, set_simcalls, set_kernel.
      unfold bind, modify.
      cbn [fst snd results running kernel simcalls].
      rewrite lookup_insert_eq.
      cbn [fst snd results running kernel simcalls].
      rewrite !insert_insert_eq. reflexivity.
    + intros f Hf. rewrite Hf in Hin, Hout.
      split; [rewrite Hin; reflexivity | exact Hout].
Qed.

(** *** [kernelSync] *)

Lemma keeps_bind {A B} (m : M World A) (k : A -> M World B) :
  keeps_simcalls m -> (forall a, keeps_simcalls (k a)) ->
  keeps_simcalls (bind m k).
Proof.
  intros Hm Hk w. unfold bind. specialize (Hm w).
  destruct (m w) as [[a|e|f] w1]; simpl in *; try exact Hm.
  rewrite (Hk a w1). exact Hm.
Qed.

Lemma keeps_try_catch {A} (m : M World A) (h : exception -> M World A) :
  keeps_simcalls m -> (forall e, keeps_simcalls (h e)) ->
  keeps_simcalls (try_catch m h).
Proof.
  intros Hm Hh w. unfold try_catch. specialize (Hm w).
  destruct (m w) as [[a|e|f] w1]; simpl in *; try exact Hm.
  rewrite (Hh e w1). exact Hm.
Qed.

Lemma keeps_in_kernel {A} (m : M Kernel A) : keeps_simcalls (in_kernel m).
Proof. intros w. rewrite in_kernel_frame. reflexivity. Qed.

Lemma keeps_ret {A} (a : A) : keeps_simcalls (ret (S:=World) a).
Proof. intros w. reflexivity. Qed.

Lemma keeps_Result_set_exception (result : result_ref) (e : exception) :
  keeps_simcalls (Result_set_exception (V:=V) (Cont:=Cont) result e).
Proof. intros w. reflexivity. Qed.

Lemma keeps_Result_get (result : result_ref) :
  keeps_simcalls (Result_get (V:=V) (Cont:=Cont) result).
Proof.
  intros w. unfold Result_get, bind, gets. simpl.
  destruct (results w !! result) as [[|v|e]|]; reflexivity.
Qed.

Lemma keeps_run_unblocked (self : actor) :
  keeps_simcalls (run_unblocked (V:=V) (Cont:=Cont) self).
Proof. intros w. reflexivity. Qed.

Lemma keeps_kernelSync_closure (result : result_ref) (self : actor)
  (code : M Kernel Future) :
  keeps_simcalls (kernelSync_closure result self code).
Proof.
  unfold kernelSync_closure. apply keeps_try_catch.
  - apply keeps_bind; [apply keeps_in_kernel|]. intros future.
    apply keeps_bind; [apply keeps_in_kernel|]. intros _. apply keeps_ret.
  - intros e. apply keeps_bind; [apply keeps_Result_set_exception|].
    intros _. apply keeps_in_kernel.
Qed.

(** From the parked world on, [kernelSync] issues nothing more. *)
Lemma kernelSync_after_parking (code : M Kernel Future) (sched : M World unit)
  (self : actor) :
  keeps_simcalls sched ->
  keeps_simcalls
    ((kernelSync_closure self self code ;;
      let! now := is_unblocked self in
      if now then run_unblocked self
      else
        sched ;;
        let! later := is_unblocked self in
        if later then run_unblocked self
        else die (xbt_die "Deadlock: every actor is blocked")) ;;
     Result_get self).
Proof.
  intros Hsched.
  apply keeps_bind; [|intros _; apply keeps_Result_get].
  apply keeps_bind; [apply keeps_kernelSync_closure|]. intros _.
  apply keeps_bind; [intros w; reflexivity|]. intros [|].
  - apply keeps_run_unblocked.
  - apply keeps_bind; [exact Hsched|]. intros _.
    apply keeps_bind; [intros w; reflexivity|]. intros [|].
    + apply keeps_run_unblocked.
    + intros w. reflexivity.
Qed.

Lemma kernelSync_unfold (code : M Kernel Future) (sched : M World unit)
  (w : World) (self : actor) :
  running w = Some self ->
  kernelSync code sched w =
  ((kernelSync_closure self self code ;;
    let! now := is_unblocked self in
    if now then run_unblocked self
    else
      sched ;;
      let! later := is_unblocked self in
      if later then run_unblocked self
      else die (xbt_die "Deadlock: every actor is blocked") ) ;;
   Result_get self) (parked self w).
Proof.
  intros Hrun. destruct w as [k rs sc run]. simpl in Hrun. subst run.
  unfold kernelSync, simcall_run_blocking, bind, SIMIX_is_maestro, gets,
    SIMIX_process_self, Result_new, log_simcall, yield_to_maestro, modify,
    ret, parked.
  simpl.
  reflexivity.
Qed.

Lemma kernelSync_closure_fails (result : result_ref) (self : actor)
  (code : M Kernel Future) (w : World) (e : exception) :
  fails_at_once (fst (code (kernel w))) e ->
  let k' := snd (code (kernel w)) in
  kernelSync_closure result self code w =
  (Ret tt,
   set_kernel (set_process_to_run (process_to_run k' ++ [self]) k')
     (set_results (<[result := exception_ptr e]> (results w)) w)).
Proof.
  intros H k'. subst k'.
  unfold kernelSync_closure, try_catch, bind, in_kernel, zoom,
    Result_set_exception, unblock, modify.
  destruct (code (kernel w)) as [o k']. simpl in *.
  destruct H as [-> | [-> ->]]; reflexivity.
Qed.

Lemma kernelSync_closure_attaches (result : result_ref) (self : actor)
  (code : M Kernel Future) (w : World) (l : loc) (st : FutureState V Cont) :
  let k' := snd (code (kernel w)) in
  fst (code (kernel w)) = Ret {| state_ := Some l |} ->
  heap k' !! l = Some st -> continuation_ st = None ->
  let job := bound_task (wake_actor Cont result self) l in
  (status_ st = not_ready ->
     kernelSync_closure result self code w =
     (Ret tt,
      set_kernel
        (set_heap (<[l := set_continuation_ (Some job) st]> (heap k')) k') w)) /\
  (status_ st = ready ->
     kernelSync_closure result self code w =
     (Ret tt, set_kernel (set_ready_list (ready_list k' ++ [job]) k') w)).
Proof.
  intros k' Hr Hst Hc job. subst k'.
  unfold kernelSync_closure, try_catch, bind, in_kernel, zoom, call.
  destruct (code (kernel w)) as [o k']. simpl in *. subst o.
  rewrite then__valid.
  split; intros Hs.
  - rewrite (set_continuation_not_ready _ _ _ Hst Hc Hs). reflexivity.
  - rewrite (set_continuation_ready _ _ _ Hst Hc Hs). reflexivity.
Qed.

Lemma wake_transports (result : result_ref) (self : actor) (l : loc)
  (w : World) (st : FutureState V Cont) :
  heap (kernel w) !! l = Some st -> status_ st = ready ->
  let w' := snd (run_task run_user (bound_task (wake_actor Cont result self) l) w) in
  (forall e, exception_ st = Some e ->
     results w' !! result = Some (exception_ptr e) /\
     process_to_run (kernel w') = process_to_run (kernel w) ++ [self]) /\
  (forall v, exception_ st = None -> value_ st = Some v ->
     results w' !! result = Some (value v) /\
     process_to_run (kernel w') = process_to_run (kernel w) ++ [self]).
Proof.
  intros Hst Hs w'. subst w'.
  unfold run_task, wake, setPromise, fulfillPromise, try_catch, bind,
    in_kernel, zoom, call.
  rewrite (Future_get_valid _ _ Hst).
  split.
  - intros e He. rewrite (FutureState_get_exception _ Hs He). simpl.
    split; [apply lookup_insert_eq | reflexivity].
  - intros v He Hv. rewrite (FutureState_get_value _ Hs He Hv). simpl.
    split; [apply lookup_insert_eq | reflexivity].
Qed.

Lemma kernelSync_fails_at_once (code : M Kernel Future) (sched : M World unit)
  (w : World) (self : actor) (e : exception) :
  running w = Some self ->
  fails_at_once (fst (code (kernel w))) e ->
  fst (kernelSync code sched w) = Throw e.
Proof.
  intros Hrun H. rewrite (kernelSync_unfold code sched w Hrun).
  unfold bind at 1. unfold bind at 1.
  rewrite (kernelSync_closure_fails self self code (parked self w) H).
  unfold bind, is_unblocked, gets. simpl.
  rewrite bool_decide_eq_true_2 by set_solver.
  unfold run_unblocked, bind, in_kernel, zoom, modify, resume, Result_get, gets.
  simpl. unfold bind. simpl. rewrite lookup_insert_eq. reflexivity.
Qed.

End Simix_properties.

(** ** The Boost contexts *)

Section ContextBoost_properties.

Import ContextBoost.

Lemma ulong_small (z : Z) : 0 <= z < ULONG_MODULUS -> ulong z = z.
Proof. intros H. unfold ulong. apply Z.mod_small. exact H. Qed.

(** One [suspend] while the index is inside the list: the index advances by
    one and control goes to the context of the actor at the index. *)
Lemma suspend_next (this : context_ptr) (s : Simix) (i : nat) (p : smx_actor) :
  process_index_ s = Z.of_nat i ->
  process_to_run s !! i = Some p ->
  Z.of_nat (length (process_to_run s)) < ULONG_MODULUS ->
  suspend this s =
  (Ret tt,
   set_switches (switches s ++ [(this, context p)])
     (set_current (context p) (set_process_index_ (Z.of_nat (S i)) s))).
Proof.
  intros Hi Hp Hlen.
  pose proof (lookup_lt_Some _ _ _ Hp) as Hlt.
  unfold suspend, bind, gets, modify, SIMIX_context_set_current, swap. simpl.
  rewrite Hi.
  replace (Z.of_nat i <? Z.of_nat (length (process_to_run s))) with true
    by (symmetry; apply Z.ltb_lt; lia).
  rewrite Nat2Z.id, Hp. simpl.
  rewrite ulong_small by lia.
  replace (Z.of_nat i + 1) with (Z.of_nat (S i)) by lia.
  reflexivity.
Qed.

(** One [suspend] once the index has passed the end of the list: control
    goes back to maestro. *)
Lemma suspend_last (this : context_ptr) (s : Simix) :
  Z.of_nat (length (process_to_run s)) <= process_index_ s ->
  suspend this s =
  (Ret tt,
   set_switches (switches s ++ [(this, maestro_context_ s)])
     (set_current (maestro_context_ s)
        (set_process_index_ (ulong (process_index_ s + 1)) s))).
Proof.
  intros H. unfold suspend, bind, gets, modify, SIMIX_context_set_current, swap.
  simpl.
  replace (process_index_ s <? Z.of_nat (length (process_to_run s))) with false
    by (symmetry; apply Z.ltb_ge; lia).
  reflexivity.
Qed.

Lemma yields_add (a b : nat) (s : Simix) :
  yields (a + b) s = (yields a ;; yields b) s.
Proof.
  revert s. induction a as [|a IH]; intros s; simpl.
  - reflexivity.
  - unfold bind. destruct (yield s) as [[[]|e|f] s1]; try reflexivity.
    rewrite IH. reflexivity.
Qed.

(** [k] actors in a row yield, from index [i] on: each gives control to the
    next one of the list, in the order of the list. *)
Lemma yields_in_order (k : nat) : forall (s : Simix) (i : nat),
  process_index_ s = Z.of_nat i ->
  (i + k <= length (process_to_run s))%nat ->
  Z.of_nat (length (process_to_run s)) < ULONG_MODULUS ->
  exists s',
    yields k s = (Ret tt, s') /\
    process_to_run s' = process_to_run s /\
    maestro_context_ s' = maestro_context_ s /\
    process_index_ s' = Z.of_nat (i + k) /\
    resumed s' =
      resumed s ++ map context (take k (drop i (process_to_run s))) /\
    (forall p, process_to_run s !! (i + k - 1)%nat = Some p -> (0 < k)%nat ->
       current s' = context p).
Proof.
  induction k as [|k IH]; intros s i Hi Hk Hlen.
  - exists s. simpl. rewrite Nat.add_0_r, app_nil_r.
    repeat split; try reflexivity; try assumption. intros p _ H. lia.
  - destruct (process_to_run s !! i) as [p|] eqn:Hp.
    2:{ apply lookup_ge_None in Hp. lia. }
    pose proof (suspend_next (current s) s i Hi Hp Hlen) as Hstep.
    set (s1 := set_switches (switches s ++ [(current s, context p)])
                 (set_current (context p) (set_process_index_ (Z.of_nat (S i)) s)))
      in Hstep.
    destruct (IH s1 (S i)) as (s' & Hrun & Hl & Hm & Hidx & Hres & Hcur);
      [reflexivity | simpl; lia | exact Hlen |].
    exists s'. simpl. unfold bind, yield at 1, bind, gets. simpl.
    rewrite Hstep, Hrun.
    split; [reflexivity|]. split; [exact Hl|]. split; [exact Hm|].
    split; [rewrite Hidx; f_equal; lia|]. split.
    + rewrite Hres. unfold resumed at 1. simpl.
      rewrite map_app. simpl. fold (resumed s). rewrite <- app_assoc. simpl.
      rewrite (drop_S _ _ _ Hp). simpl. reflexivity.
    + intros q Hq _. destruct k as [|k].
      * simpl in Hrun. injection Hrun as <-. simpl.
        replace (i + 1 - 1)%nat with i in Hq by lia. congruence.
      * apply Hcur; [|lia].
        change (process_to_run s1) with (process_to_run s).
        replace (S i + S k - 1)%nat with (i + S (S k) - 1)%nat by lia.
        exact Hq.
Qed.

Lemma run_all_first (s : Simix) (first : smx_actor) (rest : list smx_actor) :
  process_to_run s = first :: rest ->
  run_all s =
  (Ret tt,
   set_switches (switches s ++ [(maestro_context_ s, context first)])
     (set_current (context first) (set_process_index_ 1 s))).
Proof.
  intros H. unfold run_all, bind, gets. rewrite H. reflexivity.
Qed.

(** C4: a round of the serial variant.  [run_all] resumes the first actor of
    the to-run list; every [suspend] advances the shared index by one and
    gives control to the context of the actor at that index, so that the
    actors are resumed one after the other in the order of the list; the
    [suspend] of the last actor finds the index past the end of the list
    and gives control back to the maestro context. *)
Theorem serial_round_is_fifo (s : Simix) :
  let l := process_to_run s in
  l <> [] ->
  Z.of_nat (length l) < ULONG_MODULUS ->
  (forall k p, l !! k = Some p ->
     let s' := snd ((run_all ;; yields k) s) in
     fst ((run_all ;; yields k) s) = Ret tt /\
     process_index_ s' = Z.of_nat (S k) /\
     current s' = context p /\
     resumed s' = resumed s ++ map context (take (S k) l)) /\
  (let s' := snd ((run_all ;; yields (length l)) s) in
   fst ((run_all ;; yields (length l)) s) = Ret tt /\
   current s' = maestro_context_ s /\
   resumed s' = resumed s ++ map context l ++ [maestro_context_ s]).
Proof.
  intros l Hne Hlen. subst l.
  destruct (process_to_run s) as [|first rest] eqn:Hl; [contradiction|].
  pose proof (run_all_first s Hl) as Hrun.
  set (s1 := set_switches (switches s ++ [(maestro_context_ s, context first)])
               (set_current (context first) (set_process_index_ 1 s))) in Hrun.
  assert (Hl1 : process_to_run s1 = first :: rest) by exact Hl.
  assert (Hres1 : resumed s1 = resumed s ++ [context first]).
  { unfold resumed. simpl. rewrite map_app. reflexivity. }
  split.
  - intros k p Hp. pose proof (lookup_lt_Some _ _ _ Hp) as Hlt.
    destruct (yields_in_order k s1 1) as (s' & Hy & _ & _ & Hidx & Hres & Hcur).
    { reflexivity. }
    { rewrite Hl1. lia. }
    { rewrite Hl1. exact Hlen. }
    rewrite (bind_Ret _ Hrun), Hy. simpl.
    split; [reflexivity|]. split; [exact Hidx|]. split.
    + destruct k as [|k].
      * simpl in Hy. injection Hy as <-. simpl in Hp. injection Hp as <-.
        reflexivity.
      * apply Hcur; [|lia]. rewrite Hl1.
        replace (1 + S k - 1)%nat with (S k) by lia. exact Hp.
    + rewrite Hres, Hres1, Hl1. simpl. rewrite drop_0, <- app_assoc.
      reflexivity.
  - destruct (yields_in_order (length rest) s1 1)
      as (s' & Hy & Hl' & Hm & Hidx & Hres & _).
    { reflexivity. }
    { rewrite Hl1. simpl. lia. }
    { rewrite Hl1. exact Hlen. }
    replace (length (first :: rest)) with (length rest + 1)%nat by (simpl; lia).
    rewrite (bind_Ret _ Hrun), yields_add, (bind_Ret _ Hy).
    simpl yields. unfold bind, yield, gets. cbn -[suspend].
    rewrite suspend_last.
    2:{ rewrite Hl', Hl1, Hidx. simpl. lia. }
    simpl. split; [reflexivity|]. split; [exact Hm|].
    unfold resumed at 1. simpl. rewrite map_app. fold (resumed s').
    rewrite Hres, Hres1, Hl1, Hm. simpl.
    rewrite drop_0, firstn_all, <- !app_assoc. reflexivity.
Qed.

(** C9: the stop path of a Boost context throws [StopRequest] once the base
    stop path has run.  The entry function of a context catches
    [StopRequest], and nothing else: when the user code ends with it (or
    returns), the context goes on to [suspend]; any other exception leaves
    the entry function without a [suspend], and ends the program. *)
Theorem wrapper_swallows_StopRequest (ctx : context_ptr) (code : M Simix unit)
  (s : Simix) :
  let s1 := snd (code s) in
  stop ctx s = (Throw StopRequest, set_stopped (stopped s ++ [ctx]) s) /\
  (fst (code s) = Throw StopRequest ->
     wrapper ctx code s = suspend ctx s1 /\
     context_entry ctx code s = suspend ctx s1) /\
  (fst (code s) = Ret tt ->
     wrapper ctx code s = suspend ctx (set_stopped (stopped s1 ++ [ctx]) s1)) /\
  (forall e, fst (code s) = Throw e -> e <> StopRequest ->
     wrapper ctx code s = (Throw e, s1) /\
     context_entry ctx code s = (Die terminate, s1)).
Proof.
  intros s1. subst s1.
  split; [reflexivity|].
  unfold context_entry, wrapper, try_catch, try_catch_only, bind, Context_stop,
    modify, ret, die.
  destruct (code s) as [[[]|e|f] s1]; simpl.
  - split; [discriminate|]. split; [reflexivity|]. intros e H. discriminate.
  - split; [|split; [discriminate|]].
    + intros [= ->]. simpl. split; [reflexivity|].
      unfold suspend, bind, gets, modify, SIMIX_context_set_current, swap, die.
      simpl. destruct (_ <? _); [destruct (_ !! _)|]; reflexivity.
    + intros e0 [= ->] Hne. destruct e0; try (split; reflexivity).
      contradiction Hne. reflexivity.
  - split; [discriminate|]. split; [discriminate|]. intros e H. discriminate.
Qed.

End ContextBoost_properties.

(** ** Worked instances *)

Section Instances.

Import Kernel Simix Samples.

Lemma Future_get_never_blocks_witness :
  fst (Future_get (no_future, empty_kernel)) = Throw (future_error no_state) /\
  fst (Future_get (future0, kernel_with pending))
    = Die (xbt_die deadlock_message) /\
  fst (Future_get (future0, kernel_with (failed (user_exception 7))))
    = Throw (user_exception 7) /\
  fst (Future_get (future0, kernel_with (resolved 42))) = Ret 42.
Proof.
  split.
  { destruct (Future_get_never_blocks no_future empty_kernel) as [H _].
    rewrite (H eq_refl). reflexivity. }
  split.
  { destruct (Future_get_never_blocks future0 (kernel_with pending))
      as (_ & H & _).
    destruct (H 0%nat pending eq_refl eq_refl) as (Hd & _).
    apply Hd. discriminate. }
  split.
  { destruct (Future_get_never_blocks future0
                (kernel_with (failed (user_exception 7)))) as (_ & H & _).
    destruct (H 0%nat (failed (user_exception 7)) eq_refl eq_refl)
      as (_ & He & _).
    apply He; reflexivity. }
  destruct (Future_get_never_blocks future0 (kernel_with (resolved 42)))
    as (_ & H & _).
  destruct (H 0%nat (resolved 42) eq_refl eq_refl) as (_ & _ & Hv).
  apply Hv; reflexivity.
Defined.

Lemma FutureState_get_consumes_witness :
  status_ (resolved 42) = ready /\
  fst (FutureState_get (resolved 42)) = Ret 42 /\
  status_ (snd (FutureState_get (resolved 42))) = done /\
  value_ (snd (FutureState_get (resolved 42))) = None /\
  exception_ (snd (FutureState_get (resolved 42))) = None /\
  fst (FutureState_get (snd (FutureState_get (resolved 42))))
    = Die (xbt_die deadlock_message).
Proof.
  destruct (FutureState_get_consumes (resolved 42) eq_refl)
    as (Hdone & Hexc & Hval & _ & Hagain).
  destruct (Hval 42 eq_refl) as (_ & Hv & _).
  split; [reflexivity|]. split; [reflexivity|]. split; [exact Hdone|].
  split; [exact Hv|]. split; [exact Hexc|].
  rewrite Hagain. reflexivity.
Defined.


Lemma kernelImmediate_runs_code_witness :
  kernelImmediate (ret 42) maestro_world = (Ret 42, maestro_world) /\
  fst (kernelImmediate (ret 42) actor_world) = Ret 42 /\
  simcalls (snd (kernelImmediate (ret 42) actor_world))
    = [(1%nat, run_kernel)] /\
  fst (kernelImmediate (throw (user_exception 7)) actor_world)
    = Throw (user_exception 7) /\
  kernelImmediate (ret 42) actor_world =
    (Ret 42,
     {| kernel := empty_kernel; results := {[ 1%nat := invalid ]};
        simcalls := [(1%nat, run_kernel)]; running := Some 1%nat |}) /\
  kernelImmediate (die terminate) actor_world =
    (Die terminate,
     {| kernel := empty_kernel; results := {[ 1%nat := invalid ]};
        simcalls := [(1%nat, run_kernel)]; running := None |}).
Proof.
  destruct (kernelImmediate_runs_code (ret 42) maestro_world) as (Hm & _).
  destruct (Hm eq_refl) as (Hinline & _).
  destruct (kernelImmediate_runs_code (ret 42) actor_world)
    as (_ & Hactor & Hvalue & _ & Hmarshal).
  destruct (kernelImmediate_runs_code (throw (user_exception 7)) actor_world)
    as (_ & _ & Hthrow & _).
  destruct (Hmarshal 1%nat eq_refl) as (_ & _ & _ & Hret & _).
  destruct (Hret 42 eq_refl) as (_ & _ & _ & Hback).
  destruct (kernelImmediate_runs_code (die terminate) actor_world)
    as (_ & _ & _ & _ & Hdies).
  destruct (Hdies 1%nat eq_refl) as (_ & _ & _ & _ & _ & Hdie).
  destruct (Hdie terminate eq_refl) as (_ & Hdead).
  split; [rewrite Hinline; reflexivity|].
  split; [rewrite Hvalue; reflexivity|].
  split; [rewrite (Hactor 1%nat eq_refl); reflexivity|].
  split; [rewrite Hthrow; reflexivity|].
  split; [exact Hback | exact Hdead].
Defined.

(** C5 as stated fails: here [code] does not throw, it returns a future
    without shared state; no continuation is attached to anything, the
    closure itself unblocks the actor, and the actor gets [no_state]. *)
Lemma kernelSync_stateless_future_attaches_nothing :
  fst (stateless_future (kernel actor_world)) = Ret no_future /\
  heap (kernel (snd (kernelSync_closure 1%nat 1%nat stateless_future
                       (parked 1%nat actor_world)))) = ∅ /\
  ready_list (kernel (snd (kernelSync_closure 1%nat 1%nat stateless_future
                             (parked 1%nat actor_world)))) = [] /\
  process_to_run (kernel (snd (kernelSync_closure 1%nat 1%nat stateless_future
                                 (parked 1%nat actor_world)))) = [1%nat] /\
  fst (kernelSync stateless_future resolve_with_42 actor_world)
    = Throw (future_error no_state).
Proof. repeat split. Qed.

(** The scenario of the spec: the actor blocks once and gets the value with
    which the kernel resolves the future. *)
Example kernelSync_round_trip :
  fst (kernelSync new_future resolve_with_42 actor_world) = Ret 42 /\
  simcalls (snd (kernelSync new_future resolve_with_42 actor_world))
    = [(1%nat, run_blocking)].
Proof. split; vm_compute; reflexivity. Qed.

End Instances.

Section Context_instances.

Import ContextBoost Samples.

Lemma serial_round_is_fifo_witness :
  resumed (snd ((run_all ;; yields 1) three_actors)) = [11; 12]%nat /\
  current (snd ((run_all ;; yields 1) three_actors)) = 12%nat /\
  resumed (snd ((run_all ;; yields 3) three_actors)) = [11; 12; 13; 0]%nat /\
  current (snd ((run_all ;; yields 3) three_actors)) = 0%nat.
Proof.
  assert (Hne : process_to_run three_actors <> []) by discriminate.
  destruct (serial_round_is_fifo three_actors Hne eq_refl) as [Hstep Hend].
  destruct (Hstep 1%nat {| pid := 2%nat; context := 12%nat |} eq_refl)
    as (_ & _ & Hcur & Hres).
  destruct Hend as (_ & Hback & Hall).
  split; [exact Hres|].
  split; [exact Hcur|].
  split; [exact Hall|].
  exact Hback.
Defined.

Lemma wrapper_swallows_StopRequest_witness :
  fst (wrapper 11%nat (stop 11%nat) first_running) = Ret tt /\
  resumed (snd (wrapper 11%nat (stop 11%nat) first_running)) = [11; 12]%nat /\
  wrapper 11%nat (throw (user_exception 3)) first_running
    = (Throw (user_exception 3), first_running) /\
  context_entry 11%nat (throw (user_exception 3)) first_running
    = (Die terminate, first_running).
Proof.
  destruct (wrapper_swallows_StopRequest 11%nat (stop 11%nat) first_running)
    as (_ & Hstop & _).
  destruct (Hstop eq_refl) as [Hswallow _].
  destruct (wrapper_swallows_StopRequest 11%nat (throw (user_exception 3))
              first_running) as (_ & _ & _ & Hother).
  assert (Hne : user_exception 3 <> StopRequest) by discriminate.
  destruct (Hother (user_exception 3) eq_refl Hne) as [Hescape Hdie].
  split; [rewrite Hswallow; reflexivity|].
  split; [rewrite Hswallow; reflexivity|].
  split; [exact Hescape | exact Hdie].
Defined.

End Context_instances.

(** * Further properties *)

(** ** The Boost contexts, continued *)

Section ContextBoost_more.

Import ContextBoost.

(** X12: user code that ends by calling [stop] on its own context is run by
    the entry function exactly as the same code without that call: in both
    cases the base stop path runs once and the context suspends. *)
Theorem stop_at_the_end_is_a_return (ctx : context_ptr) (code : M Simix unit)
  (s : Simix) :
  wrapper ctx (code ;; stop ctx) s = wrapper ctx code s /\
  context_entry ctx (code ;; stop ctx) s = context_entry ctx code s.
Proof.
  unfold context_entry, wrapper, try_catch, try_catch_only, bind, stop,
    Context_stop, modify, throw, ret.
  destruct (code s) as [[[]|e|f] s1]; simpl; split; reflexivity.
Qed.

Lemma last_cons_default (R : list context_ptr) : forall y x : context_ptr,
  List.last (y :: R) x = List.last R y.
Proof.
  induction R as [|z R IH]; intros y x.
  - reflexivity.
  - change (List.last (y :: z :: R) x) with (List.last (z :: R) x).
    rewrite (IH z x), (IH z y). reflexivity.
Qed.

Lemma combine_shifted (R : list context_ptr) : forall x m : context_ptr,
  combine (x :: R) (R ++ [m]) = combine (x :: R) R ++ [(List.last R x, m)].
Proof.
  induction R as [|y R IH]; intros x m.
  - reflexivity.
  - change (combine (x :: y :: R) ((y :: R) ++ [m]))
      with ((x, y) :: combine (y :: R) (R ++ [m])).
    rewrite IH.
    change (combine (x :: y :: R) (y :: R)) with ((x, y) :: combine (y :: R) R).
    rewrite (last_cons_default R y x). reflexivity.
Qed.

(** [k] actors in a row yield: every switch leaves the context that the
    switch before it entered. *)
Lemma yields_hand_over (k : nat) : forall (s : Simix) (i : nat),
  process_index_ s = Z.of_nat i ->
  (i + k <= length (process_to_run s))%nat ->
  Z.of_nat (length (process_to_run s)) < ULONG_MODULUS ->
  let cs := map context (take k (drop i (process_to_run s))) in
  exists s',
    yields k s = (Ret tt, s') /\
    process_to_run s' = process_to_run s /\
    maestro_context_ s' = maestro_context_ s /\
    process_index_ s' = Z.of_nat (i + k) /\
    stopped s' = stopped s /\
    current s' = List.last cs (current s) /\
    switches s' = switches s ++ combine (current s :: cs) cs.
Proof.
  induction k as [|k IH]; intros s i Hi Hk Hlen cs; subst cs.
  - exists s. simpl. rewrite Nat.add_0_r, app_nil_r.
    repeat split; try reflexivity; assumption.
  - destruct (process_to_run s !! i) as [p|] eqn:Hp.
    2:{ apply lookup_ge_None in Hp. lia. }
    pose proof (suspend_next (current s) s i Hi Hp Hlen) as Hstep.
    set (s1 := set_switches (switches s ++ [(current s, context p)])
                 (set_current (context p) (set_process_index_ (Z.of_nat (S i)) s)))
      in Hstep.
    destruct (IH s1 (S i)) as (s' & Hrun & Hl & Hm & Hidx & Hst & Hcur & Hsw);
      [reflexivity | simpl; lia | exact Hlen |].
    change (process_to_run s1) with (process_to_run s) in Hcur, Hsw.
    change (current s1) with (context p) in Hcur, Hsw.
    exists s'. simpl yields. unfold bind, yield, gets. cbn -[suspend take drop].
    rewrite Hstep, Hrun. rewrite (drop_S _ _ _ Hp). simpl.
    split; [reflexivity|]. split; [exact Hl|]. split; [exact Hm|].
    split; [rewrite Hidx; f_equal; lia|]. split; [exact Hst|].
    split.
    + rewrite Hcur. symmetry.
      apply (last_cons_default (map context (take k (drop (S i) (process_to_run s))))).
    + rewrite Hsw. simpl. rewrite <- app_assoc. reflexivity.
Qed.

(** X13: in a round of the serial variant control goes from maestro to the
    first actor, from each actor straight to the next one, and from the
    last actor back to maestro: there are as many switches as actors, plus
    one, and none of them comes back to maestro between two actors.  With
    nothing to run, [run_all] does nothing at all. *)
Theorem serial_round_hands_over (s : Simix) :
  let l := process_to_run s in
  let cs := map context l in
  let m := maestro_context_ s in
  (l = [] -> run_all s = (Ret tt, s)) /\
  (l <> [] -> Z.of_nat (length l) < ULONG_MODULUS ->
   switches (snd ((run_all ;; yields (length l)) s)) =
   switches s ++ combine (m :: cs) (cs ++ [m])).
Proof.
  intros l cs m. subst l cs m. split.
  - intros H. unfold run_all, bind, gets. rewrite H. reflexivity.
  - intros Hne Hlen.
    destruct (process_to_run s) as [|first rest] eqn:Hl; [contradiction|].
    pose proof (run_all_first s Hl) as Hrun.
    set (s1 := set_switches (switches s ++ [(maestro_context_ s, context first)])
                 (set_current (context first) (set_process_index_ 1 s))) in Hrun.
    assert (Hl1 : process_to_run s1 = first :: rest) by exact Hl.
    destruct (yields_hand_over (length rest) s1 1)
      as (s' & Hy & Hl' & Hm & Hidx & _ & Hcur & Hsw).
    { reflexivity. }
    { rewrite Hl1. simpl. lia. }
    { rewrite Hl1. exact Hlen. }
    rewrite Hl1 in Hcur, Hsw. simpl drop in Hcur, Hsw.
    rewrite drop_0, firstn_all in Hcur, Hsw.
    change (current s1) with (context first) in Hcur, Hsw.
    assert (Hchain :
      combine (maestro_context_ s :: map context (first :: rest))
        (map context (first :: rest) ++ [maestro_context_ s]) =
      [(maestro_context_ s, context first)] ++
      combine (context first :: map context rest) (map context rest) ++
      [(List.last (map context rest) (context first), maestro_context_ s)]).
    { change (combine (maestro_context_ s :: map context (first :: rest))
                (map context (first :: rest) ++ [maestro_context_ s]))
        with ((maestro_context_ s, context first)
              :: combine (context first :: map context rest)
                   (map context rest ++ [maestro_context_ s])).
      rewrite combine_shifted. reflexivity. }
    rewrite Hchain.
    replace (length (first :: rest)) with (length rest + 1)%nat by (simpl; lia).
    rewrite (bind_Ret _ Hrun), yields_add, (bind_Ret _ Hy).
    simpl yields. unfold bind, yield, gets. cbn -[suspend combine].
    rewrite suspend_last.
    2:{ rewrite Hl', Hl1, Hidx. simpl. lia. }
    cbn -[combine].
    rewrite Hsw, Hm, Hcur.
    change (switches s1)
      with (switches s ++ [(maestro_context_ s, context first)]).
    change (maestro_context_ s1) with (maestro_context_ s).
    rewrite <- !app_assoc. reflexivity.
Qed.

End ContextBoost_more.

Section BoostContextLifetime_properties.

Import ContextBoost BoostContextLifetime.

(** X14: the registration of the maestro context.  A context created with
    code gets a stack that was not in use and never becomes maestro.  A
    context created without code becomes [maestro_context_] only when there
    is none yet: the first one stays.  Destroying the registered context
    clears [maestro_context_], destroying another one leaves it; and
    destroying a context right after creating it gives back the registry
    and the stacks as they were. *)
Theorem maestro_is_registered_once (r : Registry) (this : context_ptr) :
  (exists st,
     BoostContext_new this true r =
       (Ret (Some st), set_stacks ({[ st ]} ∪ stacks r) r) /\
     st ∉ stacks r) /\
  (maestro_context_ r = None ->
     BoostContext_new this false r = (Ret None, set_maestro_context_ (Some this) r)) /\
  (forall first, maestro_context_ r = Some first ->
     BoostContext_new this false r = (Ret None, r)) /\
  (forall stack,
     maestro_context_ (snd (BoostContext_delete this stack r)) =
     if bool_decide (maestro_context_ r = Some this) then None
     else maestro_context_ r) /\
  (maestro_context_ r <> Some this ->
   forall has_code,
     (let! stack_ := BoostContext_new this has_code in
      BoostContext_delete this stack_) r = (Ret tt, r)).
Proof.
  split; [|split; [|split; [|split]]].
  - exists (fresh (stacks r)). split; [reflexivity|]. apply is_fresh.
  - intros H. unfold BoostContext_new, bind, gets, modify, ret. simpl.
    rewrite H. reflexivity.
  - intros first H. unfold BoostContext_new, bind, gets, ret. simpl.
    rewrite H. reflexivity.
  - intros stack. unfold BoostContext_delete, bind, gets, modify, ret. simpl.
    destruct (bool_decide _); destruct stack; reflexivity.
  - intros Hne [|].
    + unfold BoostContext_new, BoostContext_delete, SIMIX_context_stack_new,
        SIMIX_context_stack_delete, bind, gets, modify, ret. simpl.
      rewrite bool_decide_eq_false_2 by exact Hne. simpl.
      destruct r as [m X]. unfold set_stacks. simpl. do 2 f_equal.
      pose proof (is_fresh X). set_solver.
    + destruct r as [[m|] X]; simpl in Hne;
        unfold BoostContext_new, BoostContext_delete, SIMIX_context_stack_delete,
          bind, gets, modify, ret; simpl.
      * rewrite bool_decide_eq_false_2 by exact Hne. reflexivity.
      * rewrite bool_decide_eq_true_2 by reflexivity. reflexivity.
Qed.

End BoostContextLifetime_properties.

(** ** s4u, continued *)

Section S4U_more.

Import S4U S4U_wait.

Variable handler : Simcall -> Simix -> Outcome unit * double.

(** X1: the timed wait never lets an exception out: whatever the kernel
    answers, [wait_for] either returns one of the two statuses or ends the
    program; no exception of a simcall reaches the caller. *)
Theorem wait_for_never_throws (cv : ConditionVariable) (lock : unique_lock)
  (d : double) (s : Simix) :
  let r := fst (wait_for handler cv lock d s) in
  r = Ret no_timeout \/ r = Ret timeout \/ exists f, r = Die f.
Proof.
  unfold wait_for, bind, simcall_cond_wait_timeout, try_catch, Mutex_lock,
    simcall_mutex_lock, simcall, ret, die.
  destruct (handler _ s) as [[[]|e0|f] now]; simpl; eauto.
  destruct e0 as [c|[|c]| | |]; simpl; eauto.
  destruct (handler (mutex_lock _) _) as [[[]|e'|f'] now']; simpl; eauto.
Qed.

(** X2: what the result of the timed wait tells its caller.  [no_timeout]
    is returned only when the timed simcall returned, and then it is the
    only simcall issued; [timeout] is returned only when the timed simcall
    raised a timeout error and the mutex was then locked again without
    error, these two being the simcalls issued. *)
Theorem wait_for_result_tells (cv : ConditionVariable) (lock : unique_lock)
  (d : double) (s : Simix) :
  let m := mutex_ (mutex lock) in
  let waiting := cond_wait_timeout (cond_ cv) m (clamp_timeout d) in
  let s1 := snd (simcall handler waiting s) in
  let r := wait_for handler cv lock d s in
  (fst r = Ret no_timeout ->
     fst (handler waiting s) = Ret tt /\
     issued (snd r) = issued s ++ [waiting]) /\
  (fst r = Ret timeout ->
     fst (handler waiting s) = Throw (xbt_ex timeout_error) /\
     fst (handler (mutex_lock m) s1) = Ret tt /\
     issued (snd r) = issued s ++ [waiting; mutex_lock m]).
Proof.
  intros m waiting s1 r. subst r s1 waiting m.
  unfold wait_for, bind, simcall_cond_wait_timeout, try_catch, Mutex_lock,
    simcall_mutex_lock, simcall, ret, die.
  destruct (handler _ s) as [[[]|e0|f] now]; simpl.
  - split; [intros _; split; reflexivity | discriminate].
  - destruct e0 as [c|[|c]| | |]; simpl; try (split; discriminate).
    destruct (handler (mutex_lock _) _) as [[[]|e'|f'] now']; simpl;
      try (split; discriminate).
    split; [discriminate|]. intros _.
    split; [reflexivity|]. split; [reflexivity|].
    rewrite <- app_assoc. reflexivity.
  - split; discriminate.
Qed.

Variable simcall_cond_wait : smx_cond_t -> smx_mutex_t -> M Simix unit.
Variable wait_until :
  ConditionVariable -> unique_lock -> double -> M Simix cv_status.

(** The predicate of a wait, when it only reads the state. *)
Variable p : Simix -> bool.

(** X3: waiting for a predicate.  When the predicate already holds, [wait]
    returns at once and issues nothing.  Whenever [wait] returns, the
    predicate holds in the state it returns in.  The bound on the number of
    iterations does not change a result that was reached. *)
Theorem wait_pred_returns_when_true (cv : ConditionVariable)
  (lock : unique_lock) (s : Simix) :
  (p s = true ->
     forall n, wait_pred simcall_cond_wait (S n) cv lock (gets p) s
               = Some (Ret tt, s)) /\
  (forall fuel s',
     wait_pred simcall_cond_wait fuel cv lock (gets p) s = Some (Ret tt, s') ->
     p s' = true) /\
  (forall fuel more r,
     wait_pred simcall_cond_wait fuel cv lock (gets p) s = Some r ->
     wait_pred simcall_cond_wait (fuel + more) cv lock (gets p) s = Some r).
Proof.
  split; [|split].
  - intros H n. simpl. unfold gets. rewrite H. reflexivity.
  - intros fuel. revert s. induction fuel as [|n IH]; intros s s' H.
    + discriminate.
    + simpl in H. unfold gets in H. destruct (p s) eqn:Hp.
      * injection H as <-. exact Hp.
      * destruct (wait simcall_cond_wait cv lock s) as [[[]|e|f] s2];
          try discriminate.
        apply (IH s2 s' H).
  - intros fuel more. revert s. induction fuel as [|n IH]; intros s r H.
    + discriminate.
    + simpl in *. unfold gets in *. destruct (p s); [exact H|].
      destruct (wait simcall_cond_wait cv lock s) as [[[]|e|f] s2];
        try exact H.
      apply (IH s2 r H).
Qed.

(** X4: waiting for a predicate until a time point.  When the predicate
    already holds the call returns [true] at once.  When the first wait
    times out, the call returns the value the predicate has then.  And
    whenever the call returns, what it returns is the value of the
    predicate in the state it returns in; the same holds of the variant
    that takes a duration, [wait_for] with a predicate. *)
Theorem wait_until_pred_returns_the_predicate (cv : ConditionVariable)
  (lock : unique_lock) (t : double) (s : Simix) :
  (p s = true ->
     forall n, wait_until_pred wait_until (S n) cv lock t (gets p) s
               = Some (Ret true, s)) /\
  (p s = false ->
     fst (wait_until cv lock t s) = Ret timeout ->
     forall n,
       let s1 := snd (wait_until cv lock t s) in
       wait_until_pred wait_until (S n) cv lock t (gets p) s
       = Some (Ret (p s1), s1)) /\
  (forall fuel b s',
     wait_until_pred wait_until fuel cv lock t (gets p) s = Some (Ret b, s') ->
     b = p s') /\
  (forall fuel d b s',
     wait_for_pred wait_until fuel cv lock d (gets p) s = Some (Ret b, s') ->
     b = p s').
Proof.
  assert (Hloop : forall fuel t0 s0 b s',
    wait_until_pred wait_until fuel cv lock t0 (gets p) s0 = Some (Ret b, s') ->
    b = p s').
  2:{ split; [|split; [|split]].
      - intros H n. simpl. unfold gets. rewrite H. reflexivity.
      - intros H Ht n s1. subst s1. simpl. unfold gets. rewrite H.
        destruct (wait_until cv lock t s) as [o s1]. simpl in *. subst o.
        reflexivity.
      - intros fuel b s'. apply Hloop.
      - intros fuel d b s'. unfold wait_for_pred. apply Hloop. }
  intros fuel t0. clear s. induction fuel as [|n IH]; intros s b s' H.
  + discriminate.
  + simpl in H. unfold gets in H. destruct (p s) eqn:Hp.
    * injection H as <- <-. symmetry. exact Hp.
    * destruct (wait_until cv lock t0 s) as [[[|]|e|f] s2]; try discriminate.
      -- apply (IH s2 b s' H).
      -- injection H as <- <-. reflexivity.
Qed.

End S4U_more.

(** ** Kernel futures, continued *)

Section Kernel_more.

Import Kernel Continuations.

Variable V : Type.
Variable Cont : Type.

Abbreviation FutureState := (FutureState V Cont).
Abbreviation Kernel := (Kernel V Cont).

(** X5: a future handle is good for one [get]: however the first [get]
    ends, the handle has no state afterwards, and a second [get] on it
    throws [no_state] and changes nothing. *)
Theorem Future_get_is_single_use (this : Future) (k : Kernel) :
  let after := snd (Future_get (V:=V) (Cont:=Cont) (this, k)) in
  valid (fst after) = false /\
  Future_get (V:=V) after = (Throw (future_error no_state), after).
Proof.
  intros after. subst after.
  assert (H : fst (snd (Future_get (V:=V) (Cont:=Cont) (this, k)))
              = {| state_ := None |}).
  { destruct this as [[l|]]; [|reflexivity].
    unfold Future_get, bind, on_this, on_kernel, zoom, gets, modify, move_state_.
    simpl. destruct (at_state l _ k) as [[v|e|f] k']; reflexivity. }
  destruct (snd (Future_get (this, k))) as [this' k']. simpl in H. subst this'.
  split; reflexivity.
Qed.

(** X7: [fulfillPromise] on a promise that is already satisfied: the code
    is run all the same, and then, whether it returned or threw, the call
    throws [promise_already_satisfied] and the shared state keeps what it
    had. *)
Theorem fulfillPromise_on_satisfied (p : Promise) (l : loc)
  (code : M Kernel V) (k : Kernel) (st : FutureState) :
  p_state_ p = Some l ->
  heap (snd (code k)) !! l = Some st ->
  status_ st <> not_ready ->
  (forall f, fst (code k) <> Die f) ->
  fulfillPromise (H:=Promise_PromiseLike V Cont) p code k =
  (Throw (future_error promise_already_satisfied), snd (code k)).
Proof.
  intros Hp Hst Hs Hlive.
  unfold fulfillPromise, try_catch, bind. simpl.
  unfold Promise_set_value, Promise_set_exception. rewrite Hp.
  unfold FutureState_set_value, FutureState_set_exception, bind.
  destruct (code k) as [[v|e|f] k1]; simpl in *.
  - rewrite (at_state_gets _ _ _ Hst).
    destruct (status_ st) eqn:E; [contradiction| |];
      simpl; rewrite (at_state_gets _ _ _ Hst), E; reflexivity.
  - rewrite (at_state_gets _ _ _ Hst).
    destruct (status_ st) eqn:E; [contradiction| |]; reflexivity.
  - exfalso. apply (Hlive f). reflexivity.
Qed.



End Kernel_more.

(** ** The generic simcalls, continued *)

Section Simix_more.

Import Kernel Simix ActorFuture.

Variable V : Type.
Variable Cont : Type.
Variable run_user : Cont -> Future -> M (Kernel V Cont) V.

Abbreviation FutureState := (FutureState V Cont).
Abbreviation Kernel := (Kernel V Cont).
Abbreviation World := (World V Cont).

(** X8: [kernelImmediate] called by an actor gives control back to that
    actor whenever the code returns or throws: the exception of the code,
    caught in the kernel, is rethrown with the actor running again; the
    result holder of the actor is left empty and the to-run list is the one
    the code left. *)
Theorem kernelImmediate_returns_to_the_actor (code : M Kernel V) (w : World)
  (self : actor) :
  running w = Some self ->
  (forall f, fst (code (kernel w)) <> Die f) ->
  let w' := snd (kernelImmediate code w) in
  running w' = Some self /\
  results w' !! self = Some invalid /\
  process_to_run (kernel w') = process_to_run (snd (code (kernel w))).
Proof.
  intros Hrun Hlive w'. subst w'.
  destruct w as [k rs sc run]. simpl in Hrun. subst run. simpl in Hlive.
  unfold kernelImmediate, bind, SIMIX_is_maestro, gets, Result_new,
    simcall_run_kernel, bind, SIMIX_process_self, log_simcall,
    yield_to_maestro, resume, modify, ret, fulfillPromise, try_catch, bind,
    in_kernel, zoom.
  simpl. destruct (code k) as [[v|e|f] k']; simpl.
  - unfold Result_set_value, Result_get, modify, bind, gets, ret. simpl.
    rewrite lookup_insert_eq. simpl.
    split; [reflexivity|]. split; [apply lookup_insert_eq | reflexivity].
  - unfold Result_set_exception, Result_get, modify, bind, gets, throw. simpl.
    rewrite lookup_insert_eq. simpl.
    split; [reflexivity|]. split; [apply lookup_insert_eq | reflexivity].
  - exfalso. apply (Hlive f). reflexivity.
Qed.

(** *** The actor-side future *)

Lemma on_world_run {A} (m : M World A) (this : SimixFuture) (w : World) :
  on_world m (this, w) = (fst (m w), (this, snd (m w))).
Proof. unfold on_world, zoom. simpl. destruct (m w); reflexivity. Qed.

(** The two pieces make up the blocking simcall. *)
Lemma blocking_split (code sched : M World unit) (w : World) :
  simcall_run_blocking code sched w =
  (let! self := blocking_trap (V:=V) (Cont:=Cont) in
   code ;; blocking_wait self sched) w.
Proof.
  unfold simcall_run_blocking, blocking_trap, blocking_wait, bind,
    SIMIX_process_self, log_simcall, yield_to_maestro, modify, ret.
  destruct (running w); reflexivity.
Qed.

(** What [get] gives to the kernel, and what follows it. *)
Lemma get_unfold (sched : M World unit) (this : SimixFuture) (w : World)
  (self : actor) :
  running w = Some self -> valid this = true ->
  get sched (this, w) =
  (try_catch
     (on_future_ (then_ (wake_actor Cont self self)))
     (fun e =>
        on_world (Result_set_exception self e ;; in_kernel (unblock self))) ;;
   on_world (blocking_wait self sched) ;;
   on_world (Result_get self)) (this, parked self w).
Proof.
  intros Hrun Hv. destruct w as [k rs sc run]. simpl in Hrun. subst run.
  unfold get, bind at 1, gets. simpl. rewrite Hv. simpl.
  unfold bind at 1. rewrite on_world_run. simpl.
  unfold bind at 1. rewrite on_world_run. simpl.
  unfold bind at 1. rewrite on_world_run. simpl.
  reflexivity.
Qed.

Lemma keeps_blocking_wait (self : actor) (sched : M World unit) :
  keeps_simcalls sched -> keeps_simcalls (blocking_wait self sched).
Proof.
  intros Hsched. unfold blocking_wait.
  apply keeps_bind; [intros w; reflexivity|]. intros [|].
  - apply keeps_run_unblocked.
  - apply keeps_bind; [exact Hsched|]. intros _.
    apply keeps_bind; [intros w; reflexivity|]. intros [|].
    + apply keeps_run_unblocked.
    + intros w. reflexivity.
Qed.

Lemma keeps_get_rest (self : actor) (sched : M World unit) :
  keeps_simcalls sched ->
  keeps_simcalls (blocking_wait self sched ;; Result_get self).
Proof.
  intros Hsched.
  apply keeps_bind; [apply keeps_blocking_wait; exact Hsched|].
  intros _. apply keeps_Result_get.
Qed.

(** After the closure, [get] only waits and reads the result holder. *)
Lemma get_rest (sched : M World unit) (self : actor) (this : SimixFuture)
  (w : World) :
  (on_world (blocking_wait self sched) ;; on_world (Result_get self)) (this, w) =
  (fst ((blocking_wait self sched ;; Result_get self) w),
   (this, snd ((blocking_wait self sched ;; Result_get self) w))).
Proof.
  unfold bind. rewrite on_world_run.
  destruct (blocking_wait self sched w) as [[[]|e|f] w1]; simpl;
    try reflexivity.
  apply on_world_run.
Qed.

(** X9: the actor-side future is good for one [get].  On a future without
    state, [get] throws [no_state] and nothing happens: no simcall is
    issued.  On a valid future, an actor that calls [get] issues one
    blocking simcall and is left with a future without state, on which a
    second [get] throws [no_state]. *)
Theorem ActorFuture_get_is_single_use (sched : M World unit)
  (this : SimixFuture) (w : World) :
  (valid this = false ->
     get sched (this, w) = (Throw (future_error no_state), (this, w))) /\
  (forall self, running w = Some self ->
     let after := snd (get sched (this, w)) in
     valid (fst after) = false /\
     get sched after = (Throw (future_error no_state), after) /\
     (keeps_simcalls sched -> valid this = true ->
      simcalls (snd after) = simcalls w ++ [(self, run_blocking)])).
Proof.
  assert (Hinvalid : forall this0 w0, valid this0 = false ->
            get sched (this0, w0) = (Throw (future_error no_state), (this0, w0))).
  { intros this0 w0 H. unfold get, bind, gets. simpl. rewrite H. reflexivity. }
  split; [apply Hinvalid|].
  intros self Hrun after. subst after.
  destruct (valid this) eqn:Hv.
  2:{ rewrite (Hinvalid _ _ Hv). simpl.
      split; [exact Hv|]. split; [apply Hinvalid; exact Hv | discriminate]. }
  assert (Hafter :
    valid (fst (snd (get sched (this, w)))) = false /\
    (keeps_simcalls sched ->
     simcalls (snd (snd (get sched (this, w)))) = simcalls w ++ [(self, run_blocking)])).
  { rewrite (get_unfold sched this w Hrun Hv).
    destruct this as [[[l|]]]; [|discriminate].
    match goal with |- context [?f ({| future_ := _ |}, parked self w)] =>
      assert (HG : exists o w1,
                f ({| future_ := {| state_ := Some l |} |}, parked self w)
                = (o, ({| future_ := {| state_ := None |} |}, w1)) /\
                (keeps_simcalls sched ->
                 simcalls w1 = simcalls w ++ [(self, run_blocking)]))
    end.
    { unfold bind at 1.
      match goal with |- context [try_catch ?a ?h ?x] =>
        assert (HC : exists o1 w1,
                  try_catch a h x
                  = (o1, ({| future_ := {| state_ := None |} |}, w1)) /\
                  simcalls w1 = simcalls w ++ [(self, run_blocking)])
      end.
      { unfold try_catch, on_future_. cbn [fst snd future_].
        rewrite then__valid. cbn [fst snd].
        destruct (set_continuation l _ (kernel (parked self w)))
          as [[[]|e|f] k1]; cbn [fst snd].
        - eexists _, _. split; reflexivity.
        - rewrite on_world_run. eexists _, _. split; [reflexivity|].
          reflexivity.
        - eexists _, _. split; reflexivity. }
      destruct HC as (o1 & w1 & HC & Hsim). rewrite HC.
      destruct o1 as [[]|e|f].
      - rewrite get_rest. eexists _, _. split; [reflexivity|].
        intros Hs. rewrite (keeps_get_rest self Hs). exact Hsim.
      - eexists _, _. split; [reflexivity|]. intros _. exact Hsim.
      - eexists _, _. split; [reflexivity|]. intros _. exact Hsim. }
    destruct HG as (o & w1 & HG & Hone). rewrite HG. split; [reflexivity|].
    exact Hone. }
  destruct Hafter as [Hgone Hone].
  split; [exact Hgone|]. split.
  - destruct (snd (get sched (this, w))) as [this' w']. apply Hinvalid. exact Hgone.
  - intros Hs _. apply Hone. exact Hs.
Qed.

Lemma bind_assoc_at {S A B C} (m : M S A) (k : A -> M S B) (h : B -> M S C)
  (s : S) :
  bind (bind m k) h s = bind m (fun a => bind (k a) h) s.
Proof. unfold bind. destruct (m s) as [[a|e|f] s1]; reflexivity. Qed.

(** The closure of [kernelSync] once [code] has returned a future, and the
    closure of [get]: both rest on the same [then_]. *)
Lemma kernelSync_closure_then (self : actor) (code : M Kernel Future)
  (w : World) (f : Future) :
  fst (code (kernel w)) = Ret f ->
  let t := then_ (wake_actor Cont self self) (f, snd (code (kernel w))) in
  let w1 := set_kernel (snd (snd t)) w in
  kernelSync_closure self self code w =
  match fst t with
  | Ret _ => (Ret tt, w1)
  | Throw e => (Result_set_exception self e ;; in_kernel (unblock self)) w1
  | Die fa => (Die fa, w1)
  end.
Proof.
  intros Hcode t w1. subst w1 t.
  unfold kernelSync_closure, try_catch, bind at 1 2, in_kernel at 1 2, zoom, call.
  destruct (code (kernel w)) as [o k']. simpl in Hcode. subst o.
  cbn [fst snd kernel set_kernel].
  destruct (then_ (wake_actor Cont self self) (f, k')) as [[[]|e|fa] [f' k'']];
    destruct w; reflexivity.
Qed.

Lemma get_closure_then (self : actor) (this : SimixFuture) (w : World) :
  let t := then_ (wake_actor Cont self self) (future_ this, kernel w) in
  let w1 := set_kernel (snd (snd t)) w in
  let this' := {| future_ := fst (snd t) |} in
  try_catch
    (on_future_ (then_ (wake_actor Cont self self)))
    (fun e =>
       on_world (Result_set_exception self e ;; in_kernel (unblock self)))
    (this, w) =
  match fst t with
  | Ret _ => (Ret tt, (this', w1))
  | Throw e =>
      (fst ((Result_set_exception self e ;; in_kernel (unblock self)) w1),
       (this',
        snd ((Result_set_exception self e ;; in_kernel (unblock self)) w1)))
  | Die fa => (Die fa, (this', w1))
  end.
Proof.
  intros t w1 this'. subst this' w1 t.
  unfold try_catch, on_future_. cbn [fst snd].
  destruct (then_ (wake_actor Cont self self) (future_ this, kernel w))
    as [[[]|e|fa] [f' k'']]; cbn [fst snd]; try reflexivity.
Qed.

Lemma parked_set_kernel (self : actor) (k1 k2 : Kernel) (w : World) :
  set_kernel k2 (parked self (set_kernel k1 w)) = set_kernel k2 (parked self w).
Proof. reflexivity. Qed.

(** [kernelSync] and [get], each as its closure followed by the wait for
    [unblock] and the reading of the result holder. *)
Lemma kernelSync_steps (code : M Kernel Future) (sched : M World unit)
  (w : World) (self : actor) :
  running w = Some self ->
  kernelSync code sched w =
  let c := kernelSync_closure self self code (parked self w) in
  match fst c with
  | Ret _ => (blocking_wait self sched ;; Result_get self) (snd c)
  | Throw e => (Throw e, snd c)
  | Die f => (Die f, snd c)
  end.
Proof.
  intros Hrun. rewrite (kernelSync_unfold code sched w Hrun).
  rewrite bind_assoc_at. unfold bind at 1.
  destruct (kernelSync_closure self self code (parked self w))
    as [[[]|e|f] w1]; reflexivity.
Qed.

Lemma get_steps (sched : M World unit) (this : SimixFuture) (w : World)
  (self : actor) :
  running w = Some self -> valid this = true ->
  get sched (this, w) =
  let c :=
    try_catch
      (on_future_ (then_ (wake_actor Cont self self)))
      (fun e =>
         on_world (Result_set_exception self e ;; in_kernel (unblock self)))
      (this, parked self w) in
  match fst c with
  | Ret _ =>
      (fst ((blocking_wait self sched ;; Result_get self) (snd (snd c))),
       (fst (snd c),
        snd ((blocking_wait self sched ;; Result_get self) (snd (snd c)))))
  | Throw e => (Throw e, snd c)
  | Die f => (Die f, snd c)
  end.
Proof.
  intros Hrun Hv. rewrite (get_unfold sched this w Hrun Hv).
  unfold bind at 1.
  destruct (try_catch _ _ (this, parked self w)) as [[[]|e|f] [this' w1]];
    try reflexivity.
  apply get_rest.
Qed.

(** X11: [kernelSync] is [get] on the future that the code returns.  When
    [code] returns a valid future, [kernelSync code] called by an actor ends
    as the actor-side [get] does on that future in the kernel that [code]
    has left, with the same value or exception and the same world. *)
Theorem kernelSync_is_get_on_the_future (code : M Kernel Future)
  (sched : M World unit) (w : World) (self : actor) (f : Future) :
  running w = Some self ->
  fst (code (kernel w)) = Ret f ->
  Kernel.valid f = true ->
  let r := get sched ({| future_ := f |}, set_kernel (snd (code (kernel w))) w) in
  kernelSync code sched w = (fst r, snd (snd r)).
Proof.
  intros Hrun Hcode Hvalid r. subst r.
  rewrite (kernelSync_steps code sched w Hrun).
  rewrite (get_steps sched {| future_ := f |}
             (set_kernel (snd (code (kernel w))) w) Hrun Hvalid).
  rewrite (kernelSync_closure_then self code (parked self w) Hcode).
  rewrite get_closure_then.
  cbn [future_ fst snd].
  change (kernel (parked self (set_kernel (snd (code (kernel w))) w)))
    with (snd (code (kernel w))).
  change (kernel (parked self w)) with (kernel w).
  rewrite parked_set_kernel.
  destruct (then_ (wake_actor Cont self self) (f, snd (code (kernel w))))
    as [[[]|e|fa] [f' k'']]; cbn [fst snd].
  - apply surjective_pairing.
  - destruct ((Result_set_exception self e ;; in_kernel (unblock self))
                (set_kernel k'' (parked self w))) as [[[]|e'|fa'] w2];
      cbn [fst snd]; try reflexivity.
    apply surjective_pairing.
  - reflexivity.
Qed.

Lemma Result_get_reads (result : result_ref) (w : World) :
  (forall v, results w !! result = Some (value v) ->
     Result_get result w =
     (Ret v, set_results (<[result := invalid]> (results w)) w)) /\
  (forall e, results w !! result = Some (exception_ptr e) ->
     Result_get result w =
     (Throw e, set_results (<[result := invalid]> (results w)) w)).
Proof.
  split; intros x H; unfold Result_get, bind, gets; cbn [fst snd];
    rewrite H; reflexivity.
Qed.

Lemma drain_nothing (n : nat) (w : World) :
  ready_list (kernel w) = [] -> drain_ready_list run_user n w = (Ret tt, w).
Proof.
  intros H. destruct n as [|n]; [reflexivity|].
  simpl. unfold bind, gets. rewrite H. reflexivity.
Qed.

(** The world after the continuation of [kernelSync] and of [get] has run
    on a ready state. *)
Lemma wake_runs (result : result_ref) (self : actor) (l : loc) (w : World)
  (st : FutureState) :
  heap (kernel w) !! l = Some st -> status_ st = ready ->
  let job := bound_task (wake_actor Cont result self) l in
  let woken (st' : FutureState) (r : Result V) : World :=
    set_kernel
      (set_process_to_run (process_to_run (kernel w) ++ [self])
         (set_heap (<[l := st']> (heap (kernel w))) (kernel w)))
      (set_results (<[result := r]> (results w)) w) in
  (forall v, exception_ st = None -> value_ st = Some v ->
     run_task run_user job w =
     (Ret tt, woken (set_value_ None (set_status done st)) (value v))) /\
  (forall e, exception_ st = Some e ->
     run_task run_user job w =
     (Ret tt, woken (set_exception_ None (set_status done st)) (exception_ptr e))).
Proof.
  intros Hst Hs job woken. subst job woken.
  unfold run_task, wake, setPromise, fulfillPromise, try_catch, bind,
    in_kernel, zoom, call.
  rewrite (Future_get_valid _ _ Hst).
  split.
  - intros v He Hv. rewrite (FutureState_get_value _ Hs He Hv).
    destruct w; reflexivity.
  - intros e He. rewrite (FutureState_get_exception _ Hs He).
    destruct w; reflexivity.
Qed.

(** *** Waiting for the continuation *)

(** The wait of a blocking simcall, by cases: the actor was unblocked by
    the closure; it is unblocked once the kernel has done its work; it is
    never unblocked. *)
Lemma blocking_wait_cases (self : actor) (sched : M World unit) (w1 : World) :
  (self ∈ process_to_run (kernel w1) ->
   blocking_wait self sched w1 = run_unblocked self w1) /\
  (forall w3, self ∉ process_to_run (kernel w1) -> sched w1 = (Ret tt, w3) ->
     (self ∈ process_to_run (kernel w3) ->
      blocking_wait self sched w1 = run_unblocked self w3) /\
     (self ∉ process_to_run (kernel w3) ->
      blocking_wait self sched w1 =
      (Die (xbt_die "Deadlock: every actor is blocked"), w3))).
Proof.
  split.
  - intros Hin. unfold blocking_wait, bind at 1, is_unblocked at 1, gets.
    cbn [fst snd]. rewrite bool_decide_eq_true_2 by exact Hin. reflexivity.
  - intros w3 Hout Hsched.
    assert (Hwait : blocking_wait self sched w1 =
              (let! later := is_unblocked self in
               if later then run_unblocked self
               else die (xbt_die "Deadlock: every actor is blocked")) w3).
    { unfold blocking_wait, bind at 1, is_unblocked at 1, gets.
      cbn [fst snd]. rewrite bool_decide_eq_false_2 by exact Hout.
      unfold bind at 1. rewrite Hsched. reflexivity. }
    rewrite Hwait. unfold bind, is_unblocked, gets. cbn [fst snd].
    split; intros H.
    + rewrite bool_decide_eq_true_2 by exact H. reflexivity.
    + rewrite bool_decide_eq_false_2 by exact H. reflexivity.
Qed.

(** What follows the wait is the reading of the result holder. *)
Lemma deliver_after_wake (self : actor) (sched : M World unit) (w1 w3 : World) :
  blocking_wait self sched w1 = run_unblocked self w3 ->
  (blocking_wait self sched ;; Result_get self) w1 =
  (run_unblocked self ;; Result_get self) w3.
Proof. intros H. unfold bind. rewrite H. reflexivity. Qed.

(** The scheduler on a ready list that holds one job. *)
Lemma drain_single (n : nat) (job : Task Cont) (w w' : World) :
  ready_list (kernel w) = [job] ->
  run_task run_user job (set_kernel (set_ready_list [] (kernel w)) w)
    = (Ret tt, w') ->
  ready_list (kernel w') = [] ->
  drain_ready_list run_user (S n) w = (Ret tt, w').
Proof.
  intros Hjobs Hrun Hempty. simpl drain_ready_list.
  unfold bind at 1, gets. cbn [fst snd]. rewrite Hjobs.
  unfold bind at 1, in_kernel at 1, zoom, modify. cbn [fst snd].
  unfold bind at 1. rewrite Hrun. apply drain_nothing. exact Hempty.
Qed.

(** The actor resumed with what its result holder has. *)
Lemma resumed_with (self : actor) (w3 : World) :
  let back :=
    set_results (<[self := invalid]> (results w3))
      (set_running (Some self)
         (set_kernel
            (set_process_to_run
               (filter (fun a => a <> self) (process_to_run (kernel w3)))
               (kernel w3)) w3)) in
  (forall v, results w3 !! self = Some (value v) ->
     (run_unblocked self ;; Result_get self) w3 = (Ret v, back)) /\
  (forall e, results w3 !! self = Some (exception_ptr e) ->
     (run_unblocked self ;; Result_get self) w3 = (Throw e, back)).
Proof.
  intros back. subst back.
  set (w4 := set_running (Some self)
               (set_kernel
                  (set_process_to_run
                     (filter (fun a => a <> self) (process_to_run (kernel w3)))
                     (kernel w3)) w3)).
  assert (Hrun : run_unblocked self w3 = (Ret tt, w4)) by reflexivity.
  destruct (Result_get_reads self w4) as [Hvalue Hexc].
  split; intros x H; unfold bind at 1; rewrite Hrun.
  - apply (Hvalue x). exact H.
  - apply (Hexc x). exact H.
Qed.

(** The wait of an actor whose continuation is the one job of the ready
    list, on a ready state, when the scheduler drains the list: the
    continuation runs, the actor is resumed and has the outcome of the
    future. *)
Lemma wait_for_the_wake (n : nat) (self : actor) (l : loc) (wd : World)
  (st : FutureState) :
  ready_list (kernel wd) = [bound_task (wake_actor Cont self self) l] ->
  heap (kernel wd) !! l = Some st -> status_ st = ready ->
  (forall v, exception_ st = None -> value_ st = Some v ->
     exists w3 w4,
       drain_ready_list run_user (S n) wd = (Ret tt, w3) /\
       self ∈ process_to_run (kernel w3) /\
       (run_unblocked self ;; Result_get self) w3 = (Ret v, w4) /\
       simcalls w4 = simcalls wd /\ running w4 = Some self) /\
  (forall e, exception_ st = Some e ->
     exists w3 w4,
       drain_ready_list run_user (S n) wd = (Ret tt, w3) /\
       self ∈ process_to_run (kernel w3) /\
       (run_unblocked self ;; Result_get self) w3 = (Throw e, w4) /\
       simcalls w4 = simcalls wd /\ running w4 = Some self).
Proof.
  intros Hjobs Hst Hs.
  set (w2 := set_kernel (set_ready_list [] (kernel wd)) wd).
  assert (Hst2 : heap (kernel w2) !! l = Some st) by exact Hst.
  destruct (wake_runs self self l w2 Hst2 Hs) as [Hvalue Hexc].
  split.
  - intros v He Hv. specialize (Hvalue v He Hv).
    eexists _, _. split; [exact (drain_single n wd Hjobs Hvalue eq_refl)|].
    split; [simpl; set_solver|].
    destruct (resumed_with self
      (set_kernel
         (set_process_to_run (process_to_run (kernel w2) ++ [self])
            (set_heap (<[l := set_value_ None (set_status done st)]>
                         (heap (kernel w2))) (kernel w2)))
         (set_results (<[self := value v]> (results w2)) w2))) as [Hget _].
    split; [apply Hget; simpl; apply lookup_insert_eq|].
    split; reflexivity.
  - intros e He. specialize (Hexc e He).
    eexists _, _. split; [exact (drain_single n wd Hjobs Hexc eq_refl)|].
    split; [simpl; set_solver|].
    destruct (resumed_with self
      (set_kernel
         (set_process_to_run (process_to_run (kernel w2) ++ [self])
            (set_heap (<[l := set_exception_ None (set_status done st)]>
                         (heap (kernel w2))) (kernel w2)))
         (set_results (<[self := exception_ptr e]> (results w2)) w2)))
      as [_ Hget].
    split; [apply Hget; simpl; apply lookup_insert_eq|].
    split; reflexivity.
Qed.

(** [get] on a ready future, up to the wait. *)
Lemma get_attaches_ready (sched : M World unit) (l : loc) (w : World)
  (self : actor) (st : FutureState) :
  running w = Some self ->
  heap (kernel w) !! l = Some st ->
  status_ st = ready -> continuation_ st = None ->
  let job := bound_task (wake_actor Cont self self) l in
  let waiting :=
    set_kernel (set_ready_list (ready_list (kernel w) ++ [job]) (kernel w))
      (parked self w) in
  get sched ({| future_ := {| state_ := Some l |} |}, w) =
  (fst ((blocking_wait self sched ;; Result_get self) waiting),
   ({| future_ := {| state_ := None |} |},
    snd ((blocking_wait self sched ;; Result_get self) waiting))).
Proof.
  intros Hrun Hst Hs Hc job waiting. subst waiting job.
  rewrite (@get_steps sched {| future_ := {| state_ := Some l |} |} w self
             Hrun eq_refl).
  rewrite get_closure_then. cbn [future_].
  rewrite then__valid.
  change (kernel (parked self w)) with (kernel w).
  rewrite (set_continuation_ready _ _ _ Hst Hc Hs). reflexivity.
Qed.

(** X10: [get] on a future that is already resolved.  An actor calls [get]
    on a future whose state is ready, while the ready list is empty.  The
    continuation is not run by the call itself: when the closure of the
    simcall has run, the continuation is the one job of the ready list, the
    state is as it was, still ready and not consumed, the result holder is
    empty and the actor is not unblocked; whatever the kernel does next
    starts from there, and with a kernel that never runs the ready list the
    actor stays blocked for ever.  Once the scheduler drains the list, the
    actor is resumed with the value of the future, or with its exception
    rethrown, after exactly one blocking simcall. *)
Theorem get_on_a_resolved_future (n : nat) (l : loc) (w : World)
  (self : actor) (st : FutureState) :
  running w = Some self ->
  heap (kernel w) !! l = Some st ->
  status_ st = ready -> continuation_ st = None ->
  ready_list (kernel w) = [] ->
  self ∉ process_to_run (kernel w) ->
  let this := {| future_ := {| state_ := Some l |} |} in
  let gone := {| future_ := {| state_ := None |} |} in
  let job := bound_task (wake_actor Cont self self) l in
  let waiting := set_kernel (set_ready_list [job] (kernel w)) (parked self w) in
  let r := get (drain_ready_list run_user (S n)) (this, w) in
  (heap (kernel waiting) !! l = Some st /\
   ready_list (kernel waiting) = [job] /\
   process_to_run (kernel waiting) = process_to_run (kernel w) /\
   results waiting !! self = Some invalid /\
   running waiting = None) /\
  (forall sched,
     get sched (this, w) =
     (fst ((blocking_wait self sched ;; Result_get self) waiting),
      (gone, snd ((blocking_wait self sched ;; Result_get self) waiting)))) /\
  get (ret tt) (this, w) =
    (Die (xbt_die "Deadlock: every actor is blocked"), (gone, waiting)) /\
  (forall v, exception_ st = None -> value_ st = Some v ->
     fst r = Ret v /\
     simcalls (snd (snd r)) = simcalls w ++ [(self, run_blocking)] /\
     running (snd (snd r)) = Some self) /\
  (forall e, exception_ st = Some e ->
     fst r = Throw e /\
     simcalls (snd (snd r)) = simcalls w ++ [(self, run_blocking)] /\
     running (snd (snd r)) = Some self).
Proof.
  intros Hrun Hst Hs Hc Hready Hblocked this gone job waiting r.
  assert (Hget : forall sched,
    get sched (this, w) =
    (fst ((blocking_wait self sched ;; Result_get self) waiting),
     (gone, snd ((blocking_wait self sched ;; Result_get self) waiting)))).
  { intros sched. subst this gone waiting job.
    rewrite (get_attaches_ready sched l w Hrun Hst Hs Hc).
    cbv zeta. rewrite Hready. reflexivity. }
  assert (Hout : self ∉ process_to_run (kernel waiting)) by exact Hblocked.
  split; [|split; [|split; [|split]]].
  - repeat split; try reflexivity; try exact Hst.
    simpl. apply lookup_insert_eq.
  - exact Hget.
  - rewrite Hget.
    destruct (blocking_wait_cases self (ret tt) waiting) as [_ Hwait].
    destruct (Hwait waiting Hout eq_refl) as [_ Hdead].
    unfold bind. rewrite (Hdead Hout). reflexivity.
  - intros v He Hv. subst r. rewrite Hget.
    destruct (@wait_for_the_wake n self l waiting st eq_refl Hst Hs)
      as [Hvalue _].
    destruct (Hvalue v He Hv) as (w3 & w4 & Hdrain & Hin & Hback & Hsim & Hr).
    destruct (blocking_wait_cases self (drain_ready_list run_user (S n)) waiting)
      as [_ Hwait].
    destruct (Hwait w3 Hout Hdrain) as [Hwoken _].
    assert (Hall : (blocking_wait self (drain_ready_list run_user (S n)) ;;
                    Result_get self) waiting = (Ret v, w4)).
    { rewrite (@deliver_after_wake _ _ _ _ (Hwoken Hin)). exact Hback. }
    rewrite Hall. cbn [fst snd].
    split; [reflexivity|]. split; [exact Hsim | exact Hr].
  - intros e He. subst r. rewrite Hget.
    destruct (@wait_for_the_wake n self l waiting st eq_refl Hst Hs)
      as [_ Hexc].
    destruct (Hexc e He) as (w3 & w4 & Hdrain & Hin & Hback & Hsim & Hr).
    destruct (blocking_wait_cases self (drain_ready_list run_user (S n)) waiting)
      as [_ Hwait].
    destruct (Hwait w3 Hout Hdrain) as [Hwoken _].
    assert (Hall : (blocking_wait self (drain_ready_list run_user (S n)) ;;
                    Result_get self) waiting = (Throw e, w4)).
    { rewrite (@deliver_after_wake _ _ _ _ (Hwoken Hin)). exact Hback. }
    rewrite Hall. cbn [fst snd].
    split; [reflexivity|]. split; [exact Hsim | exact Hr].
Qed.

(** *** [kernelSync], from the call to the return *)

(** [kernelSync] when the closure fails at once: the kernel is not waited
    for. *)
Lemma kernelSync_fails_without_waiting (code : M Kernel Future)
  (sched : M World unit) (w : World) (self : actor) (e : exception) :
  running w = Some self ->
  fails_at_once (fst (code (kernel w))) e ->
  let k' := snd (code (kernel w)) in
  kernelSync code sched w =
  (run_unblocked self ;; Result_get self)
    (set_kernel (set_process_to_run (process_to_run k' ++ [self]) k')
       (set_results (<[self := exception_ptr e]> (results (parked self w)))
          (parked self w))).
Proof.
  intros Hrun H k'. subst k'.
  rewrite (kernelSync_steps code sched w Hrun).
  rewrite (kernelSync_closure_fails self self code (parked self w) H).
  cbn [fst snd]. change (kernel (parked self w)) with (kernel w).
  apply deliver_after_wake.
  match goal with |- blocking_wait _ _ ?x = _ =>
    destruct (blocking_wait_cases self sched x) as [Hnow _]
  end.
  apply Hnow. simpl. set_solver.
Qed.

(** [kernelSync] when [code] returns a future with a state that can take a
    continuation: up to the wait. *)
Lemma kernelSync_attaches (code : M Kernel Future) (sched : M World unit)
  (w : World) (self : actor) (l : loc) (st : FutureState) :
  running w = Some self ->
  let k' := snd (code (kernel w)) in
  fst (code (kernel w)) = Ret {| state_ := Some l |} ->
  heap k' !! l = Some st -> continuation_ st = None ->
  let job := bound_task (wake_actor Cont self self) l in
  (status_ st = not_ready ->
     kernelSync code sched w =
     (blocking_wait self sched ;; Result_get self)
       (set_kernel
          (set_heap (<[l := set_continuation_ (Some job) st]> (heap k')) k')
          (parked self w))) /\
  (status_ st = ready ->
     kernelSync code sched w =
     (blocking_wait self sched ;; Result_get self)
       (set_kernel (set_ready_list (ready_list k' ++ [job]) k') (parked self w))).
Proof.
  intros Hrun k' Hr Hst Hc job. subst k' job.
  rewrite (kernelSync_steps code sched w Hrun).
  destruct (@kernelSync_closure_attaches V Cont self self code (parked self w)
              l st Hr Hst Hc) as [Hpending Hready].
  split; intros Hs.
  - rewrite (Hpending Hs). reflexivity.
  - rewrite (Hready Hs). reflexivity.
Qed.

(** C5, as amended: an actor calls [kernelSync code].  When the closure run
    by the kernel fails at once (because [code] throws, or because [code]
    returns a future without shared state, on which [then_] throws
    [no_state]), the actor is unblocked by the closure itself, the kernel is
    not waited for, and the exception is rethrown to the actor.  When [code]
    returns a future whose state is pending or ready and has no continuation
    yet, [kernelSync] attaches a continuation to it (stored in the state
    while it is pending, put on the ready list when it is ready) and the
    actor waits, blocked, for what the kernel does next.  Run on the ready
    state, that continuation moves the value or the exception of the future
    into the result holder of the actor and unblocks the actor.  So, in a
    kernel whose ready list is empty and with the actor not on the to-run
    list: when the state is ready and the scheduler drains the ready list,
    and when the state is pending (no exception stored) and the kernel
    satisfies the promise and then drains the ready list, [kernelSync]
    returns the value of the future, or rethrows its exception, to the
    actor, which is running again.  [kernelSync] issues exactly one simcall,
    the blocking one (what the kernel runs in the meantime issuing none). *)
Theorem kernelSync_wakes_the_actor (code : M Kernel Future)
  (sched : M World unit) (w : World) (self : actor) :
  running w = Some self ->
  let r := code (kernel w) in
  let job l := bound_task (wake_actor Cont self self) l in
  let deliver := (blocking_wait self sched ;; Result_get self) in
  let drain n := drain_ready_list run_user (S n) in
  (forall e, fails_at_once (fst r) e ->
     fst (kernelSync code sched w) = Throw e /\
     running (snd (kernelSync code sched w)) = Some self /\
     (forall sched', kernelSync code sched' w = kernelSync code sched w)) /\
  (forall l st,
     fst r = Ret {| state_ := Some l |} -> heap (snd r) !! l = Some st ->
     continuation_ st = None -> status_ st = not_ready ->
     kernelSync code sched w =
     deliver
       (set_kernel
          (set_heap (<[l := set_continuation_ (Some (job l)) st]> (heap (snd r)))
             (snd r))
          (parked self w))) /\
  (forall l st,
     fst r = Ret {| state_ := Some l |} -> heap (snd r) !! l = Some st ->
     continuation_ st = None -> status_ st = ready ->
     kernelSync code sched w =
     deliver
       (set_kernel (set_ready_list (ready_list (snd r) ++ [job l]) (snd r))
          (parked self w))) /\
  (forall l w2 st,
     heap (kernel w2) !! l = Some st -> status_ st = ready ->
     let w3 := snd (run_task run_user (job l) w2) in
     (forall e, exception_ st = Some e ->
        results w3 !! self = Some (exception_ptr e) /\
        process_to_run (kernel w3) = process_to_run (kernel w2) ++ [self] /\
        fst (Result_get self w3) = Throw e) /\
     (forall v, exception_ st = None -> value_ st = Some v ->
        results w3 !! self = Some (value v) /\
        process_to_run (kernel w3) = process_to_run (kernel w2) ++ [self] /\
        fst (Result_get self w3) = Ret v)) /\
  (forall n l st,
     fst r = Ret {| state_ := Some l |} -> heap (snd r) !! l = Some st ->
     continuation_ st = None -> status_ st = ready ->
     ready_list (snd r) = [] -> self ∉ process_to_run (snd r) ->
     let out := kernelSync code (drain n) w in
     (forall v, exception_ st = None -> value_ st = Some v ->
        fst out = Ret v /\ running (snd out) = Some self) /\
     (forall e, exception_ st = Some e ->
        fst out = Throw e /\ running (snd out) = Some self)) /\
  (forall n l st,
     fst r = Ret {| state_ := Some l |} -> heap (snd r) !! l = Some st ->
     continuation_ st = None -> status_ st = not_ready ->
     ready_list (snd r) = [] -> self ∉ process_to_run (snd r) ->
     (forall v, exception_ st = None ->
        let out :=
          kernelSync code (in_kernel (FutureState_set_value l v) ;; drain n) w in
        fst out = Ret v /\ running (snd out) = Some self) /\
     (forall e,
        let out :=
          kernelSync code
            (in_kernel (FutureState_set_exception (V:=V) l e) ;; drain n) w in
        fst out = Throw e /\ running (snd out) = Some self)) /\
  (keeps_simcalls sched ->
     simcalls (snd (kernelSync code sched w)) = simcalls w ++ [(self, run_blocking)]).
Proof.
  intros Hrun r job deliver drain. subst r job deliver drain.
  split; [|split; [|split; [|split; [|split; [|split]]]]].
  - intros e H.
    pose proof (fun s => kernelSync_fails_without_waiting code s w Hrun H) as Hk.
    cbv zeta in Hk.
    match type of Hk with forall s, _ = ?f ?x =>
      destruct (resumed_with self x) as [_ Hget]
    end.
    specialize (Hget e ltac:(simpl; apply lookup_insert_eq)).
    split; [rewrite Hk, Hget; reflexivity|].
    split; [rewrite Hk, Hget; reflexivity|].
    intros sched'. rewrite !Hk. reflexivity.
  - intros l st Hr Hst Hc Hs.
    destruct (kernelSync_attaches code sched w Hrun Hr Hst Hc) as [H _].
    exact (H Hs).
  - intros l st Hr Hst Hc Hs.
    destruct (kernelSync_attaches code sched w Hrun Hr Hst Hc) as [_ H].
    exact (H Hs).
  - intros l w2 st Hst Hs w3.
    destruct (@wake_transports V Cont run_user self self l w2 st Hst Hs)
      as [He Hv].
    fold w3 in He, Hv.
    split.
    + intros e Hex. destruct (He e Hex) as [H1 H2].
      split; [exact H1|]. split; [exact H2|].
      unfold Result_get, bind, gets. simpl. rewrite H1. reflexivity.
    + intros v Hex Hval. destruct (Hv v Hex Hval) as [H1 H2].
      split; [exact H1|]. split; [exact H2|].
      unfold Result_get, bind, gets. simpl. rewrite H1. reflexivity.
  - intros n l st Hr Hst Hc Hs Hempty Hblocked out. subst out.
    destruct (kernelSync_attaches code (drain_ready_list run_user (S n)) w
                Hrun Hr Hst Hc) as [_ H].
    rewrite (H Hs). rewrite Hempty. simpl app.
    set (waiting := set_kernel _ (parked self w)).
    assert (Hout : self ∉ process_to_run (kernel waiting)) by exact Hblocked.
    destruct (@wait_for_the_wake n self l waiting st eq_refl Hst Hs)
      as [Hvalue Hexc].
    destruct (blocking_wait_cases self (drain_ready_list run_user (S n)) waiting)
      as [_ Hwait].
    split.
    + intros v He Hv.
      destruct (Hvalue v He Hv) as (w3 & w4 & Hdrain & Hin & Hback & _ & Hr4).
      destruct (Hwait w3 Hout Hdrain) as [Hwoken _].
      assert (Hall : (blocking_wait self (drain_ready_list run_user (S n)) ;;
                      Result_get self) waiting = (Ret v, w4)).
      { rewrite (@deliver_after_wake _ _ _ _ (Hwoken Hin)). exact Hback. }
      rewrite Hall. split; [reflexivity | exact Hr4].
    + intros e He.
      destruct (Hexc e He) as (w3 & w4 & Hdrain & Hin & Hback & _ & Hr4).
      destruct (Hwait w3 Hout Hdrain) as [Hwoken _].
      assert (Hall : (blocking_wait self (drain_ready_list run_user (S n)) ;;
                      Result_get self) waiting = (Throw e, w4)).
      { rewrite (@deliver_after_wake _ _ _ _ (Hwoken Hin)). exact Hback. }
      rewrite Hall. split; [reflexivity | exact Hr4].
  - intros n l st Hr Hst Hc Hs Hempty Hblocked.
    set (k' := snd (code (kernel w))) in *.
    set (st1 := set_continuation_ (Some (bound_task (wake_actor Cont self self) l)) st).
    set (waiting := set_kernel (set_heap (<[l := st1]> (heap k')) k') (parked self w)).
    assert (Hout : self ∉ process_to_run (kernel waiting)) by exact Hblocked.
    assert (Hst1 : heap (kernel waiting) !! l = Some st1)
      by (simpl; apply lookup_insert_eq).
    assert (Hend : forall (set : M Kernel unit) (st2 : FutureState) o,
      set (kernel waiting) =
        (Ret tt,
         set_ready_list (ready_list (kernel waiting) ++ pending_job st1)
           (set_heap (<[l := st2]> (heap (kernel waiting))) (kernel waiting))) ->
      status_ st2 = ready ->
      (forall w3 w4,
         let wd := snd (in_kernel set waiting) in
         drain_ready_list run_user (S n) wd = (Ret tt, w3) ->
         self ∈ process_to_run (kernel w3) ->
         (run_unblocked self ;; Result_get self) w3 = (o, w4) ->
         (blocking_wait self (in_kernel set ;; drain_ready_list run_user (S n)) ;;
          Result_get self) waiting = (o, w4))).
    { intros set st2 o Hset Hs2 w3 w4 wd Hdrain Hin Hback.
      destruct (blocking_wait_cases self
                  (in_kernel set ;; drain_ready_list run_user (S n)) waiting)
        as [_ Hwait].
      assert (Hsched : (in_kernel set ;; drain_ready_list run_user (S n)) waiting
                       = (Ret tt, w3)).
      { unfold bind. subst wd. rewrite in_kernel_frame in *. rewrite Hset in *.
        cbn [fst snd] in *. exact Hdrain. }
      destruct (Hwait w3 Hout Hsched) as [Hwoken _].
      rewrite (@deliver_after_wake _ _ _ _ (Hwoken Hin)). exact Hback. }
    split.
    + intros v He out. subst out.
      destruct (kernelSync_attaches code
                  (in_kernel (FutureState_set_value l v) ;;
                   drain_ready_list run_user (S n)) w Hrun Hr Hst Hc) as [H _].
      rewrite (H Hs). fold k' st1 waiting.
      pose proof (FutureState_set_value_not_ready l v (kernel waiting) Hst1 Hs)
        as Hset.
      set (st2 := satisfied Cont (Some v) (exception_ st1)) in Hset.
      set (wd := snd (in_kernel (FutureState_set_value l v) waiting)).
      assert (Hwd : wd =
        set_kernel
          (set_ready_list (ready_list (kernel waiting) ++ pending_job st1)
             (set_heap (<[l := st2]> (heap (kernel waiting))) (kernel waiting)))
          waiting).
      { subst wd. rewrite in_kernel_frame, Hset. reflexivity. }
      assert (Hjobs : ready_list (kernel wd) =
                      [bound_task (wake_actor Cont self self) l]).
      { rewrite Hwd. simpl. fold k'. rewrite Hempty. reflexivity. }
      assert (Hst2 : heap (kernel wd) !! l = Some st2).
      { rewrite Hwd. simpl. apply lookup_insert_eq. }
      destruct (@wait_for_the_wake n self l wd st2 Hjobs Hst2 eq_refl)
        as [Hvalue _].
      destruct (Hvalue v He eq_refl)
        as (w3 & w4 & Hdrain & Hin & Hback & _ & Hr4).
      rewrite (Hend _ st2 (Ret v) Hset eq_refl w3 w4 Hdrain Hin Hback).
      split; [reflexivity | exact Hr4].
    + intros e out. subst out.
      destruct (kernelSync_attaches code
                  (in_kernel (FutureState_set_exception (V:=V) l e) ;;
                   drain_ready_list run_user (S n)) w Hrun Hr Hst Hc) as [H _].
      rewrite (H Hs). fold k' st1 waiting.
      pose proof (FutureState_set_exception_not_ready l e (kernel waiting)
                    Hst1 Hs) as Hset.
      set (st2 := satisfied Cont (value_ st1) (Some e)) in Hset.
      set (wd := snd (in_kernel (FutureState_set_exception (V:=V) l e) waiting)).
      assert (Hwd : wd =
        set_kernel
          (set_ready_list (ready_list (kernel waiting) ++ pending_job st1)
             (set_heap (<[l := st2]> (heap (kernel waiting))) (kernel waiting)))
          waiting).
      { subst wd. rewrite in_kernel_frame, Hset. reflexivity. }
      assert (Hjobs : ready_list (kernel wd) =
                      [bound_task (wake_actor Cont self self) l]).
      { rewrite Hwd. simpl. fold k'. rewrite Hempty. reflexivity. }
      assert (Hst2 : heap (kernel wd) !! l = Some st2).
      { rewrite Hwd. simpl. apply lookup_insert_eq. }
      destruct (@wait_for_the_wake n self l wd st2 Hjobs Hst2 eq_refl)
        as [_ Hexc].
      destruct (Hexc e eq_refl)
        as (w3 & w4 & Hdrain & Hin & Hback & _ & Hr4).
      rewrite (Hend _ st2 (Throw e) Hset eq_refl w3 w4 Hdrain Hin Hback).
      split; [reflexivity | exact Hr4].
  - intros Hsched. rewrite (kernelSync_unfold code sched w Hrun).
    rewrite (kernelSync_after_parking code self Hsched (parked self w)).
    reflexivity.
Qed.

End Simix_more.

(** ** The collective selector *)

Section CollSelector_properties.

Import CollSelectorOmpi.

Lemma land_1_odd (n : Z) : negb (Z.land n 1 =? 0) = Z.odd n.
Proof.
  change 1 with (Z.ones 1). rewrite Z.land_ones by lia.
  change (2 ^ 1) with 2. rewrite Zmod_odd.
  destruct (Z.odd n); reflexivity.
Qed.

Lemma shiftr_1 (n : Z) : Z.shiftr n 1 = n / 2.
Proof. rewrite Z.shiftr_div_pow2 by lia. reflexivity. Qed.

Lemma even_halves (n : Z) : Z.odd n = false -> n = 2 * (n / 2).
Proof.
  intros H. pose proof (Z.div_mod n 2 ltac:(lia)) as Hd.
  rewrite Zmod_odd, H in Hd. lia.
Qed.

Lemma odd_halves (n : Z) : Z.odd n = true -> n = 2 * (n / 2) + 1.
Proof.
  intros H. pose proof (Z.div_mod n 2 ltac:(lia)) as Hd.
  rewrite Zmod_odd, H in Hd. lia.
Qed.

Lemma pow2_succ_nat (fuel : nat) : 2 ^ Z.of_nat (S fuel) = 2 * 2 ^ Z.of_nat fuel.
Proof. rewrite Nat2Z.inj_succ, Z.pow_succ_r by lia. reflexivity. Qed.

(** Once a bit has been seen, the loop ends in bruck at the next bit that
    is set, and in recursive doubling when there is none. *)
Lemma barrier_loop_seen (fuel : nat) : forall n : Z,
  0 <= n < 2 ^ Z.of_nat fuel ->
  barrier_loop fuel n true =
  Some (if n =? 0 then Coll_barrier_ompi_recursivedoubling
        else Coll_barrier_ompi_bruck).
Proof.
  induction fuel as [|fuel IH]; intros n Hn.
  - change (2 ^ Z.of_nat 0) with 1 in Hn. assert (n = 0) by lia. subst n.
    reflexivity.
  - rewrite pow2_succ_nat in Hn. cbn [barrier_loop].
    destruct (n >? 0) eqn:Hpos.
    + rewrite land_1_odd. destruct (Z.odd n) eqn:Hodd.
      * destruct (n =? 0) eqn:E; [lia | reflexivity].
      * pose proof (even_halves n Hodd) as He.
        rewrite shiftr_1, IH by lia.
        destruct (n / 2 =? 0) eqn:E1, (n =? 0) eqn:E2; try reflexivity; lia.
    + assert (n = 0) by lia. subst n. reflexivity.
Qed.

Lemma power_of_two_odd (n : Z) : power_of_two n -> Z.odd n = true -> n = 1.
Proof.
  intros (k & Hk & ->) Hodd.
  destruct (Z.eq_dec k 0) as [->|Hne]; [reflexivity|].
  rewrite Z.odd_pow in Hodd by lia. discriminate.
Qed.

Lemma power_of_two_half (n : Z) :
  0 < n -> Z.odd n = false -> (power_of_two n <-> power_of_two (n / 2)).
Proof.
  intros Hpos Hodd. pose proof (even_halves n Hodd) as He. split.
  - intros (k & Hk & Hn).
    destruct (Z.eq_dec k 0) as [->|Hne].
    { subst n. discriminate. }
    exists (k - 1). split; [lia|].
    replace k with (Z.succ (k - 1)) in Hn by lia.
    rewrite Z.pow_succ_r in Hn by lia. lia.
  - intros (k & Hk & Hn). exists (Z.succ k). split; [lia|].
    rewrite Z.pow_succ_r by lia. lia.
Qed.

Lemma barrier_loop_fresh (fuel : nat) : forall n : Z,
  0 < n < 2 ^ Z.of_nat fuel ->
  (power_of_two n ->
   barrier_loop fuel n false = Some Coll_barrier_ompi_recursivedoubling) /\
  (~ power_of_two n ->
   barrier_loop fuel n false = Some Coll_barrier_ompi_bruck).
Proof.
  induction fuel as [|fuel IH]; intros n Hn.
  - change (2 ^ Z.of_nat 0) with 1 in Hn. lia.
  - rewrite pow2_succ_nat in Hn. cbn [barrier_loop].
    assert (Hpos : (n >? 0) = true) by lia. rewrite Hpos.
    rewrite land_1_odd, shiftr_1. destruct (Z.odd n) eqn:Hodd.
    + pose proof (odd_halves n Hodd) as Ho.
      rewrite barrier_loop_seen by lia. split.
      * intros Hp. rewrite (power_of_two_odd Hp Hodd). reflexivity.
      * intros Hp. destruct (n / 2 =? 0) eqn:E; [|reflexivity].
        exfalso. apply Hp. exists 0. split; [lia|]. simpl. lia.
    + pose proof (even_halves n Hodd) as He.
      destruct (IH (n / 2)) as [Hyes Hno]; [lia|].
      rewrite (power_of_two_half (n:=n)) by (lia || assumption).
      split; assumption.
Qed.

(** X15: the barrier selector.  With two processes the two-process barrier
    is chosen.  Otherwise recursive doubling is chosen exactly when the
    number of processes is a power of two, and bruck for every other
    positive number; the loop over the bits of the size ends within 32
    iterations. *)
Theorem barrier_picks_by_power_of_two (fuel : nat) (n : Z) :
  (32 <= fuel)%nat -> 0 < n < 2 ^ 31 ->
  (n = 2 -> barrier fuel n = Some Coll_barrier_ompi_two_procs) /\
  (n <> 2 -> power_of_two n ->
   barrier fuel n = Some Coll_barrier_ompi_recursivedoubling) /\
  (~ power_of_two n -> barrier fuel n = Some Coll_barrier_ompi_bruck).
Proof.
  intros Hfuel Hn.
  assert (Hb : 0 < n < 2 ^ Z.of_nat fuel).
  { split; [lia|]. apply Z.lt_le_trans with (2 ^ 31); [lia|].
    apply Z.pow_le_mono_r; lia. }
  destruct (barrier_loop_fresh fuel Hb) as [Hyes Hno].
  unfold barrier. split; [|split].
  - intros ->. reflexivity.
  - intros Hne Hp. destruct (2 =? n) eqn:E; [lia|]. apply Hyes, Hp.
  - intros Hp. destruct (2 =? n) eqn:E.
    + exfalso. apply Hp. exists 1. split; [lia|]. simpl. lia.
    + apply Hno, Hp.
Qed.

Lemma wrap_int_small (z : Z) : - 2 ^ 31 <= z < 2 ^ 31 -> wrap_int z = z.
Proof. intros H. unfold wrap_int. rewrite Z.mod_small; lia. Qed.

(** The loop computes the least power of two that is not below the size. *)
Lemma pow2_loop_least (fuel : nat) : forall j n : Z,
  0 <= j -> (j = 0 \/ 2 ^ (j - 1) < n) -> n <= 2 ^ 30 ->
  30 - j < Z.of_nat fuel ->
  exists i, 0 <= i /\ pow2_loop fuel (2 ^ j) n = Some (2 ^ i) /\
            n <= 2 ^ i /\ (i = 0 \/ 2 ^ (i - 1) < n).
Proof.
  induction fuel as [|fuel IH]; intros j n Hj Hinv Hn Hfuel.
  - exfalso. assert (Hj30 : 30 < j) by lia.
    destruct Hinv as [->|Hlt]; [lia|].
    assert (2 ^ 30 <= 2 ^ (j - 1)) by (apply Z.pow_le_mono_r; lia). lia.
  - cbn [pow2_loop]. destruct (2 ^ j <? n) eqn:Hlt.
    + assert (Hj30 : j < 30).
      { apply (Z.pow_lt_mono_r_iff 2); lia. }
      assert (Hnext : Z.shiftl (2 ^ j) 1 = 2 ^ (j + 1)).
      { rewrite Z.shiftl_mul_pow2 by lia. rewrite Z.pow_add_r by lia. reflexivity. }
      assert (Hsmall : 2 ^ (j + 1) <= 2 ^ 30) by (apply Z.pow_le_mono_r; lia).
      assert (Hpos : 0 < 2 ^ (j + 1)) by (apply Z.pow_pos_nonneg; lia).
      rewrite Hnext, wrap_int_small by lia.
      apply IH; try lia.
      right. replace (j + 1 - 1) with j by lia. lia.
    + exists j. repeat split; lia.
Qed.

Lemma pow2_loop_exact (fuel : nat) (n : Z) :
  (31 <= fuel)%nat -> 1 <= n <= 2 ^ 30 ->
  exists q, pow2_loop fuel 1 n = Some q /\ (q = n <-> power_of_two n).
Proof.
  intros Hfuel Hn.
  destruct (@pow2_loop_least fuel 0 n) as (i & Hi & Hloop & Hle & Hleast);
    try lia.
  change (2 ^ 0) with 1 in Hloop.
  exists (2 ^ i). split; [exact Hloop|]. split.
  - intros <-. exists i. split; [lia | reflexivity].
  - intros (k & Hk & ->).
    assert (Hki : k <= i) by (apply (Z.pow_le_mono_r_iff 2); lia).
    destruct Hleast as [->|Hlt].
    + assert (k = 0) by lia. subst k. reflexivity.
    + assert (i - 1 < k) by (apply (Z.pow_lt_mono_r_iff 2); lia).
      f_equal. lia.
Qed.

Lemma size_t_product (a b c : Z) :
  to_size_t (to_size_t (to_size_t a * to_size_t b) * to_size_t c)
  = (a * b * c) mod 2 ^ 64.
Proof.
  unfold to_size_t.
  rewrite <- (Z.mul_mod a b (2 ^ 64)) by lia.
  rewrite <- Z.mul_mod by lia. reflexivity.
Qed.

Lemma rem_2_odd (n : Z) : 0 <= n -> negb (Z.rem n 2 =? 0) = Z.odd n.
Proof.
  intros Hn. rewrite Z.rem_mod_nonneg by lia. rewrite Zmod_odd.
  destruct (Z.odd n); reflexivity.
Qed.

(** X16: the allgather selector, for a communicator of 1 to 2^30 processes.
    Two processes always get the pairwise exchange.  Otherwise, below 50000
    bytes in total, recursive doubling is chosen exactly for the powers of
    two and bruck for the other sizes; from 50000 bytes on, ring is chosen
    for odd sizes and neighbor exchange for even ones.  So neighbor exchange
    is only run with an even number of processes, at least 4, and recursive
    doubling only with a power of two. *)
Theorem allgather_picks_by_size (fuel : nat) (n scount dsize : Z) :
  (31 <= fuel)%nat -> 1 <= n <= 2 ^ 30 ->
  let total_dsize := (dsize * scount * n) mod 2 ^ 64 in
  exists a,
    allgather fuel n scount dsize = Some a /\
    (n = 2 -> a = Coll_allgather_pair) /\
    (n <> 2 -> total_dsize < 50000 ->
       (power_of_two n -> a = Coll_allgather_rdb) /\
       (~ power_of_two n -> a = Coll_allgather_bruck)) /\
    (n <> 2 -> 50000 <= total_dsize ->
       (Z.odd n = true -> a = Coll_allgather_ring) /\
       (Z.odd n = false -> a = Coll_allgather_ompi_neighborexchange)) /\
    (a = Coll_allgather_ompi_neighborexchange -> Z.even n = true /\ 4 <= n) /\
    (a = Coll_allgather_rdb -> power_of_two n).
Proof.
  intros Hfuel Hn total_dsize.
  destruct (pow2_loop_exact Hfuel Hn) as (q & Hq & Hexact).
  unfold allgather. rewrite Hq, size_t_product, rem_2_odd by lia.
  fold total_dsize.
  destruct (n =? 2) eqn:E2.
  { exists Coll_allgather_pair. repeat split; try discriminate; try lia. }
  destruct (total_dsize <? 50000) eqn:Et.
  - destruct (q =? n) eqn:Eq.
    + exists Coll_allgather_rdb.
      assert (Hp : power_of_two n) by (apply Hexact; lia).
      repeat split; try discriminate; try lia; try tauto.
    + exists Coll_allgather_bruck.
      assert (Hp : ~ power_of_two n) by (intros Hp; apply Hexact in Hp; lia).
      repeat split; try discriminate; try lia; try tauto.
  - destruct (Z.odd n) eqn:Hodd.
    + exists Coll_allgather_ring.
      repeat split; try discriminate; try lia; try tauto.
    + exists Coll_allgather_ompi_neighborexchange.
      pose proof (even_halves n Hodd) as He.
      repeat split; try discriminate; try lia; try tauto.
      rewrite <- Z.negb_odd, Hodd. reflexivity.
Qed.

End CollSelector_properties.

(** ** The keys of the SMPI trace *)

Section InstrSmpi_properties.

Import InstrSmpi.

Lemma append_inj_l (p a b : string) : p +:+ a = p +:+ b -> a = b.
Proof.
  induction p as [|c p IH]; simpl; intros H; [exact H|].
  injection H as H. exact (IH H).
Qed.

(** The queues of the two sides of a message have different names. *)
Lemma queue_name_sides (src dst tag : Z) :
  queue_name src dst tag 0 <> queue_name src dst tag 1.
Proof.
  unfold queue_name. intros H.
  do 6 (apply append_inj_l in H).
  vm_compute in H. discriminate H.
Qed.

(** The side that [TRACE_smpi_get_key] looks at. *)
Lemma other_side (first : Z) :
  first = 0 \/ first = 1 ->
  (if first =? 1 then 0 else 1) = 1 - first /\
  (if 1 - first =? 1 then 0 else 1) = first /\
  1 - first <> first.
Proof. intros [->| ->]; repeat split; lia. Qed.

Lemma queue_name_other (src dst tag first : Z) :
  first = 0 \/ first = 1 ->
  queue_name src dst tag first <> queue_name src dst tag (1 - first).
Proof.
  intros [->| ->]; simpl; [|apply not_eq_sym]; apply queue_name_sides.
Qed.

(** Posting first: while the other side has no queue, every call makes a
    key and puts it at the back of the queue of its own side. *)
Lemma get_keys_posted_first (src dst tag first : Z) (n : nat) :
  first = 0 \/ first = 1 ->
  forall st : Keys,
  keys st !! queue_name src dst tag (1 - first) = None ->
  exists ks st1,
    get_keys n src dst tag first st = Some (ks, st1) /\
    length ks = n /\
    keys st1 !! queue_name src dst tag (1 - first) = None /\
    (n <> O ->
     keys st1 !! queue_name src dst tag first =
     Some (default [] (keys st !! queue_name src dst tag first) ++ ks)).
Proof.
  intros Hside. destruct (other_side Hside) as (Hopp & _ & _).
  pose proof (queue_name_other src dst tag Hside) as Hne.
  induction n as [|n IH]; intros st Hnone.
  - exists [], st. repeat split; [assumption | congruence].
  - cbn [get_keys]. unfold TRACE_smpi_get_key. rewrite Hopp, Hnone.
    destruct (TRACE_smpi_put_key src dst tag first st) as [key st'] eqn:Hput.
    unfold TRACE_smpi_put_key in Hput. injection Hput as Hkey Hst'.
    assert (Hq : keys st' !! queue_name src dst tag first =
                 Some (default [] (keys st !! queue_name src dst tag first)
                       ++ [key])).
    { rewrite <- Hst'. cbn [keys]. rewrite lookup_insert_eq.
      destruct (keys st !! queue_name src dst tag first); rewrite Hkey;
        reflexivity. }
    assert (Hnone' : keys st' !! queue_name src dst tag (1 - first) = None).
    { rewrite <- Hst'. cbn [keys]. rewrite lookup_insert_ne by exact Hne.
      exact Hnone. }
    destruct (IH st' Hnone') as (ks & st1 & Hks & Hlen & Hnone1 & Hown).
    exists (key :: ks), st1. rewrite Hks. repeat split.
    + simpl. congruence.
    + exact Hnone1.
    + intros _. destruct n as [|n].
      * destruct ks; [|discriminate]. injection Hks as <-. exact Hq.
      * rewrite Hown by discriminate. rewrite Hq. simpl.
        rewrite <- app_assoc. reflexivity.
Qed.

(** Posting second: the keys waiting in the queue of the other side are
    handed out from the front, and no key is made. *)
Lemma get_keys_matched (src dst tag first : Z) (ks : list string) :
  first = 0 \/ first = 1 ->
  forall (st : Keys) (rest : list string),
  keys st !! queue_name src dst tag first = Some (ks ++ rest) ->
  exists st2,
    get_keys (length ks) src dst tag (1 - first) st = Some (ks, st2) /\
    keys st2 !! queue_name src dst tag first = Some rest /\
    counter st2 = counter st.
Proof.
  intros Hside. destruct (other_side Hside) as (_ & Hopp & _).
  induction ks as [|key ks IH]; intros st rest Hq.
  - exists st. repeat split. exact Hq.
  - cbn [length get_keys]. unfold TRACE_smpi_get_key. rewrite Hopp, Hq.
    simpl.
    match goal with |- context [get_keys _ _ _ _ _ ?s] => set (st' := s) end.
    destruct (IH st' rest) as (st2 & Hks & Hrest & Hcounter).
    { unfold st'. cbn [keys]. apply lookup_insert_eq. }
    exists st2. rewrite Hks. repeat split; assumption.
Qed.

(** X17: the keys that link a send to its receive.  When [n] calls for one
    side of a message (source, destination, tag) are posted while neither
    side has a queue, and then [n] calls for the other side, the second
    side gets the keys of the first, in the order in which they were made,
    and no new key is made for it.  One call more for the second side reads
    the front of an empty queue. *)
Theorem keys_are_matched_in_order (n : nat) (src dst tag first : Z)
  (st : Keys) :
  first = 0 \/ first = 1 ->
  keys st !! queue_name src dst tag first = None ->
  keys st !! queue_name src dst tag (1 - first) = None ->
  exists ks st1 st2,
    get_keys n src dst tag first st = Some (ks, st1) /\
    length ks = n /\
    get_keys n src dst tag (1 - first) st1 = Some (ks, st2) /\
    counter st2 = counter st1 /\
    (n <> O -> TRACE_smpi_get_key src dst tag (1 - first) st2 = None).
Proof.
  intros Hside Hown Hother.
  destruct (get_keys_posted_first src dst tag n Hside st Hother)
    as (ks & st1 & Hks & Hlen & Hnone & Hqueue).
  destruct n as [|n].
  - destruct ks; [|discriminate]. injection Hks as <-.
    exists [], st, st. repeat split. congruence.
  - rewrite Hown in Hqueue. simpl in Hqueue.
    destruct (@get_keys_matched src dst tag first ks Hside st1 [])
      as (st2 & Hmatch & Hrest & Hcounter).
    { rewrite app_nil_r. apply Hqueue. discriminate. }
    exists ks, st1, st2.
    split; [exact Hks|]. split; [exact Hlen|].
    split; [rewrite <- Hlen; exact Hmatch|]. split; [exact Hcounter|].
    intros _. unfold TRACE_smpi_get_key.
    destruct (other_side Hside) as (_ & Hopp & _). rewrite Hopp, Hrest.
    reflexivity.
Qed.

End InstrSmpi_properties.

Section InstrSmpi_names.

Import InstrSmpi.

Lemma pretty_N_char_free (d : N) : pretty_N_char d <> "#"%char.
Proof. unfold pretty_N_char. repeat case_match; discriminate. Qed.

Lemma pretty_N_go_free (x : N) : forall s : string,
  free_of "#" s -> free_of "#" (pretty_N_go x s).
Proof.
  induction (N.lt_wf_0 x) as [x _ IH]; intros s Hs.
  assert (Hx : (x = 0 \/ 0 < x)%N) by lia. destruct Hx as [->|Hpos].
  - rewrite pretty_N_go_0. exact Hs.
  - rewrite pretty_N_go_step by exact Hpos. apply IH.
    + apply N.div_lt; [exact Hpos | reflexivity].
    + split; [apply pretty_N_char_free | exact Hs].
Qed.

Lemma pretty_N_free (x : N) : free_of "#" (pretty x).
Proof.
  unfold pretty, pretty_N. destruct (decide (x = 0%N)).
  - split; [discriminate | exact I].
  - apply pretty_N_go_free. exact I.
Qed.

Lemma to_string_free (z : Z) : free_of "#" (to_string z).
Proof.
  unfold to_string, pretty, pretty_Z. destruct z as [|p|p].
  - split; [discriminate | exact I].
  - apply pretty_N_free.
  - split; [discriminate | apply pretty_N_free].
Qed.

(** A name without [#] ends where the first [#] is. *)
Lemma split_at_hash (a : string) : forall a' r r' : string,
  free_of "#" a -> free_of "#" a' ->
  a +:+ "#" +:+ r = a' +:+ "#" +:+ r' -> a = a' /\ r = r'.
Proof.
  induction a as [|x a IH]; intros [|y a'] r r' Ha Ha' H; simpl in H.
  - injection H as H. split; [reflexivity | exact H].
  - injection H as Hc _. destruct Ha' as [Hy _]. congruence.
  - injection H as Hc _. destruct Ha as [Hx _]. congruence.
  - injection H as Hc H. destruct Ha as [_ Ha], Ha' as [_ Ha'].
    destruct (IH a' r r' Ha Ha' H) as [-> ->]. subst y.
    split; reflexivity.
Qed.

Lemma queue_name_inj (src dst tag send src' dst' tag' send' : Z) :
  queue_name src dst tag send = queue_name src' dst' tag' send' ->
  src = src' /\ dst = dst' /\ tag = tag' /\ send = send'.
Proof.
  unfold queue_name. intros H.
  apply split_at_hash in H; try apply to_string_free. destruct H as [H1 H].
  apply split_at_hash in H; try apply to_string_free. destruct H as [H2 H].
  apply split_at_hash in H; try apply to_string_free. destruct H as [H3 H4].
  unfold to_string in *.
  apply (inj pretty) in H1, H2, H3, H4. repeat split; assumption.
Qed.

(** X20: the names used by the trace identify what they name.  Two ranks
    never share a container name.  The queue of keys of one side of a
    message (source, destination, tag) is the queue of no other message and
    of no other side; so asking a key for one message leaves the queues of
    all other messages as they are. *)
Theorem queues_are_per_message (src dst tag send : Z) (st : Keys) :
  (forall rank rank', smpi_container rank = smpi_container rank' ->
     rank = rank') /\
  (forall src' dst' tag' send',
     queue_name src dst tag send = queue_name src' dst' tag' send' ->
     src = src' /\ dst = dst' /\ tag = tag' /\ send = send') /\
  (forall key st' src' dst' tag' send',
     TRACE_smpi_get_key src dst tag send st = Some (key, st') ->
     (src', dst', tag') <> (src, dst, tag) ->
     keys st' !! queue_name src' dst' tag' send' =
     keys st !! queue_name src' dst' tag' send').
Proof.
  split; [|split].
  - intros rank rank' H. unfold smpi_container in H.
    apply append_inj_l in H. unfold to_string in H.
    exact (inj pretty _ _ H).
  - intros src' dst' tag' send'. apply queue_name_inj.
  - intros key st' src' dst' tag' send' H Hne.
    assert (Hother : forall x,
      queue_name src dst tag x <> queue_name src' dst' tag' send').
    { intros x Heq. apply queue_name_inj in Heq.
      destruct Heq as (-> & -> & -> & _). apply Hne. reflexivity. }
    unfold TRACE_smpi_get_key in H.
    destruct (keys st !! queue_name src dst tag (if send =? 1 then 0 else 1))
      as [[|first d]|].
    + discriminate H.
    + injection H as _ <-. cbn [keys].
      apply lookup_insert_ne, Hother.
    + unfold TRACE_smpi_put_key in H. injection H as _ <-. cbn [keys].
      apply lookup_insert_ne, Hother.
Qed.

End InstrSmpi_names.

(** ** The colours of the SMPI states *)

Section InstrSmpiColors_properties.

Import InstrSmpiColors.

Lemma append_cons (x : ascii) (a b : string) :
  String x a +:+ b = String x (a +:+ b).
Proof. reflexivity. Qed.

Lemma starts_with_spec (needle : string) : forall haystack : string,
  starts_with needle haystack = true <->
  exists post, haystack = needle +:+ post.
Proof.
  induction needle as [|a needle IH]; intros haystack; simpl.
  - split; [intros _; exists haystack; reflexivity | reflexivity].
  - destruct haystack as [|b haystack].
    + split; [discriminate | intros (post & H); discriminate H].
    + rewrite andb_true_iff, IH. split.
      * intros (Hab & post & ->). apply Ascii.eqb_eq in Hab. subst b.
        exists post. reflexivity.
      * intros (post & H). injection H as -> ->. split.
        -- apply Ascii.eqb_refl.
        -- exists post. reflexivity.
Qed.

Lemma strstr_spec (haystack : string) : forall needle : string,
  strstr haystack needle = true <->
  exists pre post, haystack = pre +:+ needle +:+ post.
Proof.
  induction haystack as [|b haystack IH]; intros needle; simpl.
  - rewrite orb_false_r, starts_with_spec. split.
    + intros (post & H). exists EmptyString, post. exact H.
    + intros ([|c pre] & post & H); [exists post; exact H | discriminate H].
  - rewrite orb_true_iff, starts_with_spec, IH. split.
    + intros [(post & H)|(pre & post & H)].
      * exists EmptyString, post. exact H.
      * exists (String b pre), post. rewrite append_cons, H. reflexivity.
    + intros ([|c pre] & post & H).
      * left. exists post. exact H.
      * right. rewrite append_cons in H. injection H as _ H.
        exists pre, post. exact H.
Qed.

Lemma append_assoc (a b c : string) : (a +:+ b) +:+ c = a +:+ b +:+ c.
Proof.
  induction a as [|x a IH]; [reflexivity|].
  rewrite !append_cons, IH. reflexivity.
Qed.

(** What occurs in a part of a string occurs in the string. *)
Lemma strstr_trans (a b c : string) :
  strstr a b = true -> strstr b c = true -> strstr a c = true.
Proof.
  rewrite !strstr_spec. intros (pre & post & ->) (pre' & post' & ->).
  exists (pre +:+ pre'), (post' +:+ post).
  rewrite !append_assoc. reflexivity.
Qed.

Lemma strstr_refl (a : string) : strstr a a = true.
Proof.
  apply strstr_spec. exists EmptyString, EmptyString.
  change (a = a +:+ EmptyString).
  induction a as [|x a IH]; [reflexivity|].
  rewrite append_cons, <- IH. reflexivity.
Qed.

Lemma matches_strstr (target current : string) :
  String.eqb target current || strstr target current = strstr target current.
Proof.
  destruct (String.eqb target current) eqn:E; [|reflexivity].
  apply String.eqb_eq in E. subst. simpl. symmetry. apply strstr_refl.
Qed.

Lemma shadowed_sound (color target : string) (colors : list (option string)) :
  forall n (seen : list string),
  (length colors <= n)%nat ->
  shadowed color seen colors = true ->
  (forall name, In name seen -> strstr target name = false) ->
  find_color_from target colors <> Some color.
Proof.
  revert colors.
  intros colors n. revert colors.
  induction n as [|n IH]; intros colors seen Hlen Hsh Hseen.
  - destruct colors; [discriminate | simpl in Hlen; lia].
  - destruct colors as [|[current|] [|c rest]]; try discriminate.
    cbn [find_color_from shadowed] in *. rewrite matches_strstr.
    apply andb_true_iff in Hsh. destruct Hsh as [Hhere Hrest].
    destruct (strstr target current) eqn:Hm.
    + intros ->. rewrite bool_decide_eq_true_2 in Hhere by reflexivity.
      apply existsb_exists in Hhere. destruct Hhere as (name & Hin & Hocc).
      pose proof (Hseen name Hin) as Hnot.
      rewrite (strstr_trans _ _ _ Hm Hocc) in Hnot. discriminate Hnot.
    + apply (IH rest (current :: seen)); [simpl in Hlen; lia | exact Hrest |].
      intros name [<-|Hin]; [exact Hm | exact (Hseen name Hin)].
Qed.

(** X21: the colour of a state is that of the first name of the table that
    occurs in the lower-case state, so a name that contains an earlier name
    never gets its own colour.  A state whose name contains [recv], as
    [irecv] and [sendrecv] do, has the colour of [recv]; and the colours
    given in the table to [irecv] and [allgatherv], [isend], [waitall],
    [waitany], [alltoallv], [gatherv], [reducescatter], [exscan] and
    [win_wait] are returned for no state at all. *)
Theorem instr_find_color_first_match (state : string) :
  (strstr (to_lower state) "recv" = true ->
   instr_find_color state = Some "1 0 0"%string) /\
  (forall color : string,
     In color ["1 0.52 0.52"; "0.52 0.52 1"; "0.78 0.78 0"; "0.78 0.78 0.58";
               "0.78 0.52 1"; "1 1 0.52"; "0.52 1 0.52"; "1 0.54 0.25";
               "1 0.8 0"]%string ->
     instr_find_color state <> Some color).
Proof.
  split.
  - intros H. unfold instr_find_color, smpi_colors.
    cbn [find_color_from]. rewrite matches_strstr, H. reflexivity.
  - intros color Hin. unfold instr_find_color.
    apply (@shadowed_sound color (to_lower state) smpi_colors
             (length smpi_colors) []); [lia | | intros name []].
    simpl in Hin.
    repeat (destruct Hin as [<-|Hin]; [vm_compute; reflexivity|]).
    destruct Hin.
Qed.

End InstrSmpiColors_properties.

(** ** The Java contexts *)

Section ContextJava_properties.

Import ContextJava.

Variable E : Type.
Variable java_thread : smx_context_t -> smx_context_t * E -> smx_context_t * E.

(** X18: a round of the Java factory.  Every process of the list is
    scheduled once, in the order of the list, and while it is scheduled
    [smx_ctx_java_self] answers its context; once the round is over
    [smx_ctx_java_self] answers what it answered before the round, whatever
    the threads did. *)
Theorem smx_ctx_java_runall_restores_self (processes : list smx_process) :
  forall s : State E,
  let s' := smx_ctx_java_runall java_thread processes s in
  smx_ctx_java_self s' = smx_ctx_java_self s /\
  scheduled s' =
  scheduled s ++ map (fun process => (context process, context process)) processes.
Proof.
  induction processes as [|process rest IH]; intros s.
  - simpl. rewrite app_nil_r. split; reflexivity.
  - cbn [smx_ctx_java_runall]. cbv zeta.
    match goal with |- context [smx_ctx_java_runall _ rest ?x] =>
      destruct (IH x) as [Hself Hlog]; set (s3 := x) in *
    end.
    split.
    + rewrite Hself. reflexivity.
    + rewrite Hlog. unfold s3. simpl. rewrite <- app_assoc. reflexivity.
Qed.

End ContextJava_properties.

(** ** The categories of MSG tasks *)

Section InstrMsgTask_properties.

Import InstrMsgTask.

Lemma to_long_long_inj (a b : Z) :
  0 <= a < 2 ^ 64 -> 0 <= b < 2 ^ 64 -> to_long_long a = to_long_long b -> a = b.
Proof.
  unfold to_long_long. intros Ha Hb H.
  assert (H' : (a + 2 ^ 63) mod 2 ^ 64 = (b + 2 ^ 63) mod 2 ^ 64) by lia.
  clear H. revert H'.
  destruct (Z_lt_le_dec a (2 ^ 63)), (Z_lt_le_dec b (2 ^ 63)).
  - rewrite !Z.mod_small by lia. lia.
  - rewrite (Z.mod_small (a + 2 ^ 63)) by lia.
    replace (b + 2 ^ 63) with (b - 2 ^ 63 + 1 * 2 ^ 64) by lia.
    rewrite Z.mod_add, Z.mod_small by lia. lia.
  - rewrite (Z.mod_small (b + 2 ^ 63)) by lia.
    replace (a + 2 ^ 63) with (a - 2 ^ 63 + 1 * 2 ^ 64) by lia.
    rewrite Z.mod_add, Z.mod_small by lia. lia.
  - replace (a + 2 ^ 63) with (a - 2 ^ 63 + 1 * 2 ^ 64) by lia.
    replace (b + 2 ^ 63) with (b - 2 ^ 63 + 1 * 2 ^ 64) by lia.
    rewrite !Z.mod_add, !Z.mod_small by lia. lia.
Qed.

(** X19: the category of a task is set at most once.  On a task that has a
    category, [TRACE_msg_set_task_category] fails its assertion whatever the
    new category, a null one included: the branch that removes the category
    only ever runs on a task that has none, and leaves the task as it is.
    Between creation and destruction a category can therefore be given
    once; after [TRACE_msg_task_destroy] it can be given again.  Two tasks
    created one after the other get different counters. *)
Theorem task_category_is_set_once (task : msg_task) (c : string)
  (again : option string) :
  (category task <> None ->
   TRACE_msg_set_task_category again task = (Die xbt_assert_failure, task)) /\
  (forall task',
     TRACE_msg_set_task_category None task = (Ret tt, task') ->
     category task = None /\ task' = task) /\
  (category task = None ->
   category (snd (TRACE_msg_set_task_category (Some c) task)) = Some c /\
   fst ((TRACE_msg_set_task_category (Some c) ;;
         TRACE_msg_set_task_category again) task) = Die xbt_assert_failure /\
   (TRACE_msg_set_task_category (Some c) ;; TRACE_msg_task_destroy ;;
    TRACE_msg_set_task_category again) task
   = (Ret tt, {| task_counter := task_counter task; category := again |})) /\
  (forall (other : msg_task) (counter : Z),
     0 <= counter < 2 ^ 64 ->
     let s1 := snd (TRACE_msg_task_create (task, counter)) in
     let s2 := snd (TRACE_msg_task_create (other, snd s1)) in
     category (fst s1) = None /\
     task_counter (fst s1) <> task_counter (fst s2)).
Proof.
  destruct task as [n [cat|]]; (split; [|split; [|split]]).
  - intros _. reflexivity.
  - intros task' H. discriminate H.
  - intros H. discriminate H.
  - intros other counter Hc. split; [reflexivity|]. simpl.
    intros H. apply to_long_long_inj in H; try lia.
    + unfold ULLONG_MODULUS in H.
      destruct (Z.eq_dec counter (2 ^ 64 - 1)) as [->|Hne].
      * discriminate H.
      * rewrite Z.mod_small in H by lia. lia.
    + apply Z.mod_pos_bound. reflexivity.
  - intros H. exfalso. apply H. reflexivity.
  - intros task' H. injection H as <-. split; reflexivity.
  - intros _. split; [reflexivity|]. split; [reflexivity|].
    destruct again; reflexivity.
  - intros other counter Hc. split; [reflexivity|]. simpl.
    intros H. apply to_long_long_inj in H; try lia.
    + unfold ULLONG_MODULUS in H.
      destruct (Z.eq_dec counter (2 ^ 64 - 1)) as [->|Hne].
      * discriminate H.
      * rewrite Z.mod_small in H by lia. lia.
    + apply Z.mod_pos_bound. reflexivity.
Qed.

End InstrMsgTask_properties.

(** ** Worked instances, continued *)

Section More_instances.

Import S4U S4U_wait Samples MoreSamples.

Lemma wait_for_result_tells_witness :
  fst (wait_for timing_out_handler cv7 lock3 two start) = Ret timeout /\
  issued (snd (wait_for timing_out_handler cv7 lock3 two start))
    = [cond_wait_timeout 7%nat 3%nat two; mutex_lock 3%nat] /\
  fst (wait_for quiet_handler cv7 lock3 two start) = Ret no_timeout /\
  issued (snd (wait_for quiet_handler cv7 lock3 two start))
    = [cond_wait_timeout 7%nat 3%nat two].
Proof.
  destruct (wait_for_result_tells timing_out_handler cv7 lock3 two start)
    as [_ Hto].
  destruct (Hto eq_refl) as (_ & _ & Hissued).
  destruct (wait_for_result_tells quiet_handler cv7 lock3 two start)
    as [Hno _].
  destruct (Hno eq_refl) as (_ & Hone).
  split; [reflexivity|]. split; [exact Hissued|].
  split; [reflexivity|]. exact Hone.
Defined.

Lemma wait_pred_returns_when_true_witness :
  exists s',
    wait_pred quiet_cond_wait 3 cv7 lock3 (gets two_issued) start
      = Some (Ret tt, s') /\
    two_issued s' = true /\
    wait_pred quiet_cond_wait 1 cv7 lock3 (gets two_issued) s'
      = Some (Ret tt, s').
Proof.
  destruct (wait_pred_returns_when_true quiet_cond_wait two_issued cv7 lock3
              start) as (_ & Hholds & _).
  eexists. split; [reflexivity|].
  split; [apply (Hholds 3%nat); reflexivity|].
  match goal with |- wait_pred _ _ _ _ _ ?s = _ =>
    destruct (wait_pred_returns_when_true quiet_cond_wait two_issued cv7 lock3
                s) as (Hnow & _)
  end.
  apply (Hnow eq_refl 0%nat).
Defined.

Lemma wait_until_pred_returns_the_predicate_witness :
  two_issued start = false /\
  wait_until_pred timing_out_wait 1 cv7 lock3 two (gets two_issued) start
    = Some (Ret true, snd (timing_out_wait cv7 lock3 two start)).
Proof.
  destruct (wait_until_pred_returns_the_predicate timing_out_wait two_issued
              cv7 lock3 two start) as (_ & Hto & _).
  split; [reflexivity|].
  exact (Hto eq_refl eq_refl 0%nat).
Defined.

End More_instances.

Section More_kernel_instances.

Import Kernel Simix ActorFuture Continuations Samples MoreSamples.


Lemma fulfillPromise_on_satisfied_witness :
  fulfillPromise (H:=Promise_PromiseLike Z Z) promise0 (ret 7)
    (kernel_with (resolved 42))
  = (Throw (future_error promise_already_satisfied), kernel_with (resolved 42)) /\
  fulfillPromise (H:=Promise_PromiseLike Z Z) promise0
    (throw (user_exception 7)) (kernel_with (resolved 42))
  = (Throw (future_error promise_already_satisfied), kernel_with (resolved 42)).
Proof.
  split.
  - apply (fulfillPromise_on_satisfied promise0 (l:=0%nat) (ret 7)
             (kernel_with (resolved 42)) (st:=resolved 42));
      [reflexivity | reflexivity | discriminate | intros f; discriminate].
  - apply (fulfillPromise_on_satisfied promise0 (l:=0%nat)
             (throw (user_exception 7))
             (kernel_with (resolved 42)) (st:=resolved 42));
      [reflexivity | reflexivity | discriminate | intros f; discriminate].
Defined.

Lemma kernelImmediate_returns_to_the_actor_witness :
  fst (kernelImmediate (throw (user_exception 7)) actor_world)
    = Throw (user_exception 7) /\
  running (snd (kernelImmediate (throw (user_exception 7)) actor_world))
    = Some 1%nat /\
  results (snd (kernelImmediate (throw (user_exception 7)) actor_world))
    !! 1%nat = Some invalid.
Proof.
  assert (Hcode : forall f,
    fst (throw (A:=Z) (user_exception 7) (kernel actor_world)) <> Die f)
    by (intros f; discriminate).
  destruct (kernelImmediate_returns_to_the_actor
              (throw (user_exception 7)) actor_world eq_refl Hcode)
    as (Hrun & Hres & _).
  split; [reflexivity|]. split; [exact Hrun | exact Hres].
Defined.

Lemma ActorFuture_get_is_single_use_witness :
  get (ret tt) ({| future_ := no_future |}, actor_world)
    = (Throw (future_error no_state), ({| future_ := no_future |}, actor_world)) /\
  valid (fst (snd (get (ret tt) ({| future_ := future0 |}, pending_world))))
    = false /\
  simcalls (snd (snd (get (ret tt) ({| future_ := future0 |}, pending_world))))
    = [(1%nat, run_blocking)].
Proof.
  destruct (ActorFuture_get_is_single_use (ret tt) {| future_ := no_future |}
              actor_world) as (Hno & _).
  destruct (ActorFuture_get_is_single_use (ret tt) {| future_ := future0 |}
              pending_world) as (_ & Hvalid).
  destruct (Hvalid 1%nat eq_refl) as (Hinvalid & _ & Hone).
  split; [exact (Hno eq_refl)|]. split; [exact Hinvalid|].
  exact (Hone (fun w => eq_refl) eq_refl).
Defined.

Lemma get_on_a_resolved_future_witness :
  let r := get (drain_ready_list add_to_result 1)
             ({| future_ := future0 |}, resolved_world) in
  fst (get (ret tt) ({| future_ := future0 |}, resolved_world))
    = Die (xbt_die "Deadlock: every actor is blocked") /\
  fst r = Ret 42 /\
  simcalls (snd (snd r)) = [(1%nat, run_blocking)] /\
  running (snd (snd r)) = Some 1%nat.
Proof.
  assert (Hfresh : 1%nat ∉ process_to_run (kernel resolved_world))
    by (simpl; apply not_elem_of_nil).
  destruct (get_on_a_resolved_future add_to_result 0%nat 0%nat resolved_world
              eq_refl eq_refl eq_refl eq_refl eq_refl Hfresh)
    as (_ & _ & Hstuck & Hvalue & _).
  split; [exact (f_equal fst Hstuck)|].
  exact (Hvalue 42 eq_refl eq_refl).
Defined.

Lemma kernelSync_wakes_the_actor_witness :
  running actor_world = Some 1%nat /\
  fst (kernelSync failing_code (ret tt) actor_world) = Throw (user_exception 7) /\
  simcalls (snd (kernelSync failing_code (ret tt) actor_world))
    = [(1%nat, run_blocking)] /\
  fst (kernelSync stateless_future (ret tt) actor_world)
    = Throw (future_error no_state) /\
  fst (kernelSync new_future
         (in_kernel (FutureState_set_value 0%nat 42) ;;
          drain_ready_list add_to_result 1) actor_world) = Ret 42 /\
  fst (kernelSync new_future
         (in_kernel (FutureState_set_exception (V:=Z) 0%nat (user_exception 3)) ;;
          drain_ready_list add_to_result 1) actor_world)
    = Throw (user_exception 3) /\
  fst (kernelSync (ret future0) (drain_ready_list add_to_result 1)
         resolved_world) = Ret 42.
Proof.
  destruct (kernelSync_wakes_the_actor add_to_result failing_code (ret tt)
              actor_world eq_refl) as (Hfail & _ & _ & _ & _ & _ & Hone).
  destruct (Hfail (user_exception 7) (or_introl eq_refl)) as (Hthrow & _).
  destruct (kernelSync_wakes_the_actor add_to_result stateless_future (ret tt)
              actor_world eq_refl) as (Hstateless & _).
  destruct (Hstateless (future_error no_state) (or_intror (conj eq_refl eq_refl)))
    as (Hno & _).
  assert (Hout : 1%nat ∉ @nil actor) by apply not_elem_of_nil.
  destruct (kernelSync_wakes_the_actor add_to_result new_future (ret tt)
              actor_world eq_refl) as (_ & _ & _ & _ & _ & Hpending & _).
  destruct (Hpending 0%nat 0%nat pending eq_refl eq_refl eq_refl eq_refl
              eq_refl Hout) as (Hvalue & Hexc).
  destruct (Hvalue 42 eq_refl) as (Hv & _).
  destruct (Hexc (user_exception 3)) as (He & _).
  destruct (kernelSync_wakes_the_actor add_to_result (ret future0) (ret tt)
              resolved_world eq_refl) as (_ & _ & _ & _ & Hready & _).
  destruct (Hready 0%nat 0%nat (resolved 42) eq_refl eq_refl eq_refl eq_refl
              eq_refl Hout) as (Hresolved & _).
  destruct (Hresolved 42 eq_refl eq_refl) as (Hr & _).
  split; [reflexivity|]. split; [exact Hthrow|].
  split; [rewrite (Hone (fun w => eq_refl)); reflexivity|].
  split; [exact Hno|]. split; [exact Hv|]. split; [exact He | exact Hr].
Defined.

Lemma kernelSync_is_get_on_the_future_witness :
  let r := get resolve_with_42
             ({| future_ := future0 |},
              set_kernel (snd (new_future empty_kernel)) actor_world) in
  fst (new_future (kernel actor_world)) = Ret future0 /\
  kernelSync new_future resolve_with_42 actor_world = (fst r, snd (snd r)).
Proof.
  split; [reflexivity|].
  exact (kernelSync_is_get_on_the_future new_future resolve_with_42
           actor_world (self:=1%nat) (f:=future0) eq_refl eq_refl eq_refl).
Defined.

End More_kernel_instances.

Section More_context_instances.

Import ContextBoost BoostContextLifetime Samples MoreSamples.

Lemma serial_round_hands_over_witness :
  switches (snd ((run_all ;; yields 3) three_actors))
    = [(0, 11); (11, 12); (12, 13); (13, 0)]%nat.
Proof.
  destruct (serial_round_hands_over three_actors) as [_ Hround].
  assert (Hne : process_to_run three_actors <> []) by discriminate.
  exact (Hround Hne eq_refl).
Defined.

Lemma maestro_is_registered_once_witness :
  BoostContext_new 5%nat false no_context
    = (Ret None, set_maestro_context_ (Some 5%nat) no_context) /\
  BoostContext_new 6%nat false (set_maestro_context_ (Some 5%nat) no_context)
    = (Ret None, set_maestro_context_ (Some 5%nat) no_context) /\
  (let! stack_ := BoostContext_new 5%nat true in
   BoostContext_delete 5%nat stack_) no_context = (Ret tt, no_context).
Proof.
  destruct (maestro_is_registered_once no_context 5%nat)
    as (_ & Hfirst & _ & _ & Hround).
  destruct (maestro_is_registered_once
              (set_maestro_context_ (Some 5%nat) no_context) 6%nat)
    as (_ & _ & Hstays & _).
  assert (Hother : maestro_context_ no_context <> Some 5%nat) by discriminate.
  split; [exact (Hfirst eq_refl)|].
  split; [exact (Hstays 5%nat eq_refl)|].
  exact (Hround Hother true).
Defined.

End More_context_instances.

Section More_selector_instances.

Import CollSelectorOmpi.

Lemma barrier_picks_by_power_of_two_witness :
  barrier 32 2 = Some Coll_barrier_ompi_two_procs /\
  barrier 32 8 = Some Coll_barrier_ompi_recursivedoubling /\
  barrier 32 6 = Some Coll_barrier_ompi_bruck.
Proof.
  assert (H8 : power_of_two 8) by (exists 3; split; [lia | reflexivity]).
  assert (H6 : ~ power_of_two 6).
  { intros (k & Hk & H). destruct (Z_lt_le_dec k 3) as [Hlt|Hge].
    - assert (Hk3 : k = 0 \/ k = 1 \/ k = 2) by lia.
      destruct Hk3 as [->|[->| ->]]; discriminate H.
    - assert (2 ^ 3 <= 2 ^ k) by (apply Z.pow_le_mono_r; lia). lia. }
  destruct (@barrier_picks_by_power_of_two 32 2) as (Htwo & _); [lia | lia |].
  destruct (@barrier_picks_by_power_of_two 32 8) as (_ & Hyes & _);
    [lia | lia |].
  destruct (@barrier_picks_by_power_of_two 32 6) as (_ & _ & Hno);
    [lia | lia |].
  split; [exact (Htwo eq_refl)|].
  split; [apply Hyes; [lia | exact H8] | exact (Hno H6)].
Defined.

Lemma allgather_picks_by_size_witness :
  allgather 31 8 10 4 = Some Coll_allgather_rdb /\
  allgather 31 6 10000 8 = Some Coll_allgather_ompi_neighborexchange.
Proof.
  assert (H8 : power_of_two 8) by (exists 3; split; [lia | reflexivity]).
  destruct (@allgather_picks_by_size 31 8 10 4) as (a & Ha & _ & Hsmall & _);
    [lia | lia |].
  destruct (@allgather_picks_by_size 31 6 10000 8)
    as (b & Hb & _ & _ & Hlarge & _); [lia | lia |].
  split.
  - rewrite Ha. f_equal. apply Hsmall; [lia | reflexivity | exact H8].
  - rewrite Hb. f_equal. apply Hlarge; [lia | discriminate | reflexivity].
Defined.

End More_selector_instances.

Section More_trace_instances.

Import InstrSmpi InstrMsgTask MoreSamples.

Lemma keys_are_matched_in_order_witness :
  exists ks st1 st2,
    get_keys 2 0 1 7 1 no_keys = Some (ks, st1) /\
    ks = ["0_1_7_1"; "0_1_7_2"]%string /\
    get_keys 2 0 1 7 0 st1 = Some (ks, st2) /\
    TRACE_smpi_get_key 0 1 7 0 st2 = None.
Proof.
  destruct (@keys_are_matched_in_order 2 0 1 7 1 no_keys
              (or_intror eq_refl) eq_refl eq_refl)
    as (ks & st1 & st2 & Hfirst & _ & Hsecond & _ & Hmore).
  exists ks, st1, st2.
  split; [exact Hfirst|].
  split; [vm_compute in Hfirst; congruence|].
  split; [exact Hsecond|].
  apply Hmore. discriminate.
Defined.

Lemma task_category_is_set_once_witness :
  TRACE_msg_set_task_category None compute_task
    = (Die xbt_assert_failure, compute_task) /\
  category (snd (TRACE_msg_set_task_category (Some "compute"%string) new_task))
    = Some "compute"%string /\
  fst ((TRACE_msg_set_task_category (Some "compute"%string) ;;
        TRACE_msg_set_task_category (Some "io"%string)) new_task)
    = Die xbt_assert_failure.
Proof.
  destruct (task_category_is_set_once compute_task "compute" None)
    as (Hset & _).
  destruct (task_category_is_set_once new_task "compute" (Some "io"%string))
    as (_ & _ & Hfresh & _).
  destruct (Hfresh eq_refl) as (Hgiven & Hagain & _).
  assert (Hhas : category compute_task <> None) by discriminate.
  split; [exact (Hset Hhas)|]. split; [exact Hgiven | exact Hagain].
Defined.

Lemma instr_find_color_first_match_witness :
  InstrSmpiColors.instr_find_color "PMPI_Irecv" = Some "1 0 0"%string /\
  InstrSmpiColors.instr_find_color "sendrecv" = Some "1 0 0"%string /\
  InstrSmpiColors.instr_find_color "allgatherv" <> Some "1 0.52 0.52"%string.
Proof.
  destruct (instr_find_color_first_match "PMPI_Irecv") as [Hirecv _].
  destruct (instr_find_color_first_match "sendrecv") as [Hsendrecv _].
  destruct (instr_find_color_first_match "allgatherv") as [_ Hdead].
  split; [apply Hirecv; reflexivity|].
  split; [apply Hsendrecv; reflexivity|].
  apply Hdead. left. reflexivity.
Defined.

Lemma queues_are_per_message_witness :
  exists key st',
    TRACE_smpi_get_key 0 1 7 1 no_keys = Some (key, st') /\
    keys st' !! queue_name 0 2 7 1 = None /\
    keys st' !! queue_name 5 1 7 0 = None.
Proof.
  destruct (queues_are_per_message 0 1 7 1 no_keys) as (_ & _ & Hframe).
  eexists _, _. split; [reflexivity|].
  split.
  - rewrite (Hframe _ _ 0 2 7 1 eq_refl); [reflexivity | discriminate].
  - rewrite (Hframe _ _ 5 1 7 0 eq_refl); [reflexivity | discriminate].
Defined.

End More_trace_instances.
